(** * sanctum-sdk-go: the protocol client

    A shallow embedding of the wire client of the SanctumAI Go SDK
    (its wire types, errors, frame codec and client) and the properties of its
    frame codec, request dispatcher, handshake and credential calls;
    and of the cgo bindings of the vault library (the [Vault] type and
    its result codes), with the library itself taken as an interface.

    Conventions.  Go's [uint32]/[uint64] are integers of [Z] with the
    wrap-around written out; a byte is a [Byte.byte]; a Go [string] is a
    [string]; [(T, error)] results are a [result]; the connection and the
    client are explicit state.  The packages the client imports
    (encoding/json below the struct level, crypto/ed25519, net) are taken
    as interfaces. *)

From Stdlib Require Import ZArith List Bool Lia.
From Stdlib Require Import Strings.String Strings.Ascii Strings.Byte.
From Stdlib Require Import DecimalString.
Import ListNotations.

Local Open Scope Z_scope.
Local Open Scope string_scope.

(* ================================================================== *)
(** ** Bytes and fixed-width integers *)
(* ================================================================== *)

Definition bytes := list byte.

(** Go's [byte(v)] conversion of an integer: the low eight bits. *)
Definition byte_of_Z (v : Z) : byte :=
  match Byte.of_N (Z.to_N (Z.land v 255)) with
  | Some b => b
  | None => x00
  end.

Definition Z_of_byte (b : byte) : Z := Z.of_N (Byte.to_N b).

Definition uint32_max : Z := 2 ^ 32.
Definition uint64_max : Z := 2 ^ 64.

(** [uint32(x)] and [uint64(x)]: truncation to the width. *)
Definition uint32 (x : Z) : Z := x mod uint32_max.
Definition uint64 (x : Z) : Z := x mod uint64_max.

(** [len(b)] of a Go slice. *)
Definition len (b : bytes) : Z := Z.of_nat (List.length b).

(** encoding/binary, [BigEndian.PutUint32]. *)
Definition PutUint32 (v : Z) : bytes :=
  [ byte_of_Z (Z.shiftr v 24); byte_of_Z (Z.shiftr v 16);
    byte_of_Z (Z.shiftr v 8);  byte_of_Z v ].

(** encoding/binary, [BigEndian.Uint32], on the four bytes read. *)
Definition Uint32 (b : bytes) : Z :=
  match b with
  | [b0; b1; b2; b3] =>
      Z.lor (Z.lor (Z.lor (Z_of_byte b3) (Z.shiftl (Z_of_byte b2) 8))
                   (Z.shiftl (Z_of_byte b1) 16))
            (Z.shiftl (Z_of_byte b0) 24)
  | _ => 0
  end.

(** [%d] of fmt for a non-negative integer. *)
Definition decimal (v : Z) : string :=
  NilZero.string_of_uint (N.to_uint (Z.to_N v)).


(* ================================================================== *)
(** ** JSON values and the wire types *)
(* ================================================================== *)

(** A JSON text in parsed form.  A number written as a plain integer is
    a [JInt]; any other number literal (fraction, exponent, [-0]) is kept
    as written in [JNumber]. *)
#[warnings="-register-all"]
Inductive json : Type :=
| JNull
| JBool (b : bool)
| JInt (n : Z)
| JNumber (lit : string)
| JString (s : string)
| JArray (items : list json)
| JObject (members : list (string * json)).

(** [json.RawMessage]: [nil], or the bytes of one JSON text, held here as
    the value they denote. *)
Definition RawMessage := option json.

Module RpcRequest.
Record t := mk {
  ID : Z;                 (* uint64          `json:"id"`     *)
  Method : string;        (* string          `json:"method"` *)
  Params : RawMessage     (* json.RawMessage `json:"params"` *)
}.
End RpcRequest.

Module RpcResponse.
Record t := mk {
  ID : Z;                 (* uint64          `json:"id"`               *)
  Result : RawMessage;    (* json.RawMessage `json:"result,omitempty"` *)
  Error : RawMessage      (* json.RawMessage `json:"error,omitempty"`  *)
}.
Definition zero : t := mk 0 None None.
End RpcResponse.

Module Credential.
Record t := mk {
  Path : string;          (* `json:"path"`     *)
  Value : RawMessage;     (* `json:"value"`    *)
  LeaseID : string;       (* `json:"lease_id"` *)
  TTL : Z                 (* uint64 `json:"ttl"` *)
}.
Definition zero : t := mk "" None "" 0.
End Credential.

Module CredentialInfo.
Record t := mk {
  Path : string;            (* `json:"path"`                  *)
  CredentialType : string;  (* `json:"type,omitempty"`        *)
  Description : string      (* `json:"description,omitempty"` *)
}.
Definition zero : t := mk "" "" "".
End CredentialInfo.

Module UseResult.
Record t := mk {
  Success : bool;         (* `json:"success"`          *)
  Output : RawMessage     (* `json:"output,omitempty"` *)
}.
Definition zero : t := mk false None.
End UseResult.

Module authChallenge.
Record t := mk {
  Challenge : string      (* `json:"challenge"` *)
}.
Definition zero : t := mk "".
End authChallenge.

Module authResult.
Record t := mk {
  Authenticated : bool;   (* `json:"authenticated"`        *)
  SessionID : string      (* `json:"session_id,omitempty"` *)
}.
Definition zero : t := mk false "".
End authResult.

Module VaultError.
Record t := mk {
  Code : string;          (* `json:"code"`                 *)
  Message : string;       (* `json:"message"`              *)
  Detail : string;        (* `json:"detail,omitempty"`     *)
  Suggestion : string;    (* `json:"suggestion,omitempty"` *)
  DocsURL : string;       (* `json:"docs_url,omitempty"`   *)
  Context : RawMessage    (* `json:"context,omitempty"`    *)
}.
Definition zero : t := mk "" "" "" "" "" None.

(** The text between the message and the detail: a space, the eight
    bytes the source file has between the quotes, a space. *)
Definition separator : string :=
  String " " (String "195" (String "162" (String "226" (String "130"
    (String "172" (String "226" (String "128" (String "157"
      (String " " EmptyString))))))))).

(** [func (e *VaultError) Error() string] *)
Definition Error (e : t) : string :=
  let s := "[" ++ Code e ++ "] " ++ Message e in
  if String.eqb (Detail e) "" then s else s ++ separator ++ Detail e.
End VaultError.

Module ProtocolError.
Record t := mk {
  Message : string
}.
(** [func (e *ProtocolError) Error() string] *)
Definition Error (e : t) : string := "protocol error: " ++ Message e.
End ProtocolError.

(** Error codes returned by the vault (errors.go). *)
Definition ErrAuthFailed : string := "AUTH_FAILED".
Definition ErrAccessDenied : string := "ACCESS_DENIED".
Definition ErrCredentialNotFound : string := "CREDENTIAL_NOT_FOUND".
Definition ErrVaultLocked : string := "VAULT_LOCKED".
Definition ErrLeaseExpired : string := "LEASE_EXPIRED".
Definition ErrRateLimited : string := "RATE_LIMITED".
Definition ErrSessionExpired : string := "SESSION_EXPIRED".

(* ================================================================== *)
(** ** Go's [error] values, as far as the client produces them *)
(* ================================================================== *)

(** Errors of the transport: io.EOF, io.ErrUnexpectedEOF,
    os.ErrDeadlineExceeded, net.ErrClosed, and a failed dial. *)
Inductive io_error : Type :=
| EOF
| ErrUnexpectedEOF
| ErrDeadlineExceeded
| ErrClosed
| DialError (msg : string).

(** Errors of encoding/json. *)
Inductive json_error : Type :=
| SyntaxError (msg : string)
| UnmarshalTypeError (value : string) (field : string)
| UnsupportedTypeError (type : string).

(** Errors of encoding/hex. *)
Inductive hex_error : Type :=
| ErrLength
| InvalidByteError (b : ascii).

Inductive error : Type :=
| Wrap (context : string) (cause : error)   (* fmt.Errorf("context: %w", cause) *)
| Errorf (msg : string)                     (* fmt.Errorf(msg) *)
| EProtocol (e : ProtocolError.t)           (* *ProtocolError *)
| EVault (e : VaultError.t)                 (* *VaultError *)
| EIO (e : io_error)
| EJSON (e : json_error)
| EHex (e : hex_error).

(** A Go result pair [(T, error)] of which exactly one side is used. *)
Inductive result (A : Type) : Type :=
| Ok (a : A)
| Err (e : error).
Arguments Ok {A} a.
Arguments Err {A} e.

Definition is_Ok {A} (r : result A) : bool :=
  match r with Ok _ => true | Err _ => false end.

(** The three classes of failure of a call. *)
Definition is_ProtocolError (e : error) : bool :=
  match e with EProtocol _ => true | _ => false end.

Definition is_VaultError (e : error) : bool :=
  match e with EVault _ => true | _ => false end.

(* ================================================================== *)
(** ** encoding/json at the level of structs *)
(* ================================================================== *)

(** The byte level of encoding/json: printing a value and parsing a
    text.  The client only relies on the package through this interface. *)
Class EncodingJSON : Type := {
  json_print : json -> result bytes;
  json_parse : bytes -> result json
}.

(** A Go value handed to [json.Marshal] as [interface{}]: either one the
    package can encode, given by its JSON image, or one of an unsupported
    type (a channel, a function, a non-finite float). *)
Inductive any : Type :=
| Encodable (image : json)
| Unsupported (type : string).

(** [json.Marshal(v)] of an [interface{}] into a [json.RawMessage]. *)
Definition Marshal_any (v : any) : result RawMessage :=
  match v with
  | Encodable j => Ok (Some j)
  | Unsupported t => Err (EJSON (UnsupportedTypeError t))
  end.

Definition upper (c : ascii) : ascii :=
  let n := nat_of_ascii c in
  if (97 <=? n)%nat && (n <=? 122)%nat then ascii_of_nat (n - 32) else c.

(** [foldName] of encoding/json: the key under which a member is matched
    with a field when no field has exactly its name.  ASCII letters are
    upper-cased; of the other runes only U+017F and U+212A fold into
    ASCII (to S and K), all others stay outside it. *)
Fixpoint foldName (s : string) : string :=
  match s with
  | EmptyString => EmptyString
  | String c1 t1 =>
      match t1 with
      | String c2 t2 =>
          if Ascii.eqb c1 "197" && Ascii.eqb c2 "191"
          then String "S" (foldName t2)
          else
            match t2 with
            | String c3 t3 =>
                if Ascii.eqb c1 "226" && Ascii.eqb c2 "132" && Ascii.eqb c3 "170"
                then String "K" (foldName t3)
                else String (upper c1) (foldName t1)
            | EmptyString => String (upper c1) (foldName t1)
            end
      | EmptyString => String (upper c1) EmptyString
      end
  end.

(** Does the member named [key] go to the field tagged [name]? *)
Definition names (key name : string) : bool :=
  String.eqb (foldName key) (foldName name).

Definition kind (v : json) : string :=
  match v with
  | JNull => "null"
  | JBool _ => "bool"
  | JInt _ | JNumber _ => "number"
  | JString _ => "string"
  | JArray _ => "array"
  | JObject _ => "object"
  end.

Definition mismatch {A} (v : json) (field : string) : result A :=
  Err (EJSON (UnmarshalTypeError (kind v) field)).

(** Storing a JSON value into a field of the given Go type; [null] leaves
    a string, integer or boolean field as it was. *)
Definition into_string (field : string) (v : json) (old : string) : result string :=
  match v with
  | JString s => Ok s
  | JNull => Ok old
  | _ => mismatch v field
  end.

Definition into_uint64 (field : string) (v : json) (old : Z) : result Z :=
  match v with
  | JInt n => if ((0 <=? n) && (n <? uint64_max))%Z then Ok n else mismatch v field
  | JNull => Ok old
  | _ => mismatch v field
  end.

Definition into_bool (field : string) (v : json) (old : bool) : result bool :=
  match v with
  | JBool b => Ok b
  | JNull => Ok old
  | _ => mismatch v field
  end.

(** A [json.RawMessage] field takes the text of any value, [null] too. *)
Definition into_raw (v : json) : RawMessage := Some v.

(** The members of an object are stored in the order they are written;
    a later member for the same field overwrites an earlier one, and the
    first mismatch is the error of the whole decoding. *)
Fixpoint store_members {T} (set : string -> json -> T -> result T)
    (ms : list (string * json)) (acc : T) : result T :=
  match ms with
  | [] => Ok acc
  | (k, v) :: rest =>
      match set k v acc with
      | Ok acc' => store_members set rest acc'
      | Err e => Err e
      end
  end.

(** [json.Unmarshal(data, &x)] for a struct [x] that starts at its zero
    value, from the text held by [data]. *)
Definition Unmarshal_struct {T} (type : string)
    (set : string -> json -> T -> result T) (zero : T) (data : RawMessage) : result T :=
  match data with
  | None => Err (EJSON (SyntaxError "unexpected end of JSON input"))
  | Some JNull => Ok zero
  | Some (JObject ms) => store_members set ms zero
  | Some v => mismatch v type
  end.

Definition set_RpcResponse (k : string) (v : json) (r : RpcResponse.t) : result RpcResponse.t :=
  if names k "id" then
    match into_uint64 "id" v (RpcResponse.ID r) with
    | Ok n => Ok (RpcResponse.mk n (RpcResponse.Result r) (RpcResponse.Error r))
    | Err e => Err e
    end
  else if names k "result" then
    Ok (RpcResponse.mk (RpcResponse.ID r) (into_raw v) (RpcResponse.Error r))
  else if names k "error" then
    Ok (RpcResponse.mk (RpcResponse.ID r) (RpcResponse.Result r) (into_raw v))
  else Ok r.

Definition set_VaultError (k : string) (v : json) (e : VaultError.t) : result VaultError.t :=
  let '(VaultError.mk code message detail suggestion docs context) := e in
  if names k "code" then
    match into_string "code" v code with
    | Ok s => Ok (VaultError.mk s message detail suggestion docs context)
    | Err x => Err x
    end
  else if names k "message" then
    match into_string "message" v message with
    | Ok s => Ok (VaultError.mk code s detail suggestion docs context)
    | Err x => Err x
    end
  else if names k "detail" then
    match into_string "detail" v detail with
    | Ok s => Ok (VaultError.mk code message s suggestion docs context)
    | Err x => Err x
    end
  else if names k "suggestion" then
    match into_string "suggestion" v suggestion with
    | Ok s => Ok (VaultError.mk code message detail s docs context)
    | Err x => Err x
    end
  else if names k "docs_url" then
    match into_string "docs_url" v docs with
    | Ok s => Ok (VaultError.mk code message detail suggestion s context)
    | Err x => Err x
    end
  else if names k "context" then
    Ok (VaultError.mk code message detail suggestion docs (into_raw v))
  else Ok e.

Definition set_Credential (k : string) (v : json) (c : Credential.t) : result Credential.t :=
  let '(Credential.mk path value lease ttl) := c in
  if names k "path" then
    match into_string "path" v path with
    | Ok s => Ok (Credential.mk s value lease ttl)
    | Err x => Err x
    end
  else if names k "value" then
    Ok (Credential.mk path (into_raw v) lease ttl)
  else if names k "lease_id" then
    match into_string "lease_id" v lease with
    | Ok s => Ok (Credential.mk path value s ttl)
    | Err x => Err x
    end
  else if names k "ttl" then
    match into_uint64 "ttl" v ttl with
    | Ok n => Ok (Credential.mk path value lease n)
    | Err x => Err x
    end
  else Ok c.

Definition set_CredentialInfo (k : string) (v : json) (c : CredentialInfo.t)
  : result CredentialInfo.t :=
  let '(CredentialInfo.mk path type description) := c in
  if names k "path" then
    match into_string "path" v path with
    | Ok s => Ok (CredentialInfo.mk s type description)
    | Err x => Err x
    end
  else if names k "type" then
    match into_string "type" v type with
    | Ok s => Ok (CredentialInfo.mk path s description)
    | Err x => Err x
    end
  else if names k "description" then
    match into_string "description" v description with
    | Ok s => Ok (CredentialInfo.mk path type s)
    | Err x => Err x
    end
  else Ok c.

Definition set_UseResult (k : string) (v : json) (u : UseResult.t) : result UseResult.t :=
  if names k "success" then
    match into_bool "success" v (UseResult.Success u) with
    | Ok b => Ok (UseResult.mk b (UseResult.Output u))
    | Err x => Err x
    end
  else if names k "output" then
    Ok (UseResult.mk (UseResult.Success u) (into_raw v))
  else Ok u.

Definition set_authChallenge (k : string) (v : json) (c : authChallenge.t) : result authChallenge.t :=
  if names k "challenge" then
    match into_string "challenge" v (authChallenge.Challenge c) with
    | Ok s => Ok (authChallenge.mk s)
    | Err x => Err x
    end
  else Ok c.

Definition set_authResult (k : string) (v : json) (a : authResult.t) : result authResult.t :=
  if names k "authenticated" then
    match into_bool "authenticated" v (authResult.Authenticated a) with
    | Ok b => Ok (authResult.mk b (authResult.SessionID a))
    | Err x => Err x
    end
  else if names k "session_id" then
    match into_string "session_id" v (authResult.SessionID a) with
    | Ok s => Ok (authResult.mk (authResult.Authenticated a) s)
    | Err x => Err x
    end
  else Ok a.

Definition Unmarshal_RpcResponse : RawMessage -> result RpcResponse.t :=
  Unmarshal_struct "RpcResponse" set_RpcResponse RpcResponse.zero.
Definition Unmarshal_VaultError : RawMessage -> result VaultError.t :=
  Unmarshal_struct "VaultError" set_VaultError VaultError.zero.
Definition Unmarshal_Credential : RawMessage -> result Credential.t :=
  Unmarshal_struct "Credential" set_Credential Credential.zero.
Definition Unmarshal_UseResult : RawMessage -> result UseResult.t :=
  Unmarshal_struct "UseResult" set_UseResult UseResult.zero.

(** The elements of an array, each into a struct of its own. *)
Fixpoint store_items {T} (type : string) (set : string -> json -> T -> result T)
    (zero : T) (items : list json) : result (list T) :=
  match items with
  | [] => Ok []
  | v :: rest =>
      match Unmarshal_struct type set zero (Some v) with
      | Err e => Err e
      | Ok x =>
          match store_items type set zero rest with
          | Ok xs => Ok (x :: xs)
          | Err e => Err e
          end
      end
  end.

(** [json.Unmarshal(data, &creds)] for a [[]CredentialInfo] that starts
    nil. *)
Definition Unmarshal_CredentialInfos (data : RawMessage) : result (list CredentialInfo.t) :=
  match data with
  | None => Err (EJSON (SyntaxError "unexpected end of JSON input"))
  | Some JNull => Ok []
  | Some (JArray items) =>
      store_items "CredentialInfo" set_CredentialInfo CredentialInfo.zero items
  | Some v => mismatch v "[]CredentialInfo"
  end.

Definition Unmarshal_authChallenge : RawMessage -> result authChallenge.t :=
  Unmarshal_struct "authChallenge" set_authChallenge authChallenge.zero.
Definition Unmarshal_authResult : RawMessage -> result authResult.t :=
  Unmarshal_struct "authResult" set_authResult authResult.zero.

(** The JSON image of a request: its three fields in declaration order,
    a nil [Params] printed as [null]. *)
Definition request_json (req : RpcRequest.t) : json :=
  JObject [ ("id", JInt (RpcRequest.ID req));
            ("method", JString (RpcRequest.Method req));
            ("params", match RpcRequest.Params req with
                       | Some p => p
                       | None => JNull
                       end) ].

(* ================================================================== *)
(** ** The transport: one [net.Conn] *)
(* ================================================================== *)

(** The connection as the client sees it.  [inbound] is what the peer
    sends from now on, in order, until it closes its side; [outbound] is
    what has been written to the peer.  [deadline] is the value of the
    last [SetDeadline] ([None] for the zero [time.Time]: no deadline) and
    [now] the time at which the connection is used: I/O with a deadline
    that has passed fails at once.  *)
Record Conn : Type := mkConn {
  inbound : bytes;
  outbound : bytes;
  deadline : option Z;
  now : Z;
  closed : bool
}.

(** A step on the connection: a result and the connection afterwards. *)
Definition IO (A : Type) : Type := Conn -> result A * Conn.

Definition expired (c : Conn) : bool :=
  match deadline c with
  | Some d => (d <=? now c)%Z
  | None => false
  end.

(** [conn.SetDeadline(t)] *)
Definition SetDeadline (t : option Z) : IO unit := fun c =>
  if closed c then (Err (EIO ErrClosed), c)
  else (Ok tt, mkConn (inbound c) (outbound c) t (now c) (closed c)).

(** [conn.Write(p)] *)
Definition Write (p : bytes) : IO unit := fun c =>
  if closed c then (Err (EIO ErrClosed), c)
  else if expired c then (Err (EIO ErrDeadlineExceeded), c)
  else (Ok tt, mkConn (inbound c) (outbound c ++ p)%list (deadline c) (now c) (closed c)).

(** [io.ReadFull(conn, buf)] with [len(buf) = n]: exactly [n] bytes, or
    an error: [io.EOF] when the stream ends before the first byte,
    [io.ErrUnexpectedEOF] when it ends after some.  An empty buffer is
    filled without touching the connection. *)
Definition ReadFull (n : nat) : IO bytes := fun c =>
  match n with
  | O => (Ok [], c)
  | S _ =>
      if closed c then (Err (EIO ErrClosed), c)
      else if expired c then (Err (EIO ErrDeadlineExceeded), c)
      else if (n <=? List.length (inbound c))%nat
      then (Ok (firstn n (inbound c)),
            mkConn (skipn n (inbound c)) (outbound c) (deadline c) (now c) (closed c))
      else (Err (EIO match inbound c with [] => EOF | _ :: _ => ErrUnexpectedEOF end),
            mkConn [] (outbound c) (deadline c) (now c) (closed c))
  end.

(** [conn.Close()] *)
Definition Close_conn : IO unit := fun c =>
  if closed c then (Err (EIO ErrClosed), c)
  else (Ok tt, mkConn (inbound c) (outbound c) (deadline c) (now c) true).

(** [binary.Write(w, binary.BigEndian, v)] for a [uint32]: one write of
    four bytes. *)
Definition binary_Write (v : Z) : IO unit := Write (PutUint32 v).

(** [binary.Read(r, binary.BigEndian, &v)] for a [uint32]. *)
Definition binary_Read : IO Z := fun r =>
  match ReadFull 4 r with
  | (Ok b, r') => (Ok (Uint32 b), r')
  | (Err e, r') => (Err e, r')
  end.

(* ================================================================== *)
(** ** The frame codec *)
(* ================================================================== *)

Definition maxFrameSize : Z := 16 * 1024 * 1024.

Section Codec.
Context {JSON : EncodingJSON}.

(** [json.Marshal(req)] for a [*RpcRequest]. *)
Definition Marshal_RpcRequest (req : RpcRequest.t) : result bytes :=
  json_print (request_json req).

(** [json.Unmarshal(payload, &resp)] for an [RpcResponse]. *)
Definition Unmarshal_payload (payload : bytes) : result RpcResponse.t :=
  match json_parse payload with
  | Ok j => Unmarshal_RpcResponse (Some j)
  | Err e => Err e
  end.

(** [writeFrame] writes a length-prefixed JSON-RPC request. *)
Definition writeFrame (req : RpcRequest.t) : IO unit := fun w =>
  match Marshal_RpcRequest req with
  | Err e => (Err (Wrap "marshal request" e), w)
  | Ok payload =>
      let length := uint32 (len payload) in
      match binary_Write length w with
      | (Err e, w1) => (Err (Wrap "write length" e), w1)
      | (Ok _, w1) =>
          match Write payload w1 with
          | (Err e, w2) => (Err (Wrap "write payload" e), w2)
          | (Ok _, w2) => (Ok tt, w2)
          end
      end
  end.

(** [readFrame] reads a length-prefixed JSON-RPC response. *)
Definition readFrame : IO RpcResponse.t := fun r =>
  match binary_Read r with
  | (Err e, r1) => (Err (Wrap "read length" e), r1)
  | (Ok length, r1) =>
      if (length >? maxFrameSize)%Z
      then (Err (EProtocol (ProtocolError.mk
                   ("frame too large: " ++ decimal length ++ " bytes"))), r1)
      else
        match ReadFull (Z.to_nat length) r1 with
        | (Err e, r2) => (Err (Wrap "read payload" e), r2)
        | (Ok payload, r2) =>
            match Unmarshal_payload payload with
            | Err e => (Err (Wrap "unmarshal response" e), r2)
            | Ok resp => (Ok resp, r2)
            end
        end
  end.

End Codec.

(* ================================================================== *)
(** ** The client *)
(* ================================================================== *)

(** [context.Context], as far as a call can observe it: the deadline it
    carries, and whether it is done (cancelled, or past its deadline) by
    the time the call holds the connection. *)
Record Context : Type := mkContext {
  Deadline : option Z;
  Done : bool
}.

(** [context.Background()] *)
Definition Background : Context := mkContext None false.

(** The client: its connection and its request counter.  The mutex [mu]
    has no state between calls: a call takes it after building its
    request and releases it on return, so calls run one after the
    other. *)
Record Client : Type := mkClient {
  conn : Conn;
  nextID : Z       (* atomic.Uint64 *)
}.



(** [(c *Client) Close()] *)
Definition Close (c : Client) : result unit * Client :=
  let (r, k) := Close_conn (conn c) in (r, mkClient k (nextID c)).

(** [c.nextID.Add(1) - 1]: the counter moves on by one, and the value
    it had is the id. *)
Definition takeID (c : Client) : Z * Client :=
  let added := uint64 (nextID c + 1) in
  (uint64 (added - 1), mkClient (conn c) added).

(** The request a call builds from its marshalled parameters. *)
Definition newRequest (method : string) (paramsBytes : RawMessage) (c : Client)
  : RpcRequest.t * Client :=
  let (id, c') := takeID c in
  (RpcRequest.mk id method paramsBytes, c').

Section Dispatcher.
Context {JSON : EncodingJSON}.

(** The end of [call], once a response frame has been read. *)
Definition deliver (resp : RpcResponse.t) : result RawMessage :=
  match RpcResponse.Error resp with
  | Some _ =>
      match Unmarshal_VaultError (RpcResponse.Error resp) with
      | Err _ => Err (EProtocol (ProtocolError.mk "failed to parse error response"))
      | Ok vaultErr => Err (EVault vaultErr)
      end
  | None => Ok (RpcResponse.Result resp)
  end.

(** The exchange of [call]: write the request frame, read one response
    frame, deliver it. *)
Definition exchange (req : RpcRequest.t) : IO RawMessage := fun k =>
  match writeFrame req k with
  | (Err e, k1) => (Err e, k1)
  | (Ok _, k1) =>
      match readFrame k1 with
      | (Err e, k2) => (Err e, k2)
      | (Ok resp, k2) => (deliver resp, k2)
      end
  end.

(** [(c *Client) call(ctx, method, params)] *)
Definition call (ctx : Context) (method : string) (params : any) (c : Client)
  : result RawMessage * Client :=
  match Marshal_any params with
  | Err e => (Err (Wrap "marshal params" e), c)
  | Ok paramsBytes =>
      let (req, c) := newRequest method paramsBytes c in
      (* c.mu.Lock(); defer c.mu.Unlock() *)
      match Deadline ctx with
      | Some deadline =>
          match SetDeadline (Some deadline) (conn c) with
          | (Err e, k) => (Err e, mkClient k (nextID c))
          | (Ok _, k) =>
              let (r, k') := exchange req k in
              (* defer c.conn.SetDeadline(time.Time{}) *)
              (r, mkClient (snd (SetDeadline None k')) (nextID c))
          end
      | None =>
          let (r, k') := exchange req (conn c) in
          (r, mkClient k' (nextID c))
      end
  end.

End Dispatcher.

(* ================================================================== *)
(** ** encoding/hex and crypto/ed25519 *)
(* ================================================================== *)

Definition fromHexChar (c : ascii) : option Z :=
  let n := Z.of_nat (nat_of_ascii c) in
  if ((48 <=? n) && (n <=? 57))%Z then Some (n - 48)%Z
  else if ((97 <=? n) && (n <=? 102))%Z then Some (n - 97 + 10)%Z
  else if ((65 <=? n) && (n <=? 70))%Z then Some (n - 65 + 10)%Z
  else None.

(** [hex.DecodeString]: pairs of hexadecimal digits; the first
    character that is not one is reported, then an odd length. *)
Fixpoint hex_DecodeString (s : string) : result bytes :=
  match s with
  | EmptyString => Ok []
  | String p EmptyString =>
      match fromHexChar p with
      | None => Err (EHex (InvalidByteError p))
      | Some _ => Err (EHex ErrLength)
      end
  | String p (String q rest) =>
      match fromHexChar p with
      | None => Err (EHex (InvalidByteError p))
      | Some a =>
          match fromHexChar q with
          | None => Err (EHex (InvalidByteError q))
          | Some b =>
              match hex_DecodeString rest with
              | Ok bs => Ok (byte_of_Z (Z.lor (Z.shiftl a 4) b) :: bs)
              | Err e => Err e
              end
          end
      end
  end.

Definition hexdigit (n : Z) : ascii :=
  ascii_of_nat (Z.to_nat (if (n <? 10)%Z then 48 + n else 97 + (n - 10)))%Z.

(** [hex.EncodeToString] *)
Fixpoint hex_EncodeToString (b : bytes) : string :=
  match b with
  | [] => EmptyString
  | x :: rest =>
      String (hexdigit (Z.shiftr (Z_of_byte x) 4))
        (String (hexdigit (Z.land (Z_of_byte x) 15)) (hex_EncodeToString rest))
  end.

(** What a call of a Go function comes to: it returns, or it panics. *)
Inductive outcome (A : Type) : Type :=
| Returns (a : A)
| Panics (msg : string).
Arguments Returns {A} a.
Arguments Panics {A} msg.

(** [ed25519.PrivateKeySize] *)
Definition PrivateKeySize : nat := 64.

(** The signature scheme of crypto/ed25519: the signature of a message
    under a private key of [PrivateKeySize] bytes. *)
Class Ed25519 : Type := {
  signature_of : bytes -> bytes -> bytes
}.

(** [ed25519.Sign(privateKey, message)]; it panics on a key of any
    other length. *)
Definition ed25519_Sign {ED : Ed25519} (privateKey message : bytes) : outcome bytes :=
  if (List.length privateKey =? PrivateKeySize)%nat
  then Returns (signature_of privateKey message)
  else Panics ("ed25519: bad private key length: " ++ decimal (len privateKey)).

(* ================================================================== *)
(** ** Authentication and the credential calls *)
(* ================================================================== *)

Section Operations.
Context {JSON : EncodingJSON} {ED : Ed25519}.

(** [(c *Client) Authenticate(ctx, agentName, privateKey)]; what it
    returns is the Go [error], [None] for [nil]. *)
Definition Authenticate (ctx : Context) (agentName : string) (privateKey : bytes)
    (c : Client) : outcome (option error) * Client :=
  (* Step 1: request challenge *)
  match call ctx "auth.challenge"
          (Encodable (JObject [("agent", JString agentName)])) c with
  | (Err e, c1) => (Returns (Some (Wrap "auth challenge" e)), c1)
  | (Ok result, c1) =>
      match Unmarshal_authChallenge result with
      | Err e => (Returns (Some (Wrap "parse challenge" e)), c1)
      | Ok challenge =>
          (* Step 2: sign challenge *)
          match hex_DecodeString (authChallenge.Challenge challenge) with
          | Err e => (Returns (Some (Wrap "decode challenge hex" e)), c1)
          | Ok challengeBytes =>
              match ed25519_Sign privateKey challengeBytes with
              | Panics msg => (Panics msg, c1)
              | Returns signature =>
                  (* Step 3: submit signature *)
                  match call ctx "auth.verify"
                          (Encodable (JObject
                             [("agent", JString agentName);
                              ("signature", JString (hex_EncodeToString signature))])) c1 with
                  | (Err e, c2) => (Returns (Some (Wrap "auth verify" e)), c2)
                  | (Ok verifyResult, c2) =>
                      match Unmarshal_authResult verifyResult with
                      | Err e => (Returns (Some (Wrap "parse auth result" e)), c2)
                      | Ok auth =>
                          if negb (authResult.Authenticated auth)
                          then (Returns (Some (Errorf "authentication rejected by server")), c2)
                          else (Returns None, c2)
                      end
                  end
              end
          end
      end
  end.

(** [(c *Client) Retrieve(ctx, path, ttl)] *)
Definition Retrieve (ctx : Context) (path : string) (ttl : Z) (c : Client)
  : result Credential.t * Client :=
  match call ctx "credential.retrieve"
          (Encodable (JObject [("path", JString path); ("ttl", JInt ttl)])) c with
  | (Err e, c1) => (Err e, c1)
  | (Ok result, c1) =>
      match Unmarshal_Credential result with
      | Err e => (Err (Wrap "parse credential" e), c1)
      | Ok cred => (Ok cred, c1)
      end
  end.

(** [(c *Client) List(ctx)] *)
Definition List (ctx : Context) (c : Client) : result (list CredentialInfo.t) * Client :=
  match call ctx "credential.list" (Encodable (JObject [])) c with
  | (Err e, c1) => (Err e, c1)
  | (Ok result, c1) =>
      match Unmarshal_CredentialInfos result with
      | Err e => (Err (Wrap "parse credential list" e), c1)
      | Ok creds => (Ok creds, c1)
      end
  end.

(** [(c *Client) Use(ctx, path, operation, params)]; the members of the
    parameter map are marshalled in the order of their keys. *)
Definition Use (ctx : Context) (path operation : string) (params : any) (c : Client)
  : result UseResult.t * Client :=
  match call ctx "credential.use"
          match params with
          | Encodable p =>
              Encodable (JObject [("operation", JString operation);
                                  ("params", p);
                                  ("path", JString path)])
          | Unsupported t => Unsupported t
          end c with
  | (Err e, c1) => (Err e, c1)
  | (Ok result, c1) =>
      match Unmarshal_UseResult result with
      | Err e => (Err (Wrap "parse use result" e), c1)
      | Ok ur => (Ok ur, c1)
      end
  end.

(** [(c *Client) ReleaseLease(ctx, leaseID)] *)
Definition ReleaseLease (ctx : Context) (leaseID : string) (c : Client)
  : option error * Client :=
  match call ctx "lease.release"
          (Encodable (JObject [("lease_id", JString leaseID)])) c with
  | (Err e, c1) => (Some e, c1)
  | (Ok _, c1) => (None, c1)
  end.

End Operations.

(* ================================================================== *)
(** ** A reference instance of the imported packages *)
(* ================================================================== *)

(** A printer and a parser of JSON texts that the examples run on: the
    compact form encoding/json prints, and the JSON grammar on input,
    with [\u] escapes limited to the Basic Multilingual Plane outside
    the surrogates.  The properties of the client below hold for every
    instance of the interface; this one makes them executable. *)
Module Reference.

Definition code (c : ascii) : Z := Z.of_nat (nat_of_ascii c).
Definition char (n : Z) : ascii := ascii_of_nat (Z.to_nat n).

(** The quotation mark, as a string. *)
Definition dquote : string := String "034" EmptyString.

(** A JSON text written with apostrophes for its quotation marks. *)
Fixpoint text_of (s : string) : string :=
  match s with
  | EmptyString => EmptyString
  | String c r => String (if Ascii.eqb c "039" then "034"%char else c) (text_of r)
  end.

Definition hex4 (n : Z) : string :=
  String (hexdigit (Z.land (Z.shiftr n 12) 15))
    (String (hexdigit (Z.land (Z.shiftr n 8) 15))
       (String (hexdigit (Z.land (Z.shiftr n 4) 15))
          (String (hexdigit (Z.land n 15)) EmptyString))).

(** The escapes of [json.Marshal]: quote, backslash, control characters,
    and the three characters that matter inside HTML. *)
Fixpoint escape (s : string) : string :=
  match s with
  | EmptyString => EmptyString
  | String c rest =>
      let n := code c in
      (if (n =? 34)%Z then "\" ++ dquote
       else if (n =? 92)%Z then "\\"
       else if (n =? 10)%Z then "\n"
       else if (n =? 13)%Z then "\r"
       else if (n =? 9)%Z then "\t"
       else if ((n <? 32) || (n =? 60) || (n =? 62) || (n =? 38))%Z then "\u" ++ hex4 n
       else String c EmptyString) ++ escape rest
  end.

Definition quote (s : string) : string := dquote ++ escape s ++ dquote.

Fixpoint print (j : json) : string :=
  match j with
  | JNull => "null"
  | JBool true => "true"
  | JBool false => "false"
  | JInt n => if (n <? 0)%Z then "-" ++ decimal (- n) else decimal n
  | JNumber lit => lit
  | JString s => quote s
  | JArray items =>
      "[" ++ (fix items_of (l : list json) : string :=
                match l with
                | [] => ""
                | x :: r =>
                    print x ++ match r with [] => "" | _ :: _ => "," ++ items_of r end
                end) items ++ "]"
  | JObject members =>
      "{" ++ (fix members_of (l : list (string * json)) : string :=
                match l with
                | [] => ""
                | (k, v) :: r =>
                    quote k ++ ":" ++ print v
                      ++ match r with [] => "" | _ :: _ => "," ++ members_of r end
                end) members ++ "}"
  end.

Definition is_ws (c : ascii) : bool :=
  let n := code c in ((n =? 32) || (n =? 9) || (n =? 10) || (n =? 13))%Z.

Definition is_digit (c : ascii) : bool :=
  let n := code c in ((48 <=? n) && (n <=? 57))%Z.

Fixpoint skip_ws (s : string) : string :=
  match s with
  | String c r => if is_ws c then skip_ws r else s
  | EmptyString => s
  end.

Fixpoint strip (p s : string) : option string :=
  match p, s with
  | EmptyString, _ => Some s
  | String a p', String b s' => if Ascii.eqb a b then strip p' s' else None
  | String _ _, EmptyString => None
  end.

Fixpoint digits (s : string) : string * string :=
  match s with
  | String c r =>
      if is_digit c then let (d, r') := digits r in (String c d, r') else (EmptyString, s)
  | EmptyString => (EmptyString, s)
  end.

Fixpoint value_of (d : string) (acc : Z) : Z :=
  match d with
  | String c r => value_of r (10 * acc + (code c - 48))%Z
  | EmptyString => acc
  end.

Definition leading_zero (d : string) : bool :=
  match d with
  | String c (String _ _) => (code c =? 48)%Z
  | _ => false
  end.

(** A number literal: sign, integer part, fraction, exponent. *)
Definition number (s : string) : option (json * string) :=
  let (sign, s1) := match strip "-" s with Some r => ("-", r) | None => ("", s) end in
  let (int, s2) := digits s1 in
  if String.eqb int "" || leading_zero int then None
  else
    let frac :=
      match strip "." s2 with
      | Some r =>
          let (f, r') := digits r in
          if String.eqb f "" then None else Some ("." ++ f, r')
      | None => Some ("", s2)
      end in
    match frac with
    | None => None
    | Some (f, s3) =>
        let exp :=
          match s3 with
          | String e r =>
              if ((code e =? 101) || (code e =? 69))%Z then
                let (sg, r1) :=
                  match r with
                  | String g r0 =>
                      if ((code g =? 43) || (code g =? 45))%Z
                      then (String g EmptyString, r0) else ("", r)
                  | EmptyString => ("", r)
                  end in
                let (x, r2) := digits r1 in
                if String.eqb x "" then None else Some (String e sg ++ x, r2)
              else Some ("", s3)
          | EmptyString => Some ("", s3)
          end in
        match exp with
        | None => None
        | Some (x, s4) =>
            if String.eqb f "" && String.eqb x ""
               && negb (String.eqb sign "-" && String.eqb int "0")
            then Some (JInt (if String.eqb sign "-" then - value_of int 0 else value_of int 0), s4)
            else Some (JNumber (sign ++ int ++ f ++ x), s4)
        end
    end.

(** UTF-8 of a code point of the Basic Multilingual Plane. *)
Definition utf8 (n : Z) : string :=
  if (n <? 128)%Z then String (char n) EmptyString
  else if (n <? 2048)%Z then
    String (char (Z.lor 192 (Z.shiftr n 6)))
      (String (char (Z.lor 128 (Z.land n 63))) EmptyString)
  else
    String (char (Z.lor 224 (Z.shiftr n 12)))
      (String (char (Z.lor 128 (Z.land (Z.shiftr n 6) 63)))
         (String (char (Z.lor 128 (Z.land n 63))) EmptyString)).

(** The text of a string literal after its opening quote. *)
Fixpoint text (s : string) : option (string * string) :=
  match s with
  | EmptyString => None
  | String c r =>
      let n := code c in
      if (n =? 34)%Z then Some (EmptyString, r)
      else if (n <? 32)%Z then None
      else if (n =? 92)%Z then
        match r with
        | String e r1 =>
            let m := code e in
            let plain (x : Z) :=
              match text r1 with
              | Some (t, r') => Some (String (char x) t, r')
              | None => None
              end in
            if (m =? 34)%Z then plain 34%Z
            else if (m =? 92)%Z then plain 92%Z
            else if (m =? 47)%Z then plain 47%Z
            else if (m =? 98)%Z then plain 8%Z
            else if (m =? 102)%Z then plain 12%Z
            else if (m =? 110)%Z then plain 10%Z
            else if (m =? 114)%Z then plain 13%Z
            else if (m =? 116)%Z then plain 9%Z
            else if (m =? 117)%Z then
              match r1 with
              | String h1 (String h2 (String h3 (String h4 r2))) =>
                  match fromHexChar h1, fromHexChar h2, fromHexChar h3, fromHexChar h4 with
                  | Some a, Some b, Some c', Some d =>
                      let u := (((a * 16 + b) * 16 + c') * 16 + d)%Z in
                      if ((55296 <=? u) && (u <=? 57343))%Z then None
                      else
                        match text r2 with
                        | Some (t, r') => Some (utf8 u ++ t, r')
                        | None => None
                        end
                  | _, _, _, _ => None
                  end
              | _ => None
              end
            else None
        | EmptyString => None
        end
      else
        match text r with
        | Some (t, r') => Some (String c t, r')
        | None => None
        end
  end.

Fixpoint value (fuel : nat) (s : string) : option (json * string) :=
  match fuel with
  | O => None
  | S fuel' =>
      let s := skip_ws s in
      match s with
      | EmptyString => None
      | String c r =>
          let n := code c in
          if (n =? 110)%Z then option_map (pair JNull) (strip "null" s)
          else if (n =? 116)%Z then option_map (pair (JBool true)) (strip "true" s)
          else if (n =? 102)%Z then option_map (pair (JBool false)) (strip "false" s)
          else if (n =? 34)%Z then
            match text r with
            | Some (t, r') => Some (JString t, r')
            | None => None
            end
          else if (n =? 91)%Z then
            match strip "]" (skip_ws r) with
            | Some r' => Some (JArray [], r')
            | None =>
                match items fuel' r with
                | Some (l, r') => Some (JArray l, r')
                | None => None
                end
            end
          else if (n =? 123)%Z then
            match strip "}" (skip_ws r) with
            | Some r' => Some (JObject [], r')
            | None =>
                match members fuel' r with
                | Some (l, r') => Some (JObject l, r')
                | None => None
                end
            end
          else number s
      end
  end

with items (fuel : nat) (s : string) : option (list json * string) :=
  match fuel with
  | O => None
  | S fuel' =>
      match value fuel' s with
      | None => None
      | Some (v, r) =>
          match skip_ws r with
          | String c r' =>
              if (code c =? 44)%Z then
                match items fuel' r' with
                | Some (l, r'') => Some (v :: l, r'')
                | None => None
                end
              else if (code c =? 93)%Z then Some ([v], r')
              else None
          | EmptyString => None
          end
      end
  end

with members (fuel : nat) (s : string) : option (list (string * json) * string) :=
  match fuel with
  | O => None
  | S fuel' =>
      match strip dquote (skip_ws s) with
      | None => None
      | Some r0 =>
          match text r0 with
          | None => None
          | Some (k, r1) =>
              match strip ":" (skip_ws r1) with
              | None => None
              | Some r2 =>
                  match value fuel' r2 with
                  | None => None
                  | Some (v, r3) =>
                      match skip_ws r3 with
                      | String c r' =>
                          if (code c =? 44)%Z then
                            match members fuel' r' with
                            | Some (l, r'') => Some ((k, v) :: l, r'')
                            | None => None
                            end
                          else if (code c =? 125)%Z then Some ([(k, v)], r')
                          else None
                      | EmptyString => None
                      end
                  end
              end
          end
      end
  end.

Definition parse (b : bytes) : result json :=
  match b with
  | [] => Err (EJSON (SyntaxError "unexpected end of JSON input"))
  | _ :: _ =>
      match value (2 * (List.length b) + 2) (string_of_list_byte b) with
      | Some (j, rest) =>
          if String.eqb (skip_ws rest) "" then Ok j
          else Err (EJSON (SyntaxError "invalid character after top-level value"))
      | None => Err (EJSON (SyntaxError "invalid character"))
      end
  end.

#[export] Instance package : EncodingJSON := {
  json_print j := Ok (list_byte_of_string (print j));
  json_parse := parse
}.

(** A stand-in signer for running the handshake: it returns a constant
    of the size of a signature (ed25519.SignatureSize). *)
#[export] Instance signer : Ed25519 := {
  signature_of _ _ := repeat x00 64
}.

(** The frame a peer sends for a JSON text (written with apostrophes). *)
Definition frame (text : string) : bytes :=
  let payload := list_byte_of_string (text_of text) in
  (PutUint32 (len payload) ++ payload)%list.

(** A private key for the examples: any [PrivateKeySize] bytes. *)
Definition key : bytes := repeat x2a PrivateKeySize.

(** A connection on which the peer has sent [input]. *)
Definition connected (input : bytes) : Conn := mkConn input [] None 0 false.


End Reference.

(* ================================================================== *)
(** ** Vocabulary of the statements *)
(* ================================================================== *)

(** A connection on which I/O goes through: open, and no deadline that
    has passed. *)
Definition usable (k : Conn) : Prop :=
  closed k = false /\ expired k = false.

(** A connection on which the I/O of a call under [ctx] goes through. *)
Definition ready (ctx : Context) (k : Conn) : Prop :=
  closed k = false /\
  match Deadline ctx with
  | Some d => (now k < d)%Z
  | None => expired k = false
  end.

(** The connection after [p] has been written to it. *)
Definition sent (p : bytes) (k : Conn) : Conn :=
  mkConn (inbound k) (outbound k ++ p)%list (deadline k) (now k) (closed k).

(** The connection with [rest] left to read. *)
Definition left (rest : bytes) (k : Conn) : Conn :=
  mkConn rest (outbound k) (deadline k) (now k) (closed k).

(** The connection with its deadline cleared. *)
Definition cleared (k : Conn) : Conn :=
  mkConn (inbound k) (outbound k) None (now k) (closed k).

(** The client a call leaves behind when its exchange went through. *)
Definition served (ctx : Context) (bytes rest : bytes) (c : Client) : Client :=
  mkClient
    (mkConn rest (outbound (conn c) ++ PutUint32 (uint32 (len bytes)) ++ bytes)%list
       (match Deadline ctx with
        | Some _ => None
        | None => deadline (conn c)
        end)
       (now (conn c)) false)
    (uint64 (nextID c + 1)).

(** A frame as the wire protocol defines it: the length of the payload
    as four big-endian bytes, then the payload. *)
Definition frame_of (payload : bytes) : bytes :=
  (PutUint32 (len payload) ++ payload)%list.

(** The JSON image of a response: [id], then [result] and [error] unless
    empty (their tags say [omitempty]). *)
Definition response_json (resp : RpcResponse.t) : json :=
  JObject (("id", JInt (RpcResponse.ID resp))
           :: match RpcResponse.Result resp with
              | Some v => [("result", v)]
              | None => []
              end
           ++ match RpcResponse.Error resp with
              | Some v => [("error", v)]
              | None => []
              end)%list.

(** What a sequence of operations on one client does: each input is the
    context, method and parameters of one [call]. *)
Definition input : Type := Context * string * any.

Section Sequences.
Context {JSON : EncodingJSON}.



End Sequences.



(** Valid hexadecimal text: an even number of hexadecimal digits. *)
Fixpoint all_hex (s : string) : bool :=
  match s with
  | EmptyString => true
  | String c r =>
      match fromHexChar c with
      | Some _ => all_hex r
      | None => false
      end
  end.

Definition valid_hex (s : string) : bool :=
  Nat.even (String.length s) && all_hex s.

(** The members of an object that go to the field tagged [name], the
    last one first. *)
Definition named (name : string) (ms : list (string * json)) : list json :=
  map snd (filter (fun kv => names (fst kv) name) (rev ms)).

Definition is_null (v : json) : bool :=
  match v with JNull => true | _ => false end.

(** What an object sends for a field: the last member with its name
    that is not [null]. *)
Definition sends (name : string) (ms : list (string * json)) : option json :=
  find (fun v => negb (is_null v)) (named name ms).

(** Reading a JSON value as a Go string, unsigned 64-bit integer or
    boolean. *)
Definition as_string (v : json) : option string :=
  match v with JString s => Some s | _ => None end.

Definition as_uint64 (v : json) : option Z :=
  match v with
  | JInt n => if ((0 <=? n) && (n <? uint64_max))%Z then Some n else None
  | _ => None
  end.

Definition as_bool (v : json) : option bool :=
  match v with JBool b => Some b | _ => None end.

(** The value an object sends for a field of a Go type read by [as_A],
    [dflt] when it sends none. *)
Definition value_sent {A} (as_A : json -> option A) (name : string) (dflt : A)
    (ms : list (string * json)) : A :=
  match sends name ms with
  | Some v => match as_A v with Some a => a | None => dflt end
  | None => dflt
  end.

Definition string_sent := value_sent as_string.
Definition uint_sent := value_sent as_uint64.
Definition bool_sent := value_sent as_bool.

(** The raw value an object sends for a field: its last member with
    that name, [null] included. *)
Definition raw_sent (name : string) (dflt : RawMessage) (ms : list (string * json)) : RawMessage :=
  match named name ms with
  | v :: _ => Some v
  | [] => dflt
  end.

(** Every member that goes to the field [name] is [null] or has a value
    of the Go type read by [as_A]. *)
Definition typed {A} (as_A : json -> option A) (name : string)
    (ms : list (string * json)) : Prop :=
  forall k v, In (k, v) ms -> names k name = true ->
    v = JNull \/ exists a, as_A v = Some a.

(** An error payload in the shape of the wire protocol: what it sends
    for [code], [message], [detail], [suggestion] and [docs_url] are
    strings. *)
Definition error_shaped (ms : list (string * json)) : Prop :=
  typed as_string "code" ms /\ typed as_string "message" ms /\
  typed as_string "detail" ms /\ typed as_string "suggestion" ms /\
  typed as_string "docs_url" ms.

(** A credential in the shape of the wire protocol. *)
Definition credential_shaped (ms : list (string * json)) : Prop :=
  typed as_string "path" ms /\ typed as_string "lease_id" ms /\
  typed as_uint64 "ttl" ms.

(** The result of [auth.verify] in the shape of the wire protocol. *)
Definition verdict_shaped (ms : list (string * json)) : Prop :=
  typed as_bool "authenticated" ms /\ typed as_string "session_id" ms.

(** The two calls of the handshake. *)
Definition challengeCall {JSON : EncodingJSON} (ctx : Context) (agentName : string)
    (c : Client) : result RawMessage * Client :=
  call ctx "auth.challenge" (Encodable (JObject [("agent", JString agentName)])) c.

Definition verifyCall {JSON : EncodingJSON} (ctx : Context) (agentName : string)
    (signature : bytes) (c : Client) : result RawMessage * Client :=
  call ctx "auth.verify"
    (Encodable (JObject [("agent", JString agentName);
                         ("signature", JString (hex_EncodeToString signature))])) c.

(** The members a raw message sends: those of the object it holds;
    [null], like any other value, sends none. *)
Definition members (v : RawMessage) : list (string * json) :=
  match v with
  | Some (JObject ms) => ms
  | _ => []
  end.

(* ================================================================== *)
(** ** The cgo bindings of the vault library *)
(* ================================================================== *)

(** The Go side of the bindings (errors.go, and the [Vault] type with
    its methods).  The C library behind sanctum.h is taken as an
    interface: its functions act on a world [W] that the bindings only
    pass along.  A Go string handed to C goes as it is. *)
Module Bindings.

(** The result codes that the Go sources name; a [C.SanctumResult] is an
    integer. *)
Class Header : Type := {
  OK : Z;
  NULL_POINTER : Z;
  INVALID_UTF8 : Z;
  NOT_INITIALIZED : Z;
  ACCESS_DENIED : Z;
  NOT_FOUND : Z;
  CRYPTO_ERROR : Z;
  BUFFER_TOO_SMALL : Z;
  JSON_ERROR : Z;
  PANIC : Z
}.

(** The error values of the package, each made once by [errors.New] and
    told from the others by identity. *)
Inductive sentinel : Type :=
| ErrNullPointer
| ErrInvalidUTF8
| ErrNotInitialized
| ErrAccessDenied
| ErrNotFound
| ErrCrypto
| ErrBufferTooSmall
| ErrJSON
| ErrPanic
| ErrUnknown.

Definition text (s : sentinel) : string :=
  match s with
  | ErrNullPointer => "sanctum: null pointer"
  | ErrInvalidUTF8 => "sanctum: invalid UTF-8"
  | ErrNotInitialized => "sanctum: vault not initialized"
  | ErrAccessDenied => "sanctum: access denied"
  | ErrNotFound => "sanctum: credential not found"
  | ErrCrypto => "sanctum: cryptographic error"
  | ErrBufferTooSmall => "sanctum: buffer too small"
  | ErrJSON => "sanctum: JSON error"
  | ErrPanic => "sanctum: panic caught at FFI boundary"
  | ErrUnknown => "sanctum: unknown error"
  end.

(** A Go [error] of the bindings: one of the values above, or a fresh
    value made by [errors.New] or [fmt.Errorf] on the spot. *)
Inductive error : Type :=
| Sentinel (s : sentinel)
| New (msg : string).

(** [%d] of fmt for an integer. *)
Definition fmt_d (v : Z) : string :=
  if (v <? 0)%Z then "-" ++ decimal (- v) else decimal v.

(** [resultToError] converts a result code to a Go error; [None] is
    [nil]. *)
Definition resultToError {H : Header} (code : Z) : option error :=
  if (code =? OK)%Z then None
  else if (code =? NULL_POINTER)%Z then Some (Sentinel ErrNullPointer)
  else if (code =? INVALID_UTF8)%Z then Some (Sentinel ErrInvalidUTF8)
  else if (code =? NOT_INITIALIZED)%Z then Some (Sentinel ErrNotInitialized)
  else if (code =? ACCESS_DENIED)%Z then Some (Sentinel ErrAccessDenied)
  else if (code =? NOT_FOUND)%Z then Some (Sentinel ErrNotFound)
  else if (code =? CRYPTO_ERROR)%Z then Some (Sentinel ErrCrypto)
  else if (code =? BUFFER_TOO_SMALL)%Z then Some (Sentinel ErrBufferTooSmall)
  else if (code =? JSON_ERROR)%Z then Some (Sentinel ErrJSON)
  else if (code =? PANIC)%Z then Some (Sentinel ErrPanic)
  else Some (New ("sanctum: error code " ++ fmt_d code)).

(** A [*C.SanctumVault] that is not nil. *)
Definition handle : Type := positive.

(** The functions of the library.  A buffer argument is [None] for a nil
    pointer and [Some n] for a buffer of [n] bytes; a function with a
    buffer and a length pointer is given the length on entry and
    returns its result code, the bytes it wrote at the start of the
    buffer and the length on exit. *)
Class Library (W : Type) : Type := {
  sanctum_error_message : W -> option string;
  sanctum_vault_init : string -> bytes -> W -> option handle * W;
  sanctum_vault_open : string -> bytes -> W -> option handle * W;
  sanctum_vault_free : handle -> W -> W;
  sanctum_vault_store :
    handle -> string -> bytes -> string -> option string -> W -> Z * W;
  sanctum_vault_retrieve :
    handle -> string -> string -> option Z -> Z -> W -> Z * bytes * Z * W;
  sanctum_vault_check_policy : handle -> string -> string -> W -> Z * W;
  sanctum_vault_audit_log :
    handle -> option string -> option Z -> Z -> W -> Z * bytes * Z * W
}.

(** The largest slice the Go runtime makes. *)
Class Runtime : Type := {
  maxAlloc : Z
}.

(** [int(x)]: the low 64 bits of [x], read as signed.  It is the
    conversion of a [uintptr] and, on a sum of [int], its wrap-around. *)
Definition int (x : Z) : Z :=
  let u := uint64 x in if (u <? 2 ^ 63)%Z then u else (u - 2 ^ 64)%Z.

(** [make([]byte, n)]: [n] zero bytes, or a panic on a length the
    runtime refuses. *)
Definition make {R : Runtime} (n : Z) : outcome bytes :=
  if ((n <? 0) || (maxAlloc <? n))%Z
  then Panics "runtime error: makeslice: len out of range"
  else Returns (repeat x00 (Z.to_nat n)).

(** [buf[:h]] for a slice whose capacity is its length. *)
Definition slice_to (buf : bytes) (h : Z) : outcome bytes :=
  if ((h <? 0) || (len buf <? h))%Z
  then Panics "runtime error: slice bounds out of range"
  else Returns (firstn (Z.to_nat h) buf).

(** The buffer after the library wrote [out] at its start. *)
Definition filled (buf out : bytes) : bytes :=
  firstn (List.length buf) (out ++ skipn (List.length out) buf)%list.

(** [&b[0]] on an empty slice. *)
Definition index_panic : string :=
  "runtime error: index out of range [0] with length 0".

(** [Vault] wraps a handle of the library. *)
Record Vault : Type := mkVault {
  ptr : option handle
}.

Section Methods.
Context {H : Header} {R : Runtime} {W : Type} {L : Library W}.




(** [(v *Vault) Close()] frees the handle. *)
Definition Close (v : Vault) (w : W) : Vault * W :=
  match ptr v with
  | Some p => (mkVault None, sanctum_vault_free p w)
  | None => (v, w)
  end.

Definition closed_error : error := New "sanctum: vault is closed".

(** [(v *Vault) Store(name, secret, agentID, policyJSON)] *)
Definition Store (name : string) (secret : bytes) (agentID policyJSON : string)
    (v : Vault) (w : W) : outcome (option error) * W :=
  match ptr v with
  | None => (Returns (Some closed_error), w)
  | Some p =>
      let cPolicy := if negb (String.eqb policyJSON "") then Some policyJSON else None in
      match secret with
      | [] => (Panics index_panic, w)
      | _ :: _ =>
          let (rc, w1) := sanctum_vault_store p name secret agentID cPolicy w in
          (Returns (resultToError rc), w1)
      end
  end.

(** [(v *Vault) Retrieve(name, agentID)]; the slice returned is [None]
    for [nil]. *)
Definition Retrieve (name agentID : string) (v : Vault) (w : W)
  : outcome (option bytes * option error) * W :=
  match ptr v with
  | None => (Returns (None, Some closed_error), w)
  | Some p =>
      (* first call to get the required size; [needed] is a C.uintptr_t *)
      let '(rc, _, needed, w1) := sanctum_vault_retrieve p name agentID None 0 w in
      let needed := uint64 needed in
      if (negb (rc =? BUFFER_TOO_SMALL) && negb (rc =? OK))%Z
      then (Returns (None, resultToError rc), w1)
      else if (needed =? 0)%Z then (Returns (Some [], None), w1)
      else
        match make (int needed) with
        | Panics msg => (Panics msg, w1)
        | Returns buf =>
            let '(rc, out, outLen, w2) :=
              sanctum_vault_retrieve p name agentID (Some (len buf)) needed w1 in
            let buf := filled buf out in
            match resultToError rc with
            | Some err => (Returns (None, Some err), w2)
            | None =>
                match slice_to buf (int outLen) with
                | Panics msg => (Panics msg, w2)
                | Returns b => (Returns (Some b, None), w2)
                end
            end
        end
  end.

(** [(v *Vault) CheckPolicy(name, agentID)] *)
Definition CheckPolicy (name agentID : string) (v : Vault) (w : W)
  : option error * W :=
  match ptr v with
  | None => (Some closed_error, w)
  | Some p =>
      let (rc, w1) := sanctum_vault_check_policy p name agentID w in
      (resultToError rc, w1)
  end.

(** [(v *Vault) AuditLog(agentIDFilter)] *)
Definition AuditLog (agentIDFilter : string) (v : Vault) (w : W)
  : outcome (string * option error) * W :=
  match ptr v with
  | None => (Returns ("", Some closed_error), w)
  | Some p =>
      let cFilter :=
        if negb (String.eqb agentIDFilter "") then Some agentIDFilter else None in
      (* first call to get the required size; [needed] is a C.uintptr_t *)
      let '(rc, _, needed, w1) := sanctum_vault_audit_log p cFilter None 0 w in
      let needed := uint64 needed in
      if (negb (rc =? BUFFER_TOO_SMALL) && negb (rc =? OK))%Z
      then (Returns ("", resultToError rc), w1)
      else if (needed =? 0)%Z then (Returns ("[]", None), w1)
      else
        match make (int (int needed + 1)) with   (* +1 for NUL *)
        | Panics msg => (Panics msg, w1)
        | Returns [] => (Panics index_panic, w1)   (* &buf[0] *)
        | Returns ((_ :: _) as buf) =>
            let outLen := len buf in
            let '(rc, out, outLen, w2) :=
              sanctum_vault_audit_log p cFilter (Some (len buf)) outLen w1 in
            let buf := filled buf out in
            match resultToError rc with
            | Some err => (Returns ("", Some err), w2)
            | None =>
                match slice_to buf (int outLen) with
                | Panics msg => (Panics msg, w2)
                | Returns b => (Returns (string_of_list_byte b, None), w2)
                end
            end
        end
  end.

End Methods.

(** *** Vocabulary of the statements about the bindings *)

(** The result codes the sources name, in the order of the switch of
    [resultToError]. *)
Definition codes {H : Header} : list Z :=
  [OK; NULL_POINTER; INVALID_UTF8; NOT_INITIALIZED; ACCESS_DENIED;
   NOT_FOUND; CRYPTO_ERROR; BUFFER_TOO_SMALL; JSON_ERROR; PANIC].

(** The result code an error value stands for; [ErrUnknown] stands for
    none. *)
Definition code_of {H : Header} (s : sentinel) : option Z :=
  match s with
  | ErrNullPointer => Some NULL_POINTER
  | ErrInvalidUTF8 => Some INVALID_UTF8
  | ErrNotInitialized => Some NOT_INITIALIZED
  | ErrAccessDenied => Some ACCESS_DENIED
  | ErrNotFound => Some NOT_FOUND
  | ErrCrypto => Some CRYPTO_ERROR
  | ErrBufferTooSmall => Some BUFFER_TOO_SMALL
  | ErrJSON => Some JSON_ERROR
  | ErrPanic => Some PANIC
  | ErrUnknown => None
  end.


End Bindings.

(** A small library behind the bindings, for running the examples: one
    vault in memory that keeps the secrets by name, refuses an empty
    path, and answers the size protocol of [sanctum_vault_retrieve].
    Its result codes are those of an enumeration that starts at [OK]. *)
Module ReferenceVault.
Import Bindings.

#[export] Instance header : Header := {
  OK := 0; NULL_POINTER := 1; INVALID_UTF8 := 2; NOT_INITIALIZED := 3;
  ACCESS_DENIED := 4; NOT_FOUND := 5; CRYPTO_ERROR := 6; BUFFER_TOO_SMALL := 7;
  JSON_ERROR := 8; PANIC := 9
}.

#[export] Instance runtime : Runtime := {
  maxAlloc := 2 ^ 48
}.

Record World : Type := mkWorld {
  entries : list (string * bytes);
  freed : list handle;
  complaint : option string
}.

Definition empty : World := mkWorld [] [] None.

Definition lookup (name : string) (w : World) : option bytes :=
  match find (fun e => String.eqb (fst e) name) (entries w) with
  | Some e => Some (snd e)
  | None => None
  end.

Definition create (path : string) (passphrase : bytes) (w : World)
  : option handle * World :=
  if String.eqb path ""
  then (None, mkWorld (entries w) (freed w) (Some "empty path"))
  else (Some 1%positive, w).

(** The audit log: the names stored, newest first, between brackets. *)
Definition record (w : World) : string :=
  "[" ++ String.concat "," (map fst (entries w)) ++ "]".

(** The size protocol: without a buffer, or with one that is too small,
    the size needed is announced; with a buffer that is large enough
    the bytes are written. *)
Definition answer (content : option bytes) (buffer : option Z) (w : World)
  : Z * bytes * Z * World :=
  match content with
  | None => (5, [], 0, w)
  | Some b =>
      match buffer with
      | None => (7, [], len b, w)
      | Some n => if (n <? len b)%Z then (7, [], len b, w) else (0, b, len b, w)
      end
  end.

#[export] Instance library : Library World := {
  sanctum_error_message w := complaint w;
  sanctum_vault_init := create;
  sanctum_vault_open := create;
  sanctum_vault_free p w := mkWorld (entries w) (p :: freed w) (complaint w);
  sanctum_vault_store p name secret agentID policy w :=
    (0, mkWorld ((name, secret) :: entries w) (freed w) (complaint w));
  sanctum_vault_retrieve p name agentID buffer n w := answer (lookup name w) buffer w;
  sanctum_vault_check_policy p name agentID w := (0, w);
  sanctum_vault_audit_log p filter buffer n w :=
    answer (Some (list_byte_of_string (record w))) buffer w
}.

End ReferenceVault.

(* ================================================================== *)
(** ** Vocabulary of the statements about the operations *)
(* ================================================================== *)

(** A JSON package that prints every value: [json.Marshal] of a request
    whose parameters were marshalled by the package does not fail. *)
Definition prints_all (JSON : EncodingJSON) : Prop :=
  forall j, exists b, json_print j = Ok b.

(** The client is ready for a call under [ctx], and the peer has sent a
    frame of at most 16 MiB with [payload], and [rest] after it. *)
Definition awaits (ctx : Context) (c : Client) (payload rest : bytes) : Prop :=
  ready ctx (conn c) /\
  inbound (conn c) = (frame_of payload ++ rest)%list /\
  len payload <= maxFrameSize.

(** The frame [writeFrame] writes for a payload. *)
Definition written (payload : bytes) : bytes :=
  (PutUint32 (uint32 (len payload)) ++ payload)%list.

(** A response object in the shape of the wire protocol: what it sends
    as [id] is an unsigned 64-bit integer. *)
Definition response_shaped (ms : list (string * json)) : Prop :=
  typed as_uint64 "id" ms.

(** The entries of [credential.list], the result of [credential.use]
    and the result of [auth.challenge] in the shape of the wire
    protocol. *)
Definition info_shaped (ms : list (string * json)) : Prop :=
  typed as_string "path" ms /\ typed as_string "type" ms /\
  typed as_string "description" ms.

Definition use_shaped (ms : list (string * json)) : Prop :=
  typed as_bool "success" ms.

Definition challenge_shaped (ms : list (string * json)) : Prop :=
  typed as_string "challenge" ms.

(** An element of the array of [credential.list] that decodes: [null],
    or an object in the shape of an entry. *)
Definition listed (v : json) : Prop :=
  v = JNull \/ exists ms, v = JObject ms /\ info_shaped ms.

(** The entry such an element stands for. *)
Definition info_of (v : json) : CredentialInfo.t :=
  CredentialInfo.mk
    (string_sent "path" "" (members (Some v)))
    (string_sent "type" "" (members (Some v)))
    (string_sent "description" "" (members (Some v))).

(** The parameters of the calls, as the operations build them. *)
Definition retrieveParams (path : string) (ttl : Z) : json :=
  JObject [("path", JString path); ("ttl", JInt ttl)].

Definition useParams (path operation : string) (params : json) : json :=
  JObject [("operation", JString operation); ("params", params); ("path", JString path)].

Definition releaseParams (leaseID : string) : json :=
  JObject [("lease_id", JString leaseID)].

Definition challengeParams (agentName : string) : json :=
  JObject [("agent", JString agentName)].

Definition verifyParams (agentName : string) (signature : bytes) : json :=
  JObject [("agent", JString agentName);
           ("signature", JString (hex_EncodeToString signature))].

(** The error of [json.Unmarshal] on a nil [json.RawMessage]. *)
Definition end_of_input : error :=
  EJSON (SyntaxError "unexpected end of JSON input").

(** Two states of one connection between which it was neither closed
    nor given another deadline. *)
Definition same_settings (k k' : Conn) : Prop :=
  closed k' = closed k /\ deadline k' = deadline k /\ now k' = now k.

(** The connection as a call under [ctx] uses it, with the deadline of
    [ctx] set, and as the call leaves it, with that deadline cleared. *)
Definition armed (ctx : Context) (k : Conn) : Conn :=
  match Deadline ctx with
  | Some d => mkConn (inbound k) (outbound k) (Some d) (now k) (closed k)
  | None => k
  end.

Definition disarmed (ctx : Context) (k : Conn) : Conn :=
  match Deadline ctx with
  | Some _ => cleared k
  | None => k
  end.

(** The errors a call can end in, by the step that failed: marshalling
    the parameters, setting the deadline, the steps of [writeFrame] and
    of [readFrame], and the error payload of the response. *)
Definition call_failure (e : error) : Prop :=
  (exists j, e = Wrap "marshal params" (EJSON j)) \/
  e = EIO ErrClosed \/
  (exists cause, e = Wrap "marshal request" cause) \/
  (exists io, e = Wrap "write length" (EIO io)) \/
  (exists io, e = Wrap "write payload" (EIO io)) \/
  (exists io, e = Wrap "read length" (EIO io)) \/
  (exists n, maxFrameSize < n /\
             e = EProtocol (ProtocolError.mk ("frame too large: " ++ decimal n ++ " bytes"))) \/
  (exists io, e = Wrap "read payload" (EIO io)) \/
  (exists cause, e = Wrap "unmarshal response" cause) \/
  (exists vaultErr, e = EVault vaultErr) \/
  e = EProtocol (ProtocolError.mk "failed to parse error response").

(** The errors [Authenticate] can return, by the step that failed. *)
Definition handshake_failure (e : error) : Prop :=
  (exists cause, e = Wrap "auth challenge" cause /\ call_failure cause) \/
  (exists j, e = Wrap "parse challenge" (EJSON j)) \/
  (exists h, e = Wrap "decode challenge hex" (EHex h)) \/
  (exists cause, e = Wrap "auth verify" cause /\ call_failure cause) \/
  (exists j, e = Wrap "parse auth result" (EJSON j)) \/
  e = Errorf "authentication rejected by server".




(* ================================================================== *)
(** ** Bytes and big-endian words *)
(* ================================================================== *)

Lemma Z_of_byte_range b : 0 <= Z_of_byte b < 256.
Proof.
  unfold Z_of_byte. pose proof (Byte.to_N_bounded b). lia.
Qed.

Lemma Z_of_byte_of_Z v : Z_of_byte (byte_of_Z v) = v mod 256.
Proof.
  unfold Z_of_byte, byte_of_Z.
  change 255 with (Z.ones 8). rewrite Z.land_ones by lia.
  change (2 ^ 8) with 256.
  assert (Hr : 0 <= v mod 256 < 256) by (apply Z.mod_pos_bound; lia).
  destruct (Byte.of_N (Z.to_N (v mod 256))) as [b|] eqn:E.
  - apply Byte.to_of_N in E. rewrite E. lia.
  - exfalso.
    pose proof (Byte.to_of_N_option_map (Z.to_N (v mod 256))) as M.
    rewrite E in M. simpl in M.
    destruct (N.leb_spec (Z.to_N (v mod 256)) 255); [discriminate | lia].
Qed.

(** A big-endian word read back is the word written, below [2^32]. *)
Lemma Uint32_PutUint32 v : 0 <= v < uint32_max -> Uint32 (PutUint32 v) = v.
Proof.
  unfold uint32_max. intros Hv. unfold Uint32, PutUint32.
  rewrite !Z_of_byte_of_Z.
  change 256 with (2 ^ 8).
  apply Z.bits_inj'. intros n Hn.
  rewrite !Z.lor_spec.
  rewrite !Z.shiftl_spec by lia.
  destruct (Z_lt_le_dec n 8) as [H8|H8].
  { rewrite Z.mod_pow2_bits_low by lia.
    rewrite (Z.testbit_neg_r _ (n - 8)) by lia.
    rewrite (Z.testbit_neg_r _ (n - 16)) by lia.
    rewrite (Z.testbit_neg_r _ (n - 24)) by lia.
    now rewrite !orb_false_r. }
  rewrite (Z.mod_pow2_bits_high v 8 n) by lia.
  destruct (Z_lt_le_dec n 16) as [H16|H16].
  { rewrite Z.mod_pow2_bits_low by lia.
    rewrite Z.shiftr_spec by lia.
    rewrite (Z.testbit_neg_r _ (n - 16)) by lia.
    rewrite (Z.testbit_neg_r _ (n - 24)) by lia.
    rewrite !orb_false_r. simpl. f_equal. lia. }
  rewrite (Z.mod_pow2_bits_high _ 8 (n - 8)) by lia.
  destruct (Z_lt_le_dec n 24) as [H24|H24].
  { rewrite Z.mod_pow2_bits_low by lia.
    rewrite Z.shiftr_spec by lia.
    rewrite (Z.testbit_neg_r _ (n - 24)) by lia.
    rewrite !orb_false_r. simpl. f_equal. lia. }
  rewrite (Z.mod_pow2_bits_high _ 8 (n - 16)) by lia.
  destruct (Z_lt_le_dec n 32) as [H32|H32].
  { rewrite Z.mod_pow2_bits_low by lia.
    rewrite Z.shiftr_spec by lia.
    simpl. f_equal. lia. }
  rewrite (Z.mod_pow2_bits_high _ 8 (n - 24)) by lia.
  simpl. symmetry.
  apply Z.bits_above_log2; [lia|].
  destruct (Z.eq_dec v 0) as [->|Hz]; [simpl; lia|].
  apply Z.log2_lt_pow2; [lia|].
  apply Z.lt_le_trans with (2 ^ 32); [lia|].
  apply Z.pow_le_mono_r; lia.
Qed.

(* ================================================================== *)
(** ** The transport *)
(* ================================================================== *)

Local Open Scope list_scope.

Lemma len_nonneg b : 0 <= len b.
Proof. unfold len. lia. Qed.

Lemma uint32_small v : 0 <= v < uint32_max -> uint32 v = v.
Proof. intros H. unfold uint32. apply Z.mod_small. exact H. Qed.

Lemma maxFrameSize_lt_uint32_max : maxFrameSize < uint32_max.
Proof. reflexivity. Qed.

Lemma usable_sent p k : usable k -> usable (sent p k).
Proof. intros [Hc He]. split; assumption. Qed.

Lemma usable_left rest k : usable k -> usable (left rest k).
Proof. intros [Hc He]. split; assumption. Qed.

Lemma sent_sent p q k : sent q (sent p k) = sent (p ++ q)%list k.
Proof. unfold sent. simpl. rewrite app_assoc. reflexivity. Qed.

Lemma Write_usable p k : usable k -> Write p k = (Ok tt, sent p k).
Proof.
  intros [Hc He]. unfold Write, sent. rewrite He, Hc. reflexivity.
Qed.

(** Reading as many bytes as the stream starts with gives exactly them. *)
Lemma ReadFull_prefix p rest k :
  usable k -> inbound k = (p ++ rest)%list ->
  ReadFull (List.length p) k = (Ok p, left rest k).
Proof.
  intros [Hc He] Hin. unfold ReadFull, left.
  destruct (List.length p) eqn:Hlen.
  - apply length_zero_iff_nil in Hlen. subst p. simpl in Hin.
    rewrite <- Hin. destruct k; reflexivity.
  - rewrite He, <- Hlen, Hin.
    assert (Hle : (List.length p <=? List.length (p ++ rest))%nat = true).
    { apply Nat.leb_le. rewrite length_app. lia. }
    rewrite Hle.
    rewrite firstn_app, Nat.sub_diag, firstn_all. simpl. rewrite app_nil_r.
    rewrite skipn_app, Nat.sub_diag, skipn_all. simpl.
    destruct (closed k); [discriminate | reflexivity].
Qed.

Lemma binary_Read_header hdr rest k :
  usable k -> List.length hdr = 4%nat -> inbound k = (hdr ++ rest)%list ->
  binary_Read k = (Ok (Uint32 hdr), left rest k).
Proof.
  intros Hu Hlen Hin. unfold binary_Read.
  rewrite <- Hlen. rewrite (ReadFull_prefix hdr rest k Hu Hin). reflexivity.
Qed.

(* ================================================================== *)
(** ** The frame codec *)
(* ================================================================== *)

Section CodecFacts.
Context {JSON : EncodingJSON}.

(** On a usable connection [writeFrame] writes the truncated length and
    the payload, whatever the length is. *)
Lemma writeFrame_usable req payload w :
  Marshal_RpcRequest req = Ok payload -> usable w ->
  writeFrame req w = (Ok tt, sent (PutUint32 (uint32 (len payload)) ++ payload)%list w).
Proof.
  intros HM Hu. unfold writeFrame. rewrite HM.
  unfold binary_Write. rewrite (Write_usable _ _ Hu).
  rewrite (Write_usable _ _ (usable_sent _ _ Hu)).
  rewrite sent_sent. reflexivity.
Qed.

(** With a header over the ceiling, [readFrame] stops after the header. *)
Lemma readFrame_too_large hdr rest r :
  usable r -> List.length hdr = 4%nat -> inbound r = (hdr ++ rest)%list ->
  maxFrameSize < Uint32 hdr ->
  readFrame r =
    (Err (EProtocol (ProtocolError.mk
            ("frame too large: " ++ decimal (Uint32 hdr) ++ " bytes")%string)),
     left rest r).
Proof.
  intros Hu Hlen Hin Hbig. unfold readFrame.
  rewrite (binary_Read_header hdr rest r Hu Hlen Hin).
  destruct (Z.gtb_spec (Uint32 hdr) maxFrameSize); [reflexivity | lia].
Qed.

(** With a header within the ceiling and the payload behind it,
    [readFrame] parses exactly the payload. *)
Lemma readFrame_payload hdr payload rest r :
  usable r -> List.length hdr = 4%nat ->
  inbound r = (hdr ++ payload ++ rest)%list ->
  Uint32 hdr = len payload -> len payload <= maxFrameSize ->
  readFrame r =
    (match Unmarshal_payload payload with
     | Err e => Err (Wrap "unmarshal response" e)
     | Ok resp => Ok resp
     end, left rest r).
Proof.
  intros Hu Hlen Hin HL Hmax. unfold readFrame.
  rewrite (binary_Read_header hdr (payload ++ rest) r Hu Hlen Hin).
  destruct (Z.gtb_spec (Uint32 hdr) maxFrameSize); [lia|].
  rewrite HL. unfold len. rewrite Nat2Z.id.
  rewrite (ReadFull_prefix payload rest (left (payload ++ rest) r));
    [| apply usable_left; exact Hu | reflexivity].
  destruct (Unmarshal_payload payload); reflexivity.
Qed.

Lemma readFrame_frame_of payload rest r :
  usable r -> inbound r = (frame_of payload ++ rest)%list ->
  len payload <= maxFrameSize ->
  readFrame r =
    (match Unmarshal_payload payload with
     | Err e => Err (Wrap "unmarshal response" e)
     | Ok resp => Ok resp
     end, left rest r).
Proof.
  intros Hu Hin Hmax. unfold frame_of in Hin. rewrite <- app_assoc in Hin.
  apply (readFrame_payload (PutUint32 (len payload)) payload rest r Hu); auto.
  apply Uint32_PutUint32. pose proof (len_nonneg payload).
  pose proof maxFrameSize_lt_uint32_max. lia.
Qed.

End CodecFacts.

(* ================================================================== *)
(** ** The dispatcher *)
(* ================================================================== *)

(** The id of a request is the value the counter had. *)
Lemma takeID_value c :
  takeID c = (uint64 (nextID c), mkClient (conn c) (uint64 (nextID c + 1))).
Proof.
  unfold takeID, uint64. f_equal.
  rewrite Zminus_mod_idemp_l. f_equal. lia.
Qed.

Lemma uint64_small v : 0 <= v < uint64_max -> uint64 v = v.
Proof. intros H. unfold uint64. apply Z.mod_small. exact H. Qed.

Lemma newRequest_value method pb c :
  newRequest method pb c =
    (RpcRequest.mk (uint64 (nextID c)) method pb,
     mkClient (conn c) (uint64 (nextID c + 1))).
Proof. unfold newRequest. rewrite takeID_value. reflexivity. Qed.

(** What a response delivers does not depend on the id it carries. *)
Lemma deliver_any_id i j result err :
  deliver (RpcResponse.mk i result err) = deliver (RpcResponse.mk j result err).
Proof. reflexivity. Qed.

Lemma deliver_result resp :
  RpcResponse.Error resp = None -> deliver resp = Ok (RpcResponse.Result resp).
Proof. intros H. unfold deliver. rewrite H. reflexivity. Qed.

(** A response with an error payload never delivers a result. *)
Lemma deliver_error resp v :
  RpcResponse.Error resp = Some v ->
  deliver resp =
    match Unmarshal_VaultError (Some v) with
    | Err _ => Err (EProtocol (ProtocolError.mk "failed to parse error response"))
    | Ok vaultErr => Err (EVault vaultErr)
    end.
Proof. intros H. unfold deliver. rewrite H. reflexivity. Qed.

Section DispatcherFacts.
Context {JSON : EncodingJSON}.

(** The exchange on a usable connection on which a well-sized response
    frame is waiting. *)
Lemma exchange_usable req bytes payload rest k :
  Marshal_RpcRequest req = Ok bytes ->
  usable k ->
  inbound k = frame_of payload ++ rest ->
  len payload <= maxFrameSize ->
  exchange req k =
    (match Unmarshal_payload payload with
     | Err e => Err (Wrap "unmarshal response" e)
     | Ok resp => deliver resp
     end,
     left rest (sent (PutUint32 (uint32 (len bytes)) ++ bytes) k)).
Proof.
  intros HM Hu Hin Hmax. unfold exchange.
  rewrite (writeFrame_usable req bytes k HM Hu).
  rewrite (readFrame_frame_of payload rest (sent _ k));
    [| apply usable_sent; exact Hu | exact Hin | exact Hmax].
  destruct (Unmarshal_payload payload); reflexivity.
Qed.

(** A call on a ready connection on which a well-sized response frame
    is waiting: the request goes out under the id of the counter, the
    frame is consumed, and the response is delivered. *)
Lemma call_ready ctx method params pb c bytes payload rest :
  Marshal_any params = Ok pb ->
  Marshal_RpcRequest (RpcRequest.mk (uint64 (nextID c)) method pb) = Ok bytes ->
  ready ctx (conn c) ->
  inbound (conn c) = frame_of payload ++ rest ->
  len payload <= maxFrameSize ->
  call ctx method params c =
    (match Unmarshal_payload payload with
     | Err e => Err (Wrap "unmarshal response" e)
     | Ok resp => deliver resp
     end,
     served ctx bytes rest c).
Proof.
  intros HA HM [Hc Hd] Hin Hmax. unfold call. rewrite HA.
  rewrite newRequest_value. unfold served. cbn [conn nextID].
  destruct (Deadline ctx) as [d|] eqn:HD.
  - unfold SetDeadline at 1. rewrite Hc.
    rewrite (exchange_usable _ bytes payload rest _ HM);
      [| split; [reflexivity | unfold expired; cbn; apply Z.leb_gt; exact Hd]
       | exact Hin | exact Hmax].
    unfold SetDeadline, left, sent. cbn. reflexivity.
  - rewrite (exchange_usable _ bytes payload rest _ HM);
      [| split; assumption | exact Hin | exact Hmax].
    unfold left, sent. cbn. rewrite Hc. reflexivity.
Qed.

(** Whatever happens on the wire, a call whose parameters marshal moves
    the counter on by one, and one whose parameters do not leaves the
    client alone. *)
Lemma call_nextID ctx method params c :
  nextID (snd (call ctx method params c)) =
    match Marshal_any params with
    | Ok _ => uint64 (nextID c + 1)
    | Err _ => nextID c
    end.
Proof.
  unfold call. destruct (Marshal_any params) as [pb|e]; [|reflexivity].
  rewrite newRequest_value. cbn [conn nextID].
  destruct (Deadline ctx) as [d|].
  - destruct (SetDeadline (Some d) (conn c)) as [[u|e] k]; [|reflexivity].
    destruct (exchange _ k) as [r k']. reflexivity.
  - destruct (exchange _ (conn c)) as [r k']. reflexivity.
Qed.

(** A call never looks at whether its context is done. *)
Lemma call_ignores_Done d done done' method params c :
  call (mkContext d done) method params c = call (mkContext d done') method params c.
Proof. reflexivity. Qed.

End DispatcherFacts.

(* ================================================================== *)
(** ** Decoding an object into a struct *)
(* ================================================================== *)

(** Two fields with different folded names never take the same member. *)
Lemma names_other k a b :
  names k a = true -> names a b = false -> names k b = false.
Proof.
  unfold names. intros Ha Hab. apply String.eqb_eq in Ha.
  rewrite Ha. exact Hab.
Qed.

Lemma find_app_first {A} (f : A -> bool) (l1 l2 : list A) :
  find f (l1 ++ l2) =
    match find f l1 with
    | Some x => Some x
    | None => find f l2
    end.
Proof.
  induction l1 as [|x l1 IH]; simpl; [reflexivity|].
  destruct (f x); [reflexivity | exact IH].
Qed.

Lemma named_cons name k v ms :
  named name ((k, v) :: ms) =
    named name ms ++ (if names k name then [v] else []).
Proof.
  unfold named. simpl. rewrite filter_app, map_app. simpl.
  destruct (names k name); reflexivity.
Qed.

Lemma sends_cons name k v ms :
  sends name ((k, v) :: ms) =
    match sends name ms with
    | Some x => Some x
    | None => if names k name && negb (is_null v) then Some v else None
    end.
Proof.
  unfold sends. rewrite named_cons, find_app_first.
  destruct (find _ (named name ms)); [reflexivity|].
  destruct (names k name); simpl; [|reflexivity].
  destruct (is_null v); reflexivity.
Qed.

(** What an object sends for a field is one of its members with that
    name, and not [null]. *)
Lemma sends_member name ms x :
  sends name ms = Some x ->
  (exists k, In (k, x) ms /\ names k name = true) /\ x <> JNull.
Proof.
  unfold sends, named. intros H. apply find_some in H. destruct H as [Hin Hnn].
  apply in_map_iff in Hin. destruct Hin as [[k v] [Hv Hin]]. simpl in Hv. subst v.
  apply filter_In in Hin. destruct Hin as [Hin Hk]. apply in_rev in Hin.
  split.
  - exists k. split; assumption.
  - intros ->. discriminate.
Qed.

Lemma typed_tail {A} (as_A : json -> option A) name m ms :
  typed as_A name (m :: ms) -> typed as_A name ms.
Proof. intros H k v Hin. apply H. right. exact Hin. Qed.

Lemma typed_head {A} (as_A : json -> option A) name k v ms :
  typed as_A name ((k, v) :: ms) -> names k name = true ->
  v = JNull \/ exists a, as_A v = Some a.
Proof. intros H. apply H. left. reflexivity. Qed.

(** The value sent by an object with one more member in front. *)
Lemma value_sent_cons {A} (as_A : json -> option A) name d k v ms :
  as_A JNull = None ->
  typed as_A name ms ->
  value_sent as_A name d ((k, v) :: ms) =
    value_sent as_A name
      (if names k name then match as_A v with Some a => a | None => d end else d) ms.
Proof.
  intros Hnull Ht. unfold value_sent. rewrite sends_cons.
  destruct (sends name ms) as [x|] eqn:Hs.
  - destruct (sends_member name ms x Hs) as [[k' [Hin Hk']] Hnn].
    destruct (Ht k' x Hin Hk') as [->|[a Ha]]; [contradiction|].
    rewrite Ha. reflexivity.
  - destruct (names k name); simpl; [|reflexivity].
    destruct v; simpl; try reflexivity.
    rewrite Hnull. reflexivity.
Qed.

Lemma raw_sent_cons name d k v ms :
  raw_sent name d ((k, v) :: ms) =
    raw_sent name (if names k name then Some v else d) ms.
Proof.
  unfold raw_sent. rewrite named_cons.
  destruct (named name ms); simpl; [|reflexivity].
  destruct (names k name); reflexivity.
Qed.

Lemma into_string_typed field v old :
  v = JNull \/ (exists a, as_string v = Some a) ->
  into_string field v old =
    Ok (match as_string v with Some a => a | None => old end).
Proof.
  intros [->|[a Ha]]; [reflexivity|].
  destruct v; try discriminate. reflexivity.
Qed.

Lemma into_uint64_typed field v old :
  v = JNull \/ (exists a, as_uint64 v = Some a) ->
  into_uint64 field v old =
    Ok (match as_uint64 v with Some a => a | None => old end).
Proof.
  intros [->|[a Ha]]; [reflexivity|].
  destruct v; try discriminate. simpl in *.
  destruct ((0 <=? n) && (n <? uint64_max))%Z; [reflexivity | discriminate].
Qed.

Lemma into_bool_typed field v old :
  v = JNull \/ (exists a, as_bool v = Some a) ->
  into_bool field v old =
    Ok (match as_bool v with Some a => a | None => old end).
Proof.
  intros [->|[a Ha]]; [reflexivity|].
  destruct v; try discriminate. reflexivity.
Qed.

(** Once a member is known to go to one field, it goes to no other. *)
Ltac other_fields k :=
  repeat match goal with
  | E : names k ?a = true |- context [names k ?b] =>
      lazymatch a with
      | b => fail
      | _ => rewrite (names_other k a b E eq_refl)
      end
  end.

(** An error payload in the shape of the wire protocol decodes, and
    every field of the [VaultError] is what the payload sends for it. *)
Lemma store_VaultError ms : forall acc,
  error_shaped ms ->
  store_members set_VaultError ms acc =
    Ok (VaultError.mk
          (string_sent "code" (VaultError.Code acc) ms)
          (string_sent "message" (VaultError.Message acc) ms)
          (string_sent "detail" (VaultError.Detail acc) ms)
          (string_sent "suggestion" (VaultError.Suggestion acc) ms)
          (string_sent "docs_url" (VaultError.DocsURL acc) ms)
          (raw_sent "context" (VaultError.Context acc) ms)).
Proof.
  induction ms as [|[k v] ms IH]; intros acc Hs.
  - destruct acc. reflexivity.
  - destruct Hs as (H1 & H2 & H3 & H4 & H5).
    assert (Hs' : error_shaped ms)
      by (repeat split; eapply typed_tail; eassumption).
    pose proof Hs' as (T1 & T2 & T3 & T4 & T5).
    unfold string_sent.
    rewrite !(value_sent_cons as_string) by (reflexivity || assumption).
    rewrite raw_sent_cons.
    destruct acc as [code message detail suggestion docs context].
    cbn [store_members set_VaultError VaultError.Code VaultError.Message
         VaultError.Detail VaultError.Suggestion VaultError.DocsURL
         VaultError.Context].
    destruct (names k "code") eqn:E1.
    { rewrite (into_string_typed "code" v code (typed_head _ _ _ _ _ H1 E1)).
      other_fields k. rewrite (IH _ Hs'). reflexivity. }
    destruct (names k "message") eqn:E2.
    { rewrite (into_string_typed "message" v message (typed_head _ _ _ _ _ H2 E2)).
      other_fields k. rewrite (IH _ Hs'). reflexivity. }
    destruct (names k "detail") eqn:E3.
    { rewrite (into_string_typed "detail" v detail (typed_head _ _ _ _ _ H3 E3)).
      other_fields k. rewrite (IH _ Hs'). reflexivity. }
    destruct (names k "suggestion") eqn:E4.
    { rewrite (into_string_typed "suggestion" v suggestion (typed_head _ _ _ _ _ H4 E4)).
      other_fields k. rewrite (IH _ Hs'). reflexivity. }
    destruct (names k "docs_url") eqn:E5.
    { rewrite (into_string_typed "docs_url" v docs (typed_head _ _ _ _ _ H5 E5)).
      other_fields k. rewrite (IH _ Hs'). reflexivity. }
    destruct (names k "context") eqn:E6.
    { rewrite (IH _ Hs'). reflexivity. }
    rewrite (IH _ Hs'). reflexivity.
Qed.

(** The same for a credential. *)
Lemma store_Credential ms : forall acc,
  credential_shaped ms ->
  store_members set_Credential ms acc =
    Ok (Credential.mk
          (string_sent "path" (Credential.Path acc) ms)
          (raw_sent "value" (Credential.Value acc) ms)
          (string_sent "lease_id" (Credential.LeaseID acc) ms)
          (uint_sent "ttl" (Credential.TTL acc) ms)).
Proof.
  induction ms as [|[k v] ms IH]; intros acc Hs.
  - destruct acc. reflexivity.
  - destruct Hs as (H1 & H2 & H3).
    assert (Hs' : credential_shaped ms)
      by (repeat split; eapply typed_tail; eassumption).
    pose proof Hs' as (T1 & T2 & T3).
    unfold string_sent, uint_sent.
    rewrite !(value_sent_cons as_string) by (reflexivity || assumption).
    rewrite !(value_sent_cons as_uint64) by (reflexivity || assumption).
    rewrite raw_sent_cons.
    destruct acc as [path value lease ttl].
    cbn [store_members set_Credential Credential.Path Credential.Value
         Credential.LeaseID Credential.TTL].
    destruct (names k "path") eqn:E1.
    { rewrite (into_string_typed "path" v path (typed_head _ _ _ _ _ H1 E1)).
      other_fields k. rewrite (IH _ Hs'). reflexivity. }
    destruct (names k "value") eqn:E2.
    { other_fields k. rewrite (IH _ Hs'). reflexivity. }
    destruct (names k "lease_id") eqn:E3.
    { rewrite (into_string_typed "lease_id" v lease (typed_head _ _ _ _ _ H2 E3)).
      other_fields k. rewrite (IH _ Hs'). reflexivity. }
    destruct (names k "ttl") eqn:E4.
    { rewrite (into_uint64_typed "ttl" v ttl (typed_head _ _ _ _ _ H3 E4)).
      rewrite (IH _ Hs'). reflexivity. }
    rewrite (IH _ Hs'). reflexivity.
Qed.

(** The same for the result of [auth.verify]. *)
Lemma store_authResult ms : forall acc,
  verdict_shaped ms ->
  store_members set_authResult ms acc =
    Ok (authResult.mk
          (bool_sent "authenticated" (authResult.Authenticated acc) ms)
          (string_sent "session_id" (authResult.SessionID acc) ms)).
Proof.
  induction ms as [|[k v] ms IH]; intros acc Hs.
  - destruct acc. reflexivity.
  - destruct Hs as (H1 & H2).
    assert (Hs' : verdict_shaped ms)
      by (repeat split; eapply typed_tail; eassumption).
    pose proof Hs' as (T1 & T2).
    unfold string_sent, bool_sent.
    rewrite !(value_sent_cons as_string) by (reflexivity || assumption).
    rewrite !(value_sent_cons as_bool) by (reflexivity || assumption).
    destruct acc as [authenticated session].
    cbn [store_members]. unfold set_authResult.
    cbn [authResult.Authenticated authResult.SessionID].
    destruct (names k "authenticated") eqn:E1.
    { rewrite (into_bool_typed "authenticated" v authenticated (typed_head _ _ _ _ _ H1 E1)).
      other_fields k. rewrite (IH _ Hs'). reflexivity. }
    destruct (names k "session_id") eqn:E2.
    { rewrite (into_string_typed "session_id" v session (typed_head _ _ _ _ _ H2 E2)).
      rewrite (IH _ Hs'). reflexivity. }
    rewrite (IH _ Hs'). reflexivity.
Qed.

(** *** Decoding succeeds only on objects of the right shape *)

Lemma into_string_Ok field v old s :
  into_string field v old = Ok s -> v = JNull \/ exists a, as_string v = Some a.
Proof. destruct v; cbn; intros H; try discriminate; eauto. Qed.

Lemma into_bool_Ok field v old b :
  into_bool field v old = Ok b -> v = JNull \/ exists a, as_bool v = Some a.
Proof. destruct v; cbn; intros H; try discriminate; eauto. Qed.

Lemma into_uint64_Ok field v old n :
  into_uint64 field v old = Ok n -> v = JNull \/ exists a, as_uint64 v = Some a.
Proof.
  destruct v; unfold into_uint64, as_uint64, mismatch; intros H;
    try discriminate; [left; reflexivity|].
  destruct (_ && _)%bool; [right; eexists; reflexivity | discriminate].
Qed.

(** When the setter of a struct refuses every value of the wrong type
    for a field, a decoding that succeeds has seen none. *)
Lemma store_members_typed {T A} (set : string -> json -> T -> result T)
    (as_A : json -> option A) name :
  (forall k v acc acc', names k name = true -> set k v acc = Ok acc' ->
     v = JNull \/ exists a, as_A v = Some a) ->
  forall ms acc r, store_members set ms acc = Ok r -> typed as_A name ms.
Proof.
  intros Hset. induction ms as [|[k v] ms IH]; intros acc r H k' v' Hin Hk.
  - destruct Hin.
  - cbn [store_members] in H.
    destruct (set k v acc) as [acc'|e] eqn:E; [|discriminate].
    destruct Hin as [[= <- <-]|Hin].
    + exact (Hset k v acc acc' Hk E).
    + exact (IH acc' r H k' v' Hin Hk).
Qed.

Ltac refuses_other_types :=
  match goal with
  | H : match into_string ?f ?v ?old with Ok _ => _ | Err _ => _ end = Ok _ |- _ =>
      destruct (into_string f v old) eqn:Einto; [|discriminate H];
      exact (into_string_Ok f v old _ Einto)
  | H : match into_bool ?f ?v ?old with Ok _ => _ | Err _ => _ end = Ok _ |- _ =>
      destruct (into_bool f v old) eqn:Einto; [|discriminate H];
      exact (into_bool_Ok f v old _ Einto)
  | H : match into_uint64 ?f ?v ?old with Ok _ => _ | Err _ => _ end = Ok _ |- _ =>
      destruct (into_uint64 f v old) eqn:Einto; [|discriminate H];
      exact (into_uint64_Ok f v old _ Einto)
  end.

Lemma store_VaultError_shaped ms acc r :
  store_members set_VaultError ms acc = Ok r -> error_shaped ms.
Proof.
  intros H. repeat split;
    (eapply store_members_typed; [|exact H]);
    intros k v [code message detail suggestion docs context] acc' Hk Hset;
    cbn [set_VaultError] in Hset;
    repeat match type of Hset with
    | context [names k ?b] =>
        first [ rewrite Hk in Hset
              | rewrite (names_other k _ b Hk eq_refl) in Hset ]
    end;
    refuses_other_types.
Qed.

Lemma store_Credential_shaped ms acc r :
  store_members set_Credential ms acc = Ok r -> credential_shaped ms.
Proof.
  intros H. repeat split;
    (eapply store_members_typed; [|exact H]);
    intros k v [path value lease ttl] acc' Hk Hset;
    cbn [set_Credential] in Hset;
    repeat match type of Hset with
    | context [names k ?b] =>
        first [ rewrite Hk in Hset
              | rewrite (names_other k _ b Hk eq_refl) in Hset ]
    end;
    refuses_other_types.
Qed.

(** What a raw message sends as the members of an object: [null] sends
    none. *)
Lemma Unmarshal_VaultError_members v e :
  Unmarshal_VaultError (Some v) = Ok e ->
  error_shaped (members (Some v)) /\
  e = VaultError.mk
        (string_sent "code" "" (members (Some v)))
        (string_sent "message" "" (members (Some v)))
        (string_sent "detail" "" (members (Some v)))
        (string_sent "suggestion" "" (members (Some v)))
        (string_sent "docs_url" "" (members (Some v)))
        (raw_sent "context" None (members (Some v))).
Proof.
  unfold Unmarshal_VaultError, Unmarshal_struct, members.
  destruct v; try discriminate.
  - intros [= <-]. split; [|reflexivity].
    repeat split; intros k v [].
  - intros H. pose proof (store_VaultError_shaped _ _ _ H) as Hs.
    split; [exact Hs|].
    rewrite (store_VaultError members0 VaultError.zero Hs) in H.
    injection H as <-. reflexivity.
Qed.

Lemma Unmarshal_Credential_members v cred :
  Unmarshal_Credential v = Ok cred ->
  credential_shaped (members v) /\
  cred = Credential.mk
           (string_sent "path" "" (members v))
           (raw_sent "value" None (members v))
           (string_sent "lease_id" "" (members v))
           (uint_sent "ttl" 0 (members v)).
Proof.
  unfold Unmarshal_Credential, Unmarshal_struct, members.
  destruct v as [v|]; [|discriminate].
  destruct v; try discriminate.
  - intros [= <-]. split; [|reflexivity].
    repeat split; intros k v [].
  - intros H. pose proof (store_Credential_shaped _ _ _ H) as Hs.
    split; [exact Hs|].
    rewrite (store_Credential members0 Credential.zero Hs) in H.
    injection H as <-. reflexivity.
Qed.

(** The image of a request, decoded as a response: the id and nothing
    else. *)
Lemma Unmarshal_request_image req :
  0 <= RpcRequest.ID req < uint64_max ->
  Unmarshal_RpcResponse (Some (request_json req)) =
    Ok (RpcResponse.mk (RpcRequest.ID req) None None).
Proof.
  destruct req as [id method params]. cbn [RpcRequest.ID]. intros [H0 H1].
  apply Z.leb_le in H0. apply Z.ltb_lt in H1.
  unfold Unmarshal_RpcResponse, Unmarshal_struct, request_json.
  cbn [RpcRequest.ID RpcRequest.Method RpcRequest.Params store_members].
  unfold set_RpcResponse at 1.
  change (names "id" "id") with true. cbv iota.
  unfold into_uint64. rewrite H0, H1.
  cbn [andb RpcResponse.zero RpcResponse.ID RpcResponse.Result RpcResponse.Error].
  unfold set_RpcResponse at 1.
  change (names "method" "id") with false.
  change (names "method" "result") with false.
  change (names "method" "error") with false. cbv iota.
  unfold set_RpcResponse at 1.
  change (names "params" "id") with false.
  change (names "params" "result") with false.
  change (names "params" "error") with false. cbv iota.
  reflexivity.
Qed.

(* ================================================================== *)
(** ** encoding/hex *)
(* ================================================================== *)

(** [hex.DecodeString] succeeds exactly on valid hexadecimal text.  The
    statement is about a string and about the string with one more
    character in front, so that the induction follows the pairs. *)
Lemma hex_DecodeString_valid_both s :
  (valid_hex s = is_Ok (hex_DecodeString s)) /\
  (forall c, valid_hex (String c s) = is_Ok (hex_DecodeString (String c s))).
Proof.
  induction s as [|a s [IH1 IH2]].
  - split; [reflexivity|].
    intros c. unfold valid_hex. simpl.
    destruct (fromHexChar c); reflexivity.
  - split; [apply IH2|].
    intros c. unfold valid_hex in *. cbn [String.length Nat.even all_hex hex_DecodeString].
    destruct (fromHexChar c) as [x|]; [|rewrite andb_false_r; reflexivity].
    destruct (fromHexChar a) as [y|]; [|rewrite andb_false_r; reflexivity].
    rewrite IH1. destruct (hex_DecodeString s); reflexivity.
Qed.

Lemma hex_DecodeString_valid s :
  valid_hex s = is_Ok (hex_DecodeString s).
Proof. apply hex_DecodeString_valid_both. Qed.

(** The error of [hex.DecodeString] is one of the package. *)
Lemma hex_DecodeString_error s e :
  hex_DecodeString s = Err e -> exists h, e = EHex h.
Proof.
  revert e. pattern s.
  apply (fun P H0 H => proj1 (String.string_ind
           (fun s => P s /\ forall c, P (String c s)) H0 H s)).
  - split.
    + intros e H. discriminate.
    + intros c e. simpl. destruct (fromHexChar c); intros [= <-]; eexists; reflexivity.
  - intros a r [IH1 IH2]. split; [apply IH2|].
    intros c e. cbn [hex_DecodeString].
    destruct (fromHexChar c); [|intros [= <-]; eexists; reflexivity].
    destruct (fromHexChar a); [|intros [= <-]; eexists; reflexivity].
    destruct (hex_DecodeString r) as [bs|e'] eqn:E; [discriminate|].
    intros [= <-]. apply IH1. reflexivity.
Qed.

(** Text that is not valid hexadecimal is refused, with an error of the
    package. *)
Lemma hex_DecodeString_invalid s :
  valid_hex s = false -> exists h, hex_DecodeString s = Err (EHex h).
Proof.
  intros H. rewrite hex_DecodeString_valid in H.
  destruct (hex_DecodeString s) as [b|e] eqn:E; [discriminate|].
  destruct (hex_DecodeString_error s e E) as [h ->]. exists h. reflexivity.
Qed.

(* ================================================================== *)
(** ** Properties of the frame codec *)
(* ================================================================== *)

(** The examples run on the reference instance. *)
#[local] Existing Instance Reference.package.
#[local] Existing Instance Reference.signer.

(** C3.  For every frame header, with [L] the length it declares: if [L]
    is above 16,777,216 then [readFrame] fails with the [ProtocolError]
    "frame too large", leaves the stream right after the four header
    bytes, and parses nothing (its outcome is the same for every JSON
    package); if [L] is at most 16,777,216 the size check passes:
    [readFrame] never fails with a [ProtocolError], and when [L] bytes
    follow, exactly they are parsed. *)
Theorem readFrame_size_check (JSON : EncodingJSON) hdr rest r :
  usable r -> List.length hdr = 4%nat -> inbound r = hdr ++ rest ->
  (maxFrameSize < Uint32 hdr ->
     @readFrame JSON r =
       (Err (EProtocol (ProtocolError.mk
               ("frame too large: " ++ decimal (Uint32 hdr) ++ " bytes")%string)),
        left rest r)
     /\ forall JSON' : EncodingJSON, @readFrame JSON' r = @readFrame JSON r)
  /\
  (Uint32 hdr <= maxFrameSize ->
     (forall e, fst (@readFrame JSON r) = Err e -> is_ProtocolError e = false)
     /\ forall payload rest',
          rest = payload ++ rest' -> len payload = Uint32 hdr ->
          @readFrame JSON r =
            (match Unmarshal_payload payload with
             | Err e => Err (Wrap "unmarshal response" e)
             | Ok resp => Ok resp
             end, left rest' r)).
Proof.
  intros Hu Hlen Hin. split.
  - intros Hbig. split.
    + apply readFrame_too_large; assumption.
    + intros JSON'.
      rewrite (@readFrame_too_large JSON' hdr rest r) by assumption.
      rewrite (@readFrame_too_large JSON hdr rest r) by assumption.
      reflexivity.
  - intros Hfit. split.
    + intros e. unfold readFrame.
      rewrite (binary_Read_header hdr rest r Hu Hlen Hin).
      destruct (Z.gtb_spec (Uint32 hdr) maxFrameSize); [lia|].
      destruct (ReadFull _ _) as [[payload|e'] r2]; simpl.
      * destruct (Unmarshal_payload payload); simpl; [discriminate|].
        intros [= <-]. reflexivity.
      * intros [= <-]. reflexivity.
    + intros payload rest' -> HL.
      apply (readFrame_payload hdr payload rest' r); auto. lia.
Qed.

(** A header that declares 20,000,000 bytes, and one that declares the
    two bytes of an empty object. *)
Lemma readFrame_size_check_witness :
  let big := PutUint32 20000000 in
  let small := PutUint32 2 in
  (usable (Reference.connected (big ++ [x7b; x7d])) /\
   List.length big = 4%nat /\
   maxFrameSize < Uint32 big /\
   readFrame (Reference.connected (big ++ [x7b; x7d])) =
     (Err (EProtocol (ProtocolError.mk "frame too large: 20000000 bytes")),
      Reference.connected [x7b; x7d]))
  /\
  (Uint32 small <= maxFrameSize /\
   readFrame (Reference.connected (small ++ [x7b; x7d])) =
     (Ok RpcResponse.zero, Reference.connected [])).
Proof.
  cbv zeta.
  assert (Hu : forall b, usable (Reference.connected b)) by (split; reflexivity).
  assert (Hbig : maxFrameSize < Uint32 (PutUint32 20000000)) by (vm_compute; reflexivity).
  assert (Hsmall : Uint32 (PutUint32 2) <= maxFrameSize) by (vm_compute; discriminate).
  split.
  - split; [apply Hu|]. split; [reflexivity|]. split; [exact Hbig|].
    exact (proj1 (proj1 (readFrame_size_check Reference.package
                           (PutUint32 20000000) [x7b; x7d] _ (Hu _) eq_refl eq_refl) Hbig)).
  - split; [exact Hsmall|].
    exact (proj2 (proj2 (readFrame_size_check Reference.package
                           (PutUint32 2) [x7b; x7d] _ (Hu _) eq_refl eq_refl) Hsmall)
             [x7b; x7d] [] eq_refl eq_refl).
Defined.

(** C9.  [writeFrame] has no size check: for every request, whatever
    the length of its payload, writing to a usable connection succeeds
    and puts on the wire the payload length truncated to 32 bits, as
    four big-endian bytes, and then the payload.  The ceiling exists on
    the reading side only: a frame so written whose payload is longer
    than 16 MiB is one that [readFrame] refuses. *)
Theorem writeFrame_no_size_check (JSON : EncodingJSON) req payload w :
  Marshal_RpcRequest req = Ok payload -> usable w ->
  writeFrame req w =
    (Ok tt, sent (PutUint32 (uint32 (len payload)) ++ payload) w)
  /\ Uint32 (PutUint32 (uint32 (len payload))) = len payload mod 2 ^ 32
  /\ (maxFrameSize < len payload < uint32_max ->
      forall r rest,
        usable r ->
        inbound r = (PutUint32 (uint32 (len payload)) ++ payload) ++ rest ->
        exists msg, readFrame r =
          (Err (EProtocol (ProtocolError.mk msg)), left (payload ++ rest) r)).
Proof.
  intros HM Hu. split; [|split].
  - apply writeFrame_usable; assumption.
  - apply Uint32_PutUint32. unfold uint32. apply Z.mod_pos_bound. reflexivity.
  - intros [Hbig Hsmall] r rest Hr Hin.
    rewrite <- app_assoc in Hin. eexists.
    apply (readFrame_too_large (PutUint32 (uint32 (len payload))) (payload ++ rest) r);
      [exact Hr | reflexivity | exact Hin |].
    rewrite Uint32_PutUint32 by (unfold uint32; apply Z.mod_pos_bound; reflexivity).
    rewrite uint32_small by (pose proof (len_nonneg payload); lia).
    exact Hbig.
Qed.

(** The request of the repository's frame test. *)
Lemma writeFrame_no_size_check_witness :
  let req := RpcRequest.mk 1 "test.method" (Some (JObject [("key", JString "value")])) in
  let w := Reference.connected [] in
  exists payload,
    Marshal_RpcRequest req = Ok payload /\ usable w /\
    writeFrame req w = (Ok tt, sent (PutUint32 (uint32 (len payload)) ++ payload) w).
Proof.
  cbv zeta. eexists. split; [reflexivity|]. split; [split; reflexivity|].
  exact (proj1 (writeFrame_no_size_check Reference.package
                  (RpcRequest.mk 1 "test.method" (Some (JObject [("key", JString "value")])))
                  _ (Reference.connected []) eq_refl (conj eq_refl eq_refl))).
Defined.

(** C2, as stated, fails: what [readFrame] returns for the frame that
    [writeFrame] wrote is an [RpcResponse], and of the request only the
    id is in it.  The request of the repository's frame test comes back
    without its method and parameters. *)
Lemma round_trip_drops_method_and_params :
  let req := RpcRequest.mk 1 "test.method" (Some (JObject [("key", JString "value")])) in
  exists w resp r,
    writeFrame req (Reference.connected []) = (Ok tt, w) /\
    readFrame (Reference.connected (outbound w)) = (Ok resp, r) /\
    resp = RpcResponse.mk 1 None None /\
    response_json resp <> request_json req.
Proof.
  cbv zeta. eexists. eexists. eexists.
  split; [vm_compute; reflexivity|].
  split; [vm_compute; reflexivity|].
  split; [reflexivity|].
  vm_compute. discriminate.
Qed.

(** C2, amended.  For every request whose JSON encoding [payload] fits
    a frame (at most 16 MiB) and is a text the package parses back to
    the request's image: [writeFrame] puts on the wire exactly the frame
    of [payload], that is a four-byte big-endian prefix equal to the
    exact byte length of [payload] and then [payload]; [readFrame] on
    that frame consumes exactly the frame and parses exactly [payload];
    and the [RpcResponse] it returns carries the request's id, with no
    result and no error: method and parameters have no place in it. *)
Theorem frame_round_trip (JSON : EncodingJSON) req payload w r rest :
  Marshal_RpcRequest req = Ok payload ->
  json_parse payload = Ok (request_json req) ->
  len payload <= maxFrameSize ->
  0 <= RpcRequest.ID req < uint64_max ->
  usable w -> usable r ->
  inbound r = frame_of payload ++ rest ->
  writeFrame req w = (Ok tt, sent (frame_of payload) w)
  /\ Uint32 (firstn 4 (frame_of payload)) = len payload
  /\ skipn 4 (frame_of payload) = payload
  /\ readFrame r = (Unmarshal_payload payload, left rest r)
  /\ readFrame r = (Ok (RpcResponse.mk (RpcRequest.ID req) None None), left rest r).
Proof.
  intros HM HP Hmax Hid Hw Hr Hin.
  assert (Hlen : 0 <= len payload < uint32_max).
  { pose proof (len_nonneg payload). pose proof maxFrameSize_lt_uint32_max. lia. }
  assert (HU : Unmarshal_payload payload =
               Ok (RpcResponse.mk (RpcRequest.ID req) None None)).
  { unfold Unmarshal_payload. rewrite HP.
    apply Unmarshal_request_image. exact Hid. }
  split; [|split; [|split; [|split]]].
  - rewrite (writeFrame_usable req payload w HM Hw).
    rewrite uint32_small by exact Hlen. reflexivity.
  - unfold frame_of. cbn [PutUint32 app firstn].
    apply (Uint32_PutUint32 (len payload)). exact Hlen.
  - reflexivity.
  - rewrite (readFrame_frame_of payload rest r Hr Hin Hmax).
    rewrite HU. reflexivity.
  - rewrite (readFrame_frame_of payload rest r Hr Hin Hmax).
    rewrite HU. reflexivity.
Qed.

Lemma frame_round_trip_witness :
  let req := RpcRequest.mk 1 "test.method" (Some (JObject [("key", JString "value")])) in
  let payload := list_byte_of_string (Reference.print (request_json req)) in
  Marshal_RpcRequest req = Ok payload /\
  json_parse payload = Ok (request_json req) /\
  len payload <= maxFrameSize /\
  readFrame (Reference.connected (frame_of payload)) =
    (Ok (RpcResponse.mk 1 None None), Reference.connected []).
Proof.
  intros req payload.
  assert (HP : json_parse payload = Ok (request_json req)) by (vm_compute; reflexivity).
  assert (Hmax : len payload <= maxFrameSize) by (vm_compute; discriminate).
  assert (Hid : 0 <= RpcRequest.ID req < uint64_max) by (split; vm_compute; congruence).
  assert (Hu : forall b, usable (Reference.connected b)) by (split; reflexivity).
  split; [reflexivity|]. split; [exact HP|]. split; [exact Hmax|].
  exact (proj2 (proj2 (proj2 (proj2
    (frame_round_trip Reference.package req payload (Reference.connected [])
       (Reference.connected (frame_of payload)) [] eq_refl HP Hmax Hid
       (Hu _) (Hu _) (eq_sym (app_nil_r _))))))).
Defined.

(* ================================================================== *)
(** ** Properties of the dispatcher *)
(* ================================================================== *)

(** C1, as stated, fails: [call] never compares the id of the response
    with the id of its request.  On a fresh client the first request
    goes out with id 1; the peer answers with id 99 and a result, and
    the call succeeds with that result. *)
Lemma call_accepts_foreign_id :
  let c := mkClient (Reference.connected (Reference.frame "{'id':99,'result':true}")) 1 in
  let req := fst (newRequest "credential.list" (Some (JObject [])) c) in
  RpcRequest.ID req = 1 /\
  (exists w resp r,
     writeFrame req (conn c) = (Ok tt, w) /\
     readFrame w = (Ok resp, r) /\
     RpcResponse.ID resp = 99) /\
  fst (call Background "credential.list" (Encodable (JObject [])) c) =
    Ok (Some (JBool true)).
Proof.
  cbv zeta. split; [reflexivity|]. split.
  - eexists. eexists. eexists.
    split; [vm_compute; reflexivity|].
    split; [vm_compute; reflexivity|]. reflexivity.
  - vm_compute. reflexivity.
Qed.

(** C1, amended.  For a call on a ready connection on which a response
    frame of at most 16 MiB is waiting that decodes to [resp]: the
    outcome of the call is what [resp] delivers, and that depends on
    the result and the error payload of [resp] alone, not on its id.
    Without an error payload the call succeeds with the result,
    whatever the id; and the only [ProtocolError] such a call can end in
    is the one for an error payload that does not decode. *)
Theorem call_ignores_response_id (JSON : EncodingJSON)
    ctx method params pb c bytes payload rest resp :
  Marshal_any params = Ok pb ->
  Marshal_RpcRequest (RpcRequest.mk (uint64 (nextID c)) method pb) = Ok bytes ->
  ready ctx (conn c) ->
  inbound (conn c) = frame_of payload ++ rest ->
  len payload <= maxFrameSize ->
  Unmarshal_payload payload = Ok resp ->
  fst (call ctx method params c) = deliver resp
  /\ (forall id,
        deliver (RpcResponse.mk id (RpcResponse.Result resp) (RpcResponse.Error resp))
        = deliver resp)
  /\ (RpcResponse.Error resp = None ->
      fst (call ctx method params c) = Ok (RpcResponse.Result resp))
  /\ (forall e,
        fst (call ctx method params c) = Err e -> is_ProtocolError e = true ->
        RpcResponse.Error resp <> None /\
        e = EProtocol (ProtocolError.mk "failed to parse error response")).
Proof.
  intros HA HM Hready Hin Hmax HU.
  assert (Hcall : fst (call ctx method params c) = deliver resp).
  { rewrite (call_ready ctx method params pb c bytes payload rest HA HM Hready Hin Hmax).
    rewrite HU. reflexivity. }
  split; [exact Hcall|]. split; [|split].
  - intros id. destruct resp as [id' result err]. apply deliver_any_id.
  - intros HE. rewrite Hcall. apply deliver_result. exact HE.
  - intros e He Hp. rewrite Hcall in He. unfold deliver in He.
    destruct (RpcResponse.Error resp) as [v|] eqn:HE; [|discriminate].
    split; [discriminate|].
    destruct (Unmarshal_VaultError (Some v)); injection He as <-;
      [discriminate | reflexivity].
Qed.

Lemma call_ignores_response_id_witness :
  let c := mkClient (Reference.connected (Reference.frame "{'id':99,'result':true}")) 1 in
  exists bytes payload resp,
    Marshal_RpcRequest (RpcRequest.mk (uint64 (nextID c)) "credential.list"
                          (Some (JObject []))) = Ok bytes /\
    ready Background (conn c) /\
    inbound (conn c) = frame_of payload ++ [] /\
    len payload <= maxFrameSize /\
    Unmarshal_payload payload = Ok resp /\
    RpcResponse.ID resp = 99 /\
    fst (call Background "credential.list" (Encodable (JObject [])) c) =
      Ok (RpcResponse.Result resp).
Proof.
  intros c.
  exists (list_byte_of_string
            (Reference.print (request_json (RpcRequest.mk 1 "credential.list" (Some (JObject [])))))).
  exists (list_byte_of_string (Reference.text_of "{'id':99,'result':true}")).
  exists (RpcResponse.mk 99 (Some (JBool true)) None).
  assert (Hready : ready Background (conn c)) by (split; reflexivity).
  assert (Hin : inbound (conn c) =
                frame_of (list_byte_of_string (Reference.text_of "{'id':99,'result':true}")) ++ [])
    by (rewrite app_nil_r; reflexivity).
  assert (Hmax : len (list_byte_of_string (Reference.text_of "{'id':99,'result':true}"))
                 <= maxFrameSize) by (vm_compute; discriminate).
  assert (HU : Unmarshal_payload
                 (list_byte_of_string (Reference.text_of "{'id':99,'result':true}"))
               = Ok (RpcResponse.mk 99 (Some (JBool true)) None))
    by (vm_compute; reflexivity).
  split; [reflexivity|]. split; [exact Hready|]. split; [exact Hin|].
  split; [exact Hmax|]. split; [exact HU|]. split; [reflexivity|].
  exact (proj1 (proj2 (proj2
    (call_ignores_response_id Reference.package Background "credential.list"
       (Encodable (JObject [])) (Some (JObject [])) c _ _ [] _
       eq_refl eq_refl Hready Hin Hmax HU))) eq_refl).
Defined.

(** C4, as stated, fails: a response can carry an error payload and the
    call return no [VaultError].  When the payload does not decode as a
    [VaultError], the dispatcher answers with the [ProtocolError]
    "failed to parse error response" and what the vault sent is lost:
    so for a payload that is a string, and for an object whose [detail]
    is a number (its [code] and [message] are not reported either). *)
Lemma undecodable_error_is_ProtocolError :
  let text1 := "{'id':1,'error':'boom'}" in
  let text2 := "{'id':1,'error':{'code':'ACCESS_DENIED','message':'denied','detail':5}}" in
  let c1 := mkClient (Reference.connected (Reference.frame text1)) 1 in
  let c2 := mkClient (Reference.connected (Reference.frame text2)) 1 in
  let failure := EProtocol (ProtocolError.mk "failed to parse error response") in
  (exists w resp r,
     writeFrame (fst (newRequest "credential.list" (Some (JObject [])) c1)) (conn c1)
       = (Ok tt, w) /\
     readFrame w = (Ok resp, r) /\
     RpcResponse.Error resp = Some (JString "boom")) /\
  fst (call Background "credential.list" (Encodable (JObject [])) c1) = Err failure /\
  (exists w resp r,
     writeFrame (fst (newRequest "credential.list" (Some (JObject [])) c2)) (conn c2)
       = (Ok tt, w) /\
     readFrame w = (Ok resp, r) /\
     RpcResponse.Error resp =
       Some (JObject [("code", JString ErrAccessDenied); ("message", JString "denied");
                      ("detail", JInt 5)])) /\
  fst (call Background "credential.list" (Encodable (JObject [])) c2) = Err failure /\
  is_VaultError failure = false.
Proof.
  cbv zeta. split; [|split; [|split; [|split]]].
  - eexists. eexists. eexists.
    split; [vm_compute; reflexivity|].
    split; [vm_compute; reflexivity|]. reflexivity.
  - vm_compute. reflexivity.
  - eexists. eexists. eexists.
    split; [vm_compute; reflexivity|].
    split; [vm_compute; reflexivity|]. reflexivity.
  - vm_compute. reflexivity.
  - reflexivity.
Qed.

(** C4, amended.  For a call on a ready connection whose response frame
    decodes to a response that carries an error payload: the call never
    returns a success; it fails with a [VaultError] or with the
    [ProtocolError] "failed to parse error response".  A [VaultError]
    it returns has every field equal to what the payload sends for it:
    [Code] and [Message] are the strings sent as [code] and [message],
    and [Detail], [Suggestion], [DocsURL] and [Context] those sent as
    [detail], [suggestion], [docs_url] and [context] (empty where none
    is sent).  A payload that is an object gives a [VaultError] exactly
    when it has the shape of the wire protocol (each of these members
    absent, [null] or of its type), and the [ProtocolError] otherwise.
    [Code] is a field of its own: it is the string sent as [code]
    whatever the message says. *)
Theorem call_returns_VaultError (JSON : EncodingJSON)
    ctx method params pb c bytes payload rest resp v :
  Marshal_any params = Ok pb ->
  Marshal_RpcRequest (RpcRequest.mk (uint64 (nextID c)) method pb) = Ok bytes ->
  ready ctx (conn c) ->
  inbound (conn c) = frame_of payload ++ rest ->
  len payload <= maxFrameSize ->
  Unmarshal_payload payload = Ok resp ->
  RpcResponse.Error resp = Some v ->
  is_Ok (fst (call ctx method params c)) = false
  /\ ((exists e, fst (call ctx method params c) = Err (EVault e)) \/
      fst (call ctx method params c) =
        Err (EProtocol (ProtocolError.mk "failed to parse error response")))
  /\ (forall e,
        fst (call ctx method params c) = Err (EVault e) ->
        e = VaultError.mk
              (string_sent "code" "" (members (Some v)))
              (string_sent "message" "" (members (Some v)))
              (string_sent "detail" "" (members (Some v)))
              (string_sent "suggestion" "" (members (Some v)))
              (string_sent "docs_url" "" (members (Some v)))
              (raw_sent "context" None (members (Some v))))
  /\ (forall ms, v = JObject ms -> error_shaped ms ->
        fst (call ctx method params c) =
          Err (EVault (VaultError.mk
                 (string_sent "code" "" ms)
                 (string_sent "message" "" ms)
                 (string_sent "detail" "" ms)
                 (string_sent "suggestion" "" ms)
                 (string_sent "docs_url" "" ms)
                 (raw_sent "context" None ms))))
  /\ (forall ms, v = JObject ms -> ~ error_shaped ms ->
        fst (call ctx method params c) =
          Err (EProtocol (ProtocolError.mk "failed to parse error response")))
  /\ (forall ms code, v = JObject ms -> error_shaped ms ->
        sends "code" ms = Some (JString code) ->
        exists e, fst (call ctx method params c) = Err (EVault e)
                  /\ VaultError.Code e = code).
Proof.
  intros HA HM Hready Hin Hmax HU HE.
  assert (Hcall : fst (call ctx method params c) = deliver resp).
  { rewrite (call_ready ctx method params pb c bytes payload rest HA HM Hready Hin Hmax).
    rewrite HU. reflexivity. }
  rewrite Hcall, (deliver_error resp v HE).
  assert (Hshape : forall ms, v = JObject ms -> error_shaped ms ->
            Unmarshal_VaultError (Some v) =
              Ok (VaultError.mk
                    (string_sent "code" "" ms)
                    (string_sent "message" "" ms)
                    (string_sent "detail" "" ms)
                    (string_sent "suggestion" "" ms)
                    (string_sent "docs_url" "" ms)
                    (raw_sent "context" None ms))).
  { intros ms -> Hs. unfold Unmarshal_VaultError, Unmarshal_struct.
    rewrite (store_VaultError ms VaultError.zero Hs). reflexivity. }
  split; [|split; [|split; [|split; [|split]]]].
  - destruct (Unmarshal_VaultError (Some v)); reflexivity.
  - destruct (Unmarshal_VaultError (Some v)) as [e|err];
      [left; exists e; reflexivity | right; reflexivity].
  - intros e He.
    destruct (Unmarshal_VaultError (Some v)) as [e'|err] eqn:E; [|discriminate].
    injection He as <-. exact (proj2 (Unmarshal_VaultError_members v e' E)).
  - intros ms Hv Hs. rewrite (Hshape ms Hv Hs). reflexivity.
  - intros ms Hv Hn.
    destruct (Unmarshal_VaultError (Some v)) as [e|err] eqn:E; [|reflexivity].
    exfalso. apply Hn. subst v.
    exact (proj1 (Unmarshal_VaultError_members (JObject ms) e E)).
  - intros ms code Hv Hs Hcode. rewrite (Hshape ms Hv Hs).
    eexists. split; [reflexivity|].
    cbn [VaultError.Code]. unfold string_sent, value_sent. rewrite Hcode. reflexivity.
Qed.

(** The vault answers that there is no such path. *)
Lemma call_returns_VaultError_witness :
  let text := "{'id':1,'error':{'code':'CREDENTIAL_NOT_FOUND','message':'no such path'}}" in
  let c := mkClient (Reference.connected (Reference.frame text)) 1 in
  let ms := [("code", JString "CREDENTIAL_NOT_FOUND"); ("message", JString "no such path")] in
  error_shaped ms /\
  Unmarshal_payload (list_byte_of_string (Reference.text_of text)) =
    Ok (RpcResponse.mk 1 None (Some (JObject ms))) /\
  fst (call Background "credential.retrieve"
         (Encodable (JObject [("path", JString "db/none"); ("ttl", JInt 300)])) c) =
    Err (EVault (VaultError.mk ErrCredentialNotFound "no such path" "" "" "" None)).
Proof.
  intros text c ms.
  assert (Hs : error_shaped ms).
  { repeat split; intros k v [[= <- <-]|[[= <- <-]|[]]] Hn;
      solve [discriminate Hn | right; eexists; reflexivity]. }
  assert (Hready : ready Background (conn c)) by (split; reflexivity).
  assert (Hin : inbound (conn c) =
                frame_of (list_byte_of_string (Reference.text_of text)) ++ [])
    by (rewrite app_nil_r; reflexivity).
  assert (Hmax : len (list_byte_of_string (Reference.text_of text)) <= maxFrameSize)
    by (vm_compute; discriminate).
  assert (HU : Unmarshal_payload (list_byte_of_string (Reference.text_of text))
               = Ok (RpcResponse.mk 1 None (Some (JObject ms))))
    by (vm_compute; reflexivity).
  split; [exact Hs|]. split; [exact HU|].
  exact (proj1 (proj2 (proj2 (proj2
    (call_returns_VaultError Reference.package Background "credential.retrieve"
       (Encodable (JObject [("path", JString "db/none"); ("ttl", JInt 300)]))
       _ c _ _ [] _ (JObject ms)
       eq_refl eq_refl Hready Hin Hmax HU eq_refl)))) ms eq_refl Hs).
Defined.

(* ================================================================== *)
(** ** The request counter *)
(* ================================================================== *)







Section CounterFacts.
Context {JSON : EncodingJSON}.



End CounterFacts.


(* ================================================================== *)
(** ** Cancellation *)
(* ================================================================== *)

Section CancellationFacts.
Context {JSON : EncodingJSON}.

Lemma ReadFull_outbound n k : outbound (snd (ReadFull n k)) = outbound k.
Proof.
  unfold ReadFull. destruct n; [reflexivity|].
  destruct (closed k); [reflexivity|].
  destruct (expired k); [reflexivity|].
  destruct (S n <=? List.length (inbound k))%nat; reflexivity.
Qed.

(** Reading a frame writes nothing. *)
Lemma readFrame_outbound k : outbound (snd (readFrame k)) = outbound k.
Proof.
  unfold readFrame, binary_Read.
  pose proof (ReadFull_outbound 4 k) as H4.
  destruct (ReadFull 4 k) as [[b|e] k1]; cbn [snd] in H4 |- *; [|exact H4].
  destruct (Uint32 b >? maxFrameSize); [exact H4|].
  pose proof (ReadFull_outbound (Z.to_nat (Uint32 b)) k1) as HL.
  destruct (ReadFull (Z.to_nat (Uint32 b)) k1) as [[p|e] k2]; cbn [snd] in HL |- *.
  - destruct (Unmarshal_payload p); cbn [snd]; congruence.
  - congruence.
Qed.

(** A call under a context without deadline puts its request on a
    usable connection, whether or not the context is done. *)
Lemma call_sends_when_done done method params pb c bytes :
  Marshal_any params = Ok pb ->
  Marshal_RpcRequest (RpcRequest.mk (uint64 (nextID c)) method pb) = Ok bytes ->
  usable (conn c) ->
  outbound (conn (snd (call (mkContext None done) method params c))) =
    outbound (conn c) ++ PutUint32 (uint32 (len bytes)) ++ bytes.
Proof.
  intros HA HM Hu. unfold call. rewrite HA, newRequest_value.
  cbn [Deadline conn nextID]. unfold exchange.
  rewrite (writeFrame_usable _ bytes (conn c) HM Hu).
  pose proof (readFrame_outbound (sent (PutUint32 (uint32 (len bytes)) ++ bytes) (conn c))) as H.
  destruct (readFrame _) as [[resp|e] k2]; cbn [snd conn] in H |- *; exact H.
Qed.

(** The sibling path: a call under a context whose deadline has passed
    by the time it holds the connection fails on its first write, and
    nothing of its request is sent. *)
Lemma call_past_deadline_sends_nothing d done method params pb c bytes :
  Marshal_any params = Ok pb ->
  Marshal_RpcRequest (RpcRequest.mk (uint64 (nextID c)) method pb) = Ok bytes ->
  closed (conn c) = false ->
  d <= now (conn c) ->
  fst (call (mkContext (Some d) done) method params c) =
    Err (Wrap "write length" (EIO ErrDeadlineExceeded))
  /\ outbound (conn (snd (call (mkContext (Some d) done) method params c))) =
     outbound (conn c).
Proof.
  intros HA HM Hc Hd.
  assert (H : call (mkContext (Some d) done) method params c =
              (Err (Wrap "write length" (EIO ErrDeadlineExceeded)),
               mkClient (cleared (conn c)) (uint64 (nextID c + 1)))).
  { unfold call. rewrite HA, newRequest_value.
    cbn [Deadline conn nextID]. unfold SetDeadline at 1. rewrite Hc.
    unfold exchange, writeFrame. rewrite HM.
    unfold binary_Write, Write, expired. cbn [closed deadline now].
    apply Z.leb_le in Hd. rewrite Hd.
    unfold SetDeadline, cleared. cbn. rewrite Hc. reflexivity. }
  rewrite H. split; reflexivity.
Qed.

End CancellationFacts.

(** C6, on the code: an operation whose context was cancelled before
    it got hold of the connection, and that carries no deadline, sends
    its request all the same.  Here the whole request frame of
    [credential.list] is on the wire after [List] returns. *)
Lemma cancelled_call_sends_request :
  let cancelled := mkContext None true in
  let c := mkClient (Reference.connected []) 1 in
  let request := RpcRequest.mk 1 "credential.list" (Some (JObject [])) in
  exists bytes,
    Marshal_RpcRequest request = Ok bytes /\
    outbound (conn (snd (List cancelled c))) = frame_of bytes /\
    frame_of bytes <> [].
Proof.
  cbv zeta. eexists. split; [reflexivity|]. split.
  - vm_compute. reflexivity.
  - vm_compute. discriminate.
Qed.

(* ================================================================== *)
(** ** Properties of the handshake and of the credential calls *)
(* ================================================================== *)

(** C7.  When the first call of [Authenticate] succeeds and the
    challenge it returns is not valid hexadecimal text, [Authenticate]
    fails with the decoding error of encoding/hex, wrapped as
    "decode challenge hex", and the client is left exactly as the
    [auth.challenge] call left it: one request id used, nothing written
    after that call, nothing more read.  No [auth.verify] request is
    made and there is no second attempt. *)
Theorem malformed_challenge_stops_handshake (JSON : EncodingJSON) (ED : Ed25519)
    ctx agentName privateKey c result c1 challenge :
  call ctx "auth.challenge" (Encodable (JObject [("agent", JString agentName)])) c
    = (Ok result, c1) ->
  Unmarshal_authChallenge result = Ok challenge ->
  valid_hex (authChallenge.Challenge challenge) = false ->
  (exists h,
     Authenticate ctx agentName privateKey c =
       (Returns (Some (Wrap "decode challenge hex" (EHex h))), c1))
  /\ nextID (snd (Authenticate ctx agentName privateKey c)) = uint64 (nextID c + 1)
  /\ outbound (conn (snd (Authenticate ctx agentName privateKey c))) = outbound (conn c1)
  /\ inbound (conn (snd (Authenticate ctx agentName privateKey c))) = inbound (conn c1).
Proof.
  intros Hcall Hch Hhex.
  destruct (hex_DecodeString_invalid _ Hhex) as [h Hh].
  assert (HA : Authenticate ctx agentName privateKey c =
               (Returns (Some (Wrap "decode challenge hex" (EHex h))), c1)).
  { unfold Authenticate. rewrite Hcall, Hch, Hh. reflexivity. }
  split; [exists h; exact HA|].
  rewrite HA. cbn [snd]. split; [|split; reflexivity].
  pose proof (call_nextID ctx "auth.challenge"
                (Encodable (JObject [("agent", JString agentName)])) c) as Hn.
  rewrite Hcall in Hn. exact Hn.
Qed.

(** The vault sends a challenge that is no hexadecimal text, and has an
    answer to [auth.verify] ready: it stays unread. *)
Lemma malformed_challenge_stops_handshake_witness :
  let verify := Reference.frame "{'id':2,'result':{'authenticated':true,'session_id':'S'}}" in
  let c := mkClient (Reference.connected
                       (Reference.frame "{'id':1,'result':{'challenge':'zz'}}" ++ verify)) 1 in
  exists c1,
    call Background "auth.challenge" (Encodable (JObject [("agent", JString "agent-1")])) c
      = (Ok (Some (JObject [("challenge", JString "zz")])), c1) /\
    valid_hex "zz" = false /\
    (exists h, Authenticate Background "agent-1" Reference.key c =
                 (Returns (Some (Wrap "decode challenge hex" (EHex h))), c1)) /\
    nextID c1 = 2 /\
    inbound (conn c1) = verify.
Proof.
  intros verify c. eexists.
  assert (Hcall : call Background "auth.challenge"
                    (Encodable (JObject [("agent", JString "agent-1")])) c
                  = (Ok (Some (JObject [("challenge", JString "zz")])),
                     snd (call Background "auth.challenge"
                            (Encodable (JObject [("agent", JString "agent-1")])) c)))
    by (vm_compute; reflexivity).
  split; [exact Hcall|]. split; [reflexivity|].
  split; [|split; vm_compute; reflexivity].
  exact (proj1 (malformed_challenge_stops_handshake Reference.package Reference.signer
                  Background "agent-1" Reference.key c _ _ (authChallenge.mk "zz")
                  Hcall eq_refl eq_refl)).
Defined.

(** C8.  For a [Retrieve] on a ready connection whose response frame
    decodes to a response without error payload: whenever [Retrieve]
    returns a credential, its [TTL] is the [ttl] that the result of the
    response sends (when it sends [t], the credential carries [t]);
    a result that is a credential in the shape of the wire protocol is
    accepted and returned without error; and what [Retrieve] returns is
    the same whatever [ttl] is asked for: the value asked for goes into
    the request and is looked at nowhere else. *)
Theorem Retrieve_returns_server_ttl (JSON : EncodingJSON)
    ctx path ttl c bytes payload rest resp :
  Marshal_RpcRequest
    (RpcRequest.mk (uint64 (nextID c)) "credential.retrieve"
       (Some (JObject [("path", JString path); ("ttl", JInt ttl)]))) = Ok bytes ->
  ready ctx (conn c) ->
  inbound (conn c) = frame_of payload ++ rest ->
  len payload <= maxFrameSize ->
  Unmarshal_payload payload = Ok resp ->
  RpcResponse.Error resp = None ->
  (forall cred,
     fst (Retrieve ctx path ttl c) = Ok cred ->
     Credential.TTL cred = uint_sent "ttl" 0 (members (RpcResponse.Result resp))
     /\ forall t, sends "ttl" (members (RpcResponse.Result resp)) = Some (JInt t) ->
                  Credential.TTL cred = t)
  /\ (forall ms,
        RpcResponse.Result resp = Some (JObject ms) -> credential_shaped ms ->
        exists cred, fst (Retrieve ctx path ttl c) = Ok cred)
  /\ (forall ttl' bytes',
        Marshal_RpcRequest
          (RpcRequest.mk (uint64 (nextID c)) "credential.retrieve"
             (Some (JObject [("path", JString path); ("ttl", JInt ttl')]))) = Ok bytes' ->
        fst (Retrieve ctx path ttl' c) = fst (Retrieve ctx path ttl c)).
Proof.
  intros HM Hready Hin Hmax HU HE.
  assert (Hany : forall ttl' bytes',
            Marshal_RpcRequest
              (RpcRequest.mk (uint64 (nextID c)) "credential.retrieve"
                 (Some (JObject [("path", JString path); ("ttl", JInt ttl')]))) = Ok bytes' ->
            fst (Retrieve ctx path ttl' c) =
              match Unmarshal_Credential (RpcResponse.Result resp) with
              | Err e => Err (Wrap "parse credential" e)
              | Ok cred => Ok cred
              end).
  { intros ttl' bytes' HM'. unfold Retrieve.
    rewrite (call_ready ctx "credential.retrieve"
               (Encodable (JObject [("path", JString path); ("ttl", JInt ttl')]))
               (Some (JObject [("path", JString path); ("ttl", JInt ttl')]))
               c bytes' payload rest eq_refl HM' Hready Hin Hmax).
    rewrite HU, (deliver_result resp HE).
    destruct (Unmarshal_Credential (RpcResponse.Result resp)); reflexivity. }
  split; [|split].
  - intros cred Hcred. rewrite (Hany ttl bytes HM) in Hcred.
    destruct (Unmarshal_Credential (RpcResponse.Result resp)) as [cred'|e] eqn:E;
      [|discriminate].
    injection Hcred as ->.
    destruct (Unmarshal_Credential_members _ _ E) as [(_ & _ & Httl) ->].
    cbn [Credential.TTL]. split; [reflexivity|].
    intros t Ht. unfold uint_sent, value_sent. rewrite Ht.
    destruct (sends_member "ttl" _ (JInt t) Ht) as [[k [Hin' Hk]] _].
    destruct (Httl k (JInt t) Hin' Hk) as [Hnull|[a Ha]]; [discriminate|].
    cbn [as_uint64] in Ha |- *.
    destruct (_ && _)%bool; [reflexivity | discriminate].
  - intros ms HR Hs. rewrite (Hany ttl bytes HM), HR.
    unfold Unmarshal_Credential, Unmarshal_struct.
    rewrite (store_Credential ms Credential.zero Hs). eexists. reflexivity.
  - intros ttl' bytes' HM'. rewrite (Hany ttl' bytes' HM'), (Hany ttl bytes HM).
    reflexivity.
Qed.

(** 300 seconds are asked for and the vault grants 60. *)
Lemma Retrieve_returns_server_ttl_witness :
  let text := "{'id':1,'result':{'path':'db/primary','value':'s3cr3t','lease_id':'L1','ttl':60}}" in
  let c := mkClient (Reference.connected (Reference.frame text)) 1 in
  let ms := [("path", JString "db/primary"); ("value", JString "s3cr3t");
             ("lease_id", JString "L1"); ("ttl", JInt 60)] in
  credential_shaped ms /\
  Unmarshal_payload (list_byte_of_string (Reference.text_of text)) =
    Ok (RpcResponse.mk 1 (Some (JObject ms)) None) /\
  exists cred,
    fst (Retrieve Background "db/primary" 300 c) = Ok cred /\ Credential.TTL cred = 60.
Proof.
  intros text c ms.
  assert (Hs : credential_shaped ms).
  { repeat split; intros k v [[= <- <-]|[[= <- <-]|[[= <- <-]|[[= <- <-]|[]]]]] Hn;
      solve [discriminate Hn | right; eexists; reflexivity]. }
  assert (Hready : ready Background (conn c)) by (split; reflexivity).
  assert (Hin : inbound (conn c) =
                frame_of (list_byte_of_string (Reference.text_of text)) ++ [])
    by (rewrite app_nil_r; reflexivity).
  assert (Hmax : len (list_byte_of_string (Reference.text_of text)) <= maxFrameSize)
    by (vm_compute; discriminate).
  assert (HU : Unmarshal_payload (list_byte_of_string (Reference.text_of text))
               = Ok (RpcResponse.mk 1 (Some (JObject ms)) None))
    by (vm_compute; reflexivity).
  split; [exact Hs|]. split; [exact HU|].
  destruct (Retrieve_returns_server_ttl Reference.package Background "db/primary" 300
              c _ _ [] _ eq_refl Hready Hin Hmax HU eq_refl)
    as [Hsent [Haccepted _]].
  destruct (Haccepted ms eq_refl Hs) as [cred Hcred].
  exists cred. split; [exact Hcred|].
  apply (proj2 (Hsent cred Hcred)). reflexivity.
Defined.

(** C10.  For a private key of the size ed25519 takes, [Authenticate]
    returns, and what it gives its caller is an [error] and nothing
    else.  The error is [nil] exactly when both calls succeed, the
    challenge decodes and the result of [auth.verify] decodes with
    [authenticated] true; in every other case it is not [nil].  The
    client it leaves is the client its last call left: the connection
    and the counter, moved by the calls.  When the result of
    [auth.verify] is in the shape of the wire protocol, the error is
    decided by what it sends as [authenticated] alone: the [session_id]
    has no part in what the caller gets, and it is not in the client. *)
Theorem Authenticate_keeps_no_session (JSON : EncodingJSON) (ED : Ed25519)
    ctx agentName privateKey c :
  List.length privateKey = PrivateKeySize ->
  (exists err,
     fst (Authenticate ctx agentName privateKey c) = Returns err /\
     (err = None <->
      exists result challenge challengeBytes verifyResult auth,
        fst (challengeCall ctx agentName c) = Ok result /\
        Unmarshal_authChallenge result = Ok challenge /\
        hex_DecodeString (authChallenge.Challenge challenge) = Ok challengeBytes /\
        fst (verifyCall ctx agentName (signature_of privateKey challengeBytes)
               (snd (challengeCall ctx agentName c))) = Ok verifyResult /\
        Unmarshal_authResult verifyResult = Ok auth /\
        authResult.Authenticated auth = true))
  /\
  (snd (Authenticate ctx agentName privateKey c) = snd (challengeCall ctx agentName c)
   \/ exists signature,
        snd (Authenticate ctx agentName privateKey c) =
          snd (verifyCall ctx agentName signature (snd (challengeCall ctx agentName c))))
  /\
  (forall result challenge challengeBytes ms,
     fst (challengeCall ctx agentName c) = Ok result ->
     Unmarshal_authChallenge result = Ok challenge ->
     hex_DecodeString (authChallenge.Challenge challenge) = Ok challengeBytes ->
     fst (verifyCall ctx agentName (signature_of privateKey challengeBytes)
            (snd (challengeCall ctx agentName c))) = Ok (Some (JObject ms)) ->
     verdict_shaped ms ->
     Authenticate ctx agentName privateKey c =
       (Returns (if bool_sent "authenticated" false ms
                 then None
                 else Some (Errorf "authentication rejected by server")),
        snd (verifyCall ctx agentName (signature_of privateKey challengeBytes)
               (snd (challengeCall ctx agentName c))))).
Proof.
  intros Hkey.
  unfold challengeCall, verifyCall, Authenticate, ed25519_Sign.
  rewrite Hkey, Nat.eqb_refl.
  destruct (call ctx "auth.challenge" _ c) as [[result|e1] c1] eqn:H1; cbn [fst snd].
  2: { split; [eexists; split; [reflexivity|split; [discriminate|]]
              |split; [left; reflexivity|]].
       - intros (r & ch & b & v & a & E1 & _). discriminate.
       - intros r ch b ms E1. discriminate. }
  destruct (Unmarshal_authChallenge result) as [challenge|e2] eqn:H2; cbn [fst snd].
  2: { split; [eexists; split; [reflexivity|split; [discriminate|]]
              |split; [left; reflexivity|]].
       - intros (r & ch & b & v & a & E1 & E2 & _). congruence.
       - intros r ch b ms E1 E2. congruence. }
  destruct (hex_DecodeString (authChallenge.Challenge challenge))
    as [challengeBytes|e3] eqn:H3; cbn [fst snd].
  2: { split; [eexists; split; [reflexivity|split; [discriminate|]]
              |split; [left; reflexivity|]].
       - intros (r & ch & b & v & a & E1 & E2 & E3 & _). congruence.
       - intros r ch b ms E1 E2 E3. congruence. }
  assert (Hsame : forall r ch b,
            Ok result = Ok r -> Unmarshal_authChallenge r = Ok ch ->
            hex_DecodeString (authChallenge.Challenge ch) = Ok b ->
            b = challengeBytes).
  { intros r ch b E1 E2 E3.
    assert (r = result) by congruence. subst r.
    assert (ch = challenge) by congruence. subst ch. congruence. }
  destruct (call ctx "auth.verify" _ c1) as [[verifyResult|e4] c2] eqn:H4; cbn [fst snd].
  2: { split; [eexists; split; [reflexivity|split; [discriminate|]]|split].
       - intros (r & ch & b & v & a & E1 & E2 & E3 & E4 & _).
         rewrite (Hsame r ch b E1 E2 E3), H4 in E4. discriminate.
       - right. exists (signature_of privateKey challengeBytes). rewrite H4. reflexivity.
       - intros r ch b ms E1 E2 E3 E4.
         rewrite (Hsame r ch b E1 E2 E3), H4 in E4. discriminate. }
  destruct (Unmarshal_authResult verifyResult) as [auth|e5] eqn:H5; cbn [fst snd].
  2: { split; [eexists; split; [reflexivity|split; [discriminate|]]|split].
       - intros (r & ch & b & v & a & E1 & E2 & E3 & E4 & E5 & _).
         rewrite (Hsame r ch b E1 E2 E3), H4 in E4. cbn [fst] in E4. congruence.
       - right. exists (signature_of privateKey challengeBytes). rewrite H4. reflexivity.
       - intros r ch b ms E1 E2 E3 E4 Hs.
         rewrite (Hsame r ch b E1 E2 E3), H4 in E4. cbn [fst] in E4.
         injection E4 as ->.
         unfold Unmarshal_authResult, Unmarshal_struct in H5.
         rewrite (store_authResult ms authResult.zero Hs) in H5. discriminate. }
  split; [|split].
  - destruct (authResult.Authenticated auth) eqn:Hauth; cbn [negb fst];
      eexists; (split; [reflexivity|]); split.
    + intros _. exists result, challenge, challengeBytes, verifyResult, auth.
      rewrite H4. repeat split; assumption.
    + reflexivity.
    + discriminate.
    + intros (r & ch & b & v & a & E1 & E2 & E3 & E4 & E5 & E6).
      rewrite (Hsame r ch b E1 E2 E3), H4 in E4. cbn [fst] in E4.
      assert (a = auth) by congruence. subst a. congruence.
  - right. exists (signature_of privateKey challengeBytes). rewrite H4.
    destruct (negb (authResult.Authenticated auth)); reflexivity.
  - intros r ch b ms E1 E2 E3 E4 Hs.
    rewrite (Hsame r ch b E1 E2 E3), H4 in E4 |- *. cbn [fst snd] in E4 |- *.
    injection E4 as ->.
    unfold Unmarshal_authResult, Unmarshal_struct in H5.
    rewrite (store_authResult ms authResult.zero Hs) in H5.
    injection H5 as <-. cbn [authResult.Authenticated authResult.zero].
    destruct (bool_sent "authenticated" false ms); reflexivity.
Qed.

(** A handshake that goes through: the vault sends the session [S-1]
    with its verdict; the caller gets [nil], and the client it holds
    afterwards is its connection, read to the end, and its counter. *)
Lemma Authenticate_keeps_no_session_witness :
  let challenge := "{'id':1,'result':{'challenge':'00ff'}}" in
  let verdict := "{'id':2,'result':{'authenticated':true,'session_id':'S-1'}}" in
  let c := mkClient (Reference.connected
                       (Reference.frame challenge ++ Reference.frame verdict)) 1 in
  let ms := [("authenticated", JBool true); ("session_id", JString "S-1")] in
  List.length Reference.key = PrivateKeySize /\
  verdict_shaped ms /\
  fst (Authenticate Background "agent-1" Reference.key c) = Returns None /\
  nextID (snd (Authenticate Background "agent-1" Reference.key c)) = 3 /\
  inbound (conn (snd (Authenticate Background "agent-1" Reference.key c))) = [].
Proof.
  intros challenge verdict c ms.
  assert (Hs : verdict_shaped ms).
  { repeat split; intros k v [[= <- <-]|[[= <- <-]|[]]] Hn;
      solve [discriminate Hn | right; eexists; reflexivity]. }
  split; [reflexivity|]. split; [exact Hs|].
  pose proof (proj2 (proj2
    (Authenticate_keeps_no_session Reference.package Reference.signer
       Background "agent-1" Reference.key c eq_refl))
    (Some (JObject [("challenge", JString "00ff")])) (authChallenge.mk "00ff")
    [x00; xff] ms) as H.
  assert (HA : Authenticate Background "agent-1" Reference.key c =
               (Returns None,
                snd (verifyCall Background "agent-1"
                       (signature_of Reference.key [x00; xff])
                       (snd (challengeCall Background "agent-1" c))))).
  { apply H; [vm_compute; reflexivity | reflexivity | reflexivity
             | vm_compute; reflexivity | exact Hs]. }
  rewrite HA. cbn [fst snd].
  split; [reflexivity|]. split; vm_compute; reflexivity.
Defined.

(* ================================================================== *)
(** ** Decoding the other wire types *)
(* ================================================================== *)

Lemma store_RpcResponse ms : forall acc,
  response_shaped ms ->
  store_members set_RpcResponse ms acc =
    Ok (RpcResponse.mk
          (uint_sent "id" (RpcResponse.ID acc) ms)
          (raw_sent "result" (RpcResponse.Result acc) ms)
          (raw_sent "error" (RpcResponse.Error acc) ms)).
Proof.
  induction ms as [|[k v] ms IH]; intros acc Hs.
  - destruct acc. reflexivity.
  - assert (Hs' : response_shaped ms) by (eapply typed_tail; eassumption).
    unfold uint_sent.
    rewrite (value_sent_cons as_uint64) by (reflexivity || assumption).
    rewrite !raw_sent_cons.
    destruct acc as [id result err].
    cbn [store_members]. unfold set_RpcResponse.
    cbn [RpcResponse.ID RpcResponse.Result RpcResponse.Error].
    destruct (names k "id") eqn:E1.
    { rewrite (into_uint64_typed "id" v id (typed_head _ _ _ _ _ Hs E1)).
      other_fields k. rewrite (IH _ Hs'). reflexivity. }
    destruct (names k "result") eqn:E2.
    { other_fields k. rewrite (IH _ Hs'). reflexivity. }
    destruct (names k "error") eqn:E3.
    { rewrite (IH _ Hs'). reflexivity. }
    rewrite (IH _ Hs'). reflexivity.
Qed.

Lemma store_RpcResponse_shaped ms acc r :
  store_members set_RpcResponse ms acc = Ok r -> response_shaped ms.
Proof.
  intros H. unfold response_shaped.
  eapply store_members_typed; [|exact H].
  intros k v [id result err] acc' Hk Hset.
  unfold set_RpcResponse in Hset. rewrite Hk in Hset.
  refuses_other_types.
Qed.

Lemma store_CredentialInfo ms : forall acc,
  info_shaped ms ->
  store_members set_CredentialInfo ms acc =
    Ok (CredentialInfo.mk
          (string_sent "path" (CredentialInfo.Path acc) ms)
          (string_sent "type" (CredentialInfo.CredentialType acc) ms)
          (string_sent "description" (CredentialInfo.Description acc) ms)).
Proof.
  induction ms as [|[k v] ms IH]; intros acc Hs.
  - destruct acc. reflexivity.
  - destruct Hs as (H1 & H2 & H3).
    assert (Hs' : info_shaped ms)
      by (repeat split; eapply typed_tail; eassumption).
    pose proof Hs' as (T1 & T2 & T3).
    unfold string_sent.
    rewrite !(value_sent_cons as_string) by (reflexivity || assumption).
    destruct acc as [path type description].
    cbn [store_members set_CredentialInfo CredentialInfo.Path
         CredentialInfo.CredentialType CredentialInfo.Description].
    destruct (names k "path") eqn:E1.
    { rewrite (into_string_typed "path" v path (typed_head _ _ _ _ _ H1 E1)).
      other_fields k. rewrite (IH _ Hs'). reflexivity. }
    destruct (names k "type") eqn:E2.
    { rewrite (into_string_typed "type" v type (typed_head _ _ _ _ _ H2 E2)).
      other_fields k. rewrite (IH _ Hs'). reflexivity. }
    destruct (names k "description") eqn:E3.
    { rewrite (into_string_typed "description" v description (typed_head _ _ _ _ _ H3 E3)).
      rewrite (IH _ Hs'). reflexivity. }
    rewrite (IH _ Hs'). reflexivity.
Qed.

Lemma store_CredentialInfo_shaped ms acc r :
  store_members set_CredentialInfo ms acc = Ok r -> info_shaped ms.
Proof.
  intros H. repeat split;
    (eapply store_members_typed; [|exact H]);
    intros k v [path type description] acc' Hk Hset;
    cbn [set_CredentialInfo] in Hset;
    repeat match type of Hset with
    | context [names k ?b] =>
        first [ rewrite Hk in Hset
              | rewrite (names_other k _ b Hk eq_refl) in Hset ]
    end;
    refuses_other_types.
Qed.

Lemma store_UseResult ms : forall acc,
  use_shaped ms ->
  store_members set_UseResult ms acc =
    Ok (UseResult.mk
          (bool_sent "success" (UseResult.Success acc) ms)
          (raw_sent "output" (UseResult.Output acc) ms)).
Proof.
  induction ms as [|[k v] ms IH]; intros acc Hs.
  - destruct acc. reflexivity.
  - assert (Hs' : use_shaped ms) by (eapply typed_tail; eassumption).
    unfold bool_sent.
    rewrite (value_sent_cons as_bool) by (reflexivity || assumption).
    rewrite raw_sent_cons.
    destruct acc as [success output].
    cbn [store_members]. unfold set_UseResult.
    cbn [UseResult.Success UseResult.Output].
    destruct (names k "success") eqn:E1.
    { rewrite (into_bool_typed "success" v success (typed_head _ _ _ _ _ Hs E1)).
      other_fields k. rewrite (IH _ Hs'). reflexivity. }
    destruct (names k "output") eqn:E2.
    { rewrite (IH _ Hs'). reflexivity. }
    rewrite (IH _ Hs'). reflexivity.
Qed.

Lemma store_UseResult_shaped ms acc r :
  store_members set_UseResult ms acc = Ok r -> use_shaped ms.
Proof.
  intros H. unfold use_shaped.
  eapply store_members_typed; [|exact H].
  intros k v [success output] acc' Hk Hset.
  unfold set_UseResult in Hset. rewrite Hk in Hset.
  refuses_other_types.
Qed.

Lemma store_authChallenge ms : forall acc,
  challenge_shaped ms ->
  store_members set_authChallenge ms acc =
    Ok (authChallenge.mk (string_sent "challenge" (authChallenge.Challenge acc) ms)).
Proof.
  induction ms as [|[k v] ms IH]; intros acc Hs.
  - destruct acc. reflexivity.
  - assert (Hs' : challenge_shaped ms) by (eapply typed_tail; eassumption).
    unfold string_sent.
    rewrite (value_sent_cons as_string) by (reflexivity || assumption).
    destruct acc as [challenge].
    cbn [store_members]. unfold set_authChallenge.
    cbn [authChallenge.Challenge].
    destruct (names k "challenge") eqn:E1.
    { rewrite (into_string_typed "challenge" v challenge (typed_head _ _ _ _ _ Hs E1)).
      rewrite (IH _ Hs'). reflexivity. }
    rewrite (IH _ Hs'). reflexivity.
Qed.

(** The array of [credential.list]: every element that decodes gives
    its entry, in order. *)
Lemma store_items_listed items :
  Forall listed items ->
  store_items "CredentialInfo" set_CredentialInfo CredentialInfo.zero items =
    Ok (map info_of items).
Proof.
  induction 1 as [|v items Hv _ IH]; [reflexivity|].
  cbn [store_items map]. rewrite IH.
  destruct Hv as [->|[ms [-> Hs]]].
  - reflexivity.
  - unfold Unmarshal_struct. rewrite (store_CredentialInfo ms CredentialInfo.zero Hs).
    reflexivity.
Qed.

(** And only such arrays decode. *)
Lemma store_items_Ok items : forall creds,
  store_items "CredentialInfo" set_CredentialInfo CredentialInfo.zero items = Ok creds ->
  Forall listed items.
Proof.
  induction items as [|v items IH]; intros creds H; [constructor|].
  cbn [store_items] in H.
  destruct (Unmarshal_struct _ _ _ (Some v)) as [x|e] eqn:E; [|discriminate].
  destruct (store_items _ _ _ items) as [xs|e] eqn:E'; [|discriminate].
  constructor; [|exact (IH xs eq_refl)].
  unfold Unmarshal_struct in E. destruct v; try discriminate.
  - left. reflexivity.
  - right. eexists. split; [reflexivity|].
    exact (store_CredentialInfo_shaped _ _ _ E).
Qed.

(* ================================================================== *)
(** ** The exchange of a call *)
(* ================================================================== *)

Lemma same_settings_refl k : same_settings k k.
Proof. repeat split. Qed.

Lemma same_settings_trans k1 k2 k3 :
  same_settings k1 k2 -> same_settings k2 k3 -> same_settings k1 k3.
Proof. intros (A & B & C) (A' & B' & C'). repeat split; congruence. Qed.

Lemma Write_settings p k : same_settings k (snd (Write p k)).
Proof.
  unfold Write. destruct (closed k) eqn:Hc; [apply same_settings_refl|].
  destruct (expired k); [apply same_settings_refl|].
  unfold same_settings. cbn. rewrite Hc. repeat split.
Qed.

Lemma ReadFull_settings n k : same_settings k (snd (ReadFull n k)).
Proof.
  unfold ReadFull. destruct n; [apply same_settings_refl|].
  destruct (closed k) eqn:Hc; [apply same_settings_refl|].
  destruct (expired k); [apply same_settings_refl|].
  destruct (S n <=? List.length (inbound k))%nat;
    unfold same_settings; cbn; rewrite Hc; repeat split.
Qed.

Section ExchangeFacts.
Context {JSON : EncodingJSON}.

Lemma writeFrame_settings req k : same_settings k (snd (writeFrame req k)).
Proof.
  unfold writeFrame. destruct (Marshal_RpcRequest req) as [payload|e];
    [|apply same_settings_refl].
  unfold binary_Write.
  pose proof (Write_settings (PutUint32 (uint32 (len payload))) k) as H1.
  destruct (Write (PutUint32 (uint32 (len payload))) k) as [[u|e] k1];
    cbn [snd] in H1 |- *; [|exact H1].
  pose proof (Write_settings payload k1) as H2.
  destruct (Write payload k1) as [[u'|e] k2]; cbn [snd] in H2 |- *;
    exact (same_settings_trans _ _ _ H1 H2).
Qed.

Lemma readFrame_settings k : same_settings k (snd (readFrame k)).
Proof.
  unfold readFrame, binary_Read.
  pose proof (ReadFull_settings 4 k) as H4.
  destruct (ReadFull 4 k) as [[b|e] k1]; cbn [snd] in H4 |- *; [|exact H4].
  destruct (Uint32 b >? maxFrameSize); [exact H4|].
  pose proof (ReadFull_settings (Z.to_nat (Uint32 b)) k1) as HL.
  destruct (ReadFull (Z.to_nat (Uint32 b)) k1) as [[p|e] k2]; cbn [snd] in HL |- *.
  - destruct (Unmarshal_payload p); exact (same_settings_trans _ _ _ H4 HL).
  - exact (same_settings_trans _ _ _ H4 HL).
Qed.

Lemma exchange_settings req k : same_settings k (snd (exchange req k)).
Proof.
  unfold exchange.
  pose proof (writeFrame_settings req k) as HW.
  destruct (writeFrame req k) as [[u|e] k1]; cbn [snd] in HW |- *; [|exact HW].
  pose proof (readFrame_settings k1) as HR.
  destruct (readFrame k1) as [[resp|e] k2]; cbn [snd] in HR |- *;
    exact (same_settings_trans _ _ _ HW HR).
Qed.

(** A stream that ends before four bytes have come. *)
Lemma readFrame_no_header r :
  usable r -> (List.length (inbound r) < 4)%nat ->
  readFrame r =
    (Err (Wrap "read length"
            (EIO match inbound r with [] => EOF | _ :: _ => ErrUnexpectedEOF end)),
     left [] r).
Proof.
  intros [Hc He] Hlen. unfold readFrame, binary_Read, ReadFull, left.
  rewrite Hc, He.
  destruct (Nat.leb_spec 4 (List.length (inbound r))); [lia|]. reflexivity.
Qed.

(** A stream that ends inside the payload its header declares. *)
Lemma readFrame_short_payload hdr body r :
  usable r -> List.length hdr = 4%nat -> inbound r = (hdr ++ body)%list ->
  Uint32 hdr <= maxFrameSize -> len body < Uint32 hdr ->
  readFrame r =
    (Err (Wrap "read payload"
            (EIO match body with [] => EOF | _ :: _ => ErrUnexpectedEOF end)),
     left [] r).
Proof.
  intros Hu Hlen Hin Hfit Hshort. unfold readFrame.
  rewrite (binary_Read_header hdr body r Hu Hlen Hin).
  destruct (Z.gtb_spec (Uint32 hdr) maxFrameSize); [lia|].
  destruct Hu as [Hc He]. unfold ReadFull.
  destruct (Z.to_nat (Uint32 hdr)) as [|n] eqn:HL.
  { unfold len in Hshort. lia. }
  unfold left, expired in *.
  cbn [closed deadline now inbound outbound]. rewrite Hc, He.
  destruct (Nat.leb_spec (S n) (List.length body)) as [Hle|Hgt].
  { unfold len in Hshort. lia. }
  reflexivity.
Qed.

(** A call with marshalled parameters on a ready client to which the
    peer has sent a frame: the request goes out and the frame is what
    the call delivers. *)
Lemma call_answered ctx method j c payload rest resp :
  prints_all JSON -> awaits ctx c payload rest ->
  Unmarshal_payload payload = Ok resp ->
  exists bytes,
    Marshal_RpcRequest (RpcRequest.mk (uint64 (nextID c)) method (Some j)) = Ok bytes /\
    call ctx method (Encodable j) c = (deliver resp, served ctx bytes rest c).
Proof.
  intros Hp (Hready & Hin & Hmax) HU.
  destruct (Hp (request_json (RpcRequest.mk (uint64 (nextID c)) method (Some j))))
    as [bytes Hb].
  exists bytes. split; [exact Hb|].
  rewrite (call_ready ctx method (Encodable j) (Some j) c bytes payload rest
             eq_refl Hb Hready Hin Hmax).
  rewrite HU. reflexivity.
Qed.

(** When two frames are waiting, the client a call leaves is ready for
    the second. *)
Lemma awaits_served ctx c bytes payload payload' rest :
  awaits ctx c payload (frame_of payload' ++ rest) ->
  len payload' <= maxFrameSize ->
  awaits ctx (served ctx bytes (frame_of payload' ++ rest) c) payload' rest.
Proof.
  intros ((Hc & Hd) & Hin & Hmax) Hmax'. unfold awaits, ready, served.
  cbn [conn closed inbound now deadline].
  split; [split; [reflexivity|] | split; [reflexivity | exact Hmax']].
  unfold expired in *. cbn [deadline now].
  destruct (Deadline ctx); [exact Hd | exact Hd].
Qed.

Lemma ready_armed ctx k : ready ctx k -> usable (armed ctx k).
Proof.
  intros [Hc Hd]. unfold armed, usable, expired in *.
  destruct (Deadline ctx) as [d|]; cbn [closed deadline now].
  - split; [exact Hc | apply Z.leb_gt; exact Hd].
  - split; assumption.
Qed.

(** A call on a ready client, whatever the peer has sent: the request
    frame goes out, one frame is read, and the deadline of the context
    is cleared. *)
Lemma call_exchange ctx method params pb c bytes :
  Marshal_any params = Ok pb ->
  Marshal_RpcRequest (RpcRequest.mk (uint64 (nextID c)) method pb) = Ok bytes ->
  ready ctx (conn c) ->
  call ctx method params c =
    (match fst (readFrame (sent (written bytes) (armed ctx (conn c)))) with
     | Ok resp => deliver resp
     | Err e => Err e
     end,
     mkClient (disarmed ctx (snd (readFrame (sent (written bytes) (armed ctx (conn c))))))
       (uint64 (nextID c + 1))).
Proof.
  intros HA HM Hready. pose proof (ready_armed ctx (conn c) Hready) as Hu.
  destruct Hready as [Hc Hd].
  unfold call. rewrite HA, newRequest_value. cbn [conn nextID].
  pose proof (readFrame_settings (sent (written bytes) (armed ctx (conn c)))) as (Hcl & _ & _).
  unfold armed, disarmed in *.
  destruct (Deadline ctx) as [d|].
  - unfold SetDeadline at 1. rewrite Hc. unfold exchange.
    rewrite Hc in Hu, Hcl.
    rewrite (writeFrame_usable _ bytes _ HM Hu). fold (written bytes).
    destruct (readFrame _) as [[resp|e] k2]; cbn [fst snd] in Hcl |- *;
      unfold SetDeadline, cleared; cbn [sent closed] in Hcl;
      (destruct (closed k2); [discriminate Hcl | reflexivity]).
  - unfold exchange. rewrite (writeFrame_usable _ bytes _ HM Hu). fold (written bytes).
    destruct (readFrame _) as [[resp|e] k2]; reflexivity.
Qed.


End ExchangeFacts.

(* ================================================================== *)
(** ** The operations on an answered call *)
(* ================================================================== *)

Section OperationFacts.
Context {JSON : EncodingJSON} {ED : Ed25519}.

Lemma Retrieve_answered ctx path ttl c payload rest resp :
  prints_all JSON -> awaits ctx c payload rest ->
  Unmarshal_payload payload = Ok resp ->
  exists bytes,
    Marshal_RpcRequest (RpcRequest.mk (uint64 (nextID c)) "credential.retrieve"
                          (Some (retrieveParams path ttl))) = Ok bytes /\
    Retrieve ctx path ttl c =
      (match deliver resp with
       | Err e => Err e
       | Ok result =>
           match Unmarshal_Credential result with
           | Err e => Err (Wrap "parse credential" e)
           | Ok cred => Ok cred
           end
       end, served ctx bytes rest c).
Proof.
  intros Hp Hw HU.
  destruct (call_answered ctx "credential.retrieve" (retrieveParams path ttl)
              c payload rest resp Hp Hw HU) as (bytes & Hb & Hc).
  exists bytes. split; [exact Hb|].
  unfold Retrieve. unfold retrieveParams in Hc. rewrite Hc.
  destruct (deliver resp) as [result|e]; [|reflexivity].
  destruct (Unmarshal_Credential result); reflexivity.
Qed.

Lemma List_answered ctx c payload rest resp :
  prints_all JSON -> awaits ctx c payload rest ->
  Unmarshal_payload payload = Ok resp ->
  exists bytes,
    Marshal_RpcRequest (RpcRequest.mk (uint64 (nextID c)) "credential.list"
                          (Some (JObject []))) = Ok bytes /\
    List ctx c =
      (match deliver resp with
       | Err e => Err e
       | Ok result =>
           match Unmarshal_CredentialInfos result with
           | Err e => Err (Wrap "parse credential list" e)
           | Ok creds => Ok creds
           end
       end, served ctx bytes rest c).
Proof.
  intros Hp Hw HU.
  destruct (call_answered ctx "credential.list" (JObject [])
              c payload rest resp Hp Hw HU) as (bytes & Hb & Hc).
  exists bytes. split; [exact Hb|].
  unfold List. rewrite Hc.
  destruct (deliver resp) as [result|e]; [|reflexivity].
  destruct (Unmarshal_CredentialInfos result); reflexivity.
Qed.

Lemma Use_answered ctx path operation p c payload rest resp :
  prints_all JSON -> awaits ctx c payload rest ->
  Unmarshal_payload payload = Ok resp ->
  exists bytes,
    Marshal_RpcRequest (RpcRequest.mk (uint64 (nextID c)) "credential.use"
                          (Some (useParams path operation p))) = Ok bytes /\
    Use ctx path operation (Encodable p) c =
      (match deliver resp with
       | Err e => Err e
       | Ok result =>
           match Unmarshal_UseResult result with
           | Err e => Err (Wrap "parse use result" e)
           | Ok ur => Ok ur
           end
       end, served ctx bytes rest c).
Proof.
  intros Hp Hw HU.
  destruct (call_answered ctx "credential.use" (useParams path operation p)
              c payload rest resp Hp Hw HU) as (bytes & Hb & Hc).
  exists bytes. split; [exact Hb|].
  unfold Use. unfold useParams in Hc. rewrite Hc.
  destruct (deliver resp) as [result|e]; [|reflexivity].
  destruct (Unmarshal_UseResult result); reflexivity.
Qed.

Lemma ReleaseLease_answered ctx leaseID c payload rest resp :
  prints_all JSON -> awaits ctx c payload rest ->
  Unmarshal_payload payload = Ok resp ->
  exists bytes,
    Marshal_RpcRequest (RpcRequest.mk (uint64 (nextID c)) "lease.release"
                          (Some (releaseParams leaseID))) = Ok bytes /\
    ReleaseLease ctx leaseID c =
      (match deliver resp with
       | Err e => Some e
       | Ok _ => None
       end, served ctx bytes rest c).
Proof.
  intros Hp Hw HU.
  destruct (call_answered ctx "lease.release" (releaseParams leaseID)
              c payload rest resp Hp Hw HU) as (bytes & Hb & Hc).
  exists bytes. split; [exact Hb|].
  unfold ReleaseLease. unfold releaseParams in Hc. rewrite Hc.
  destruct (deliver resp) as [result|e]; reflexivity.
Qed.

(** The first step of the handshake on an answered call. *)
Lemma challenge_answered ctx agentName c payload rest resp :
  prints_all JSON -> awaits ctx c payload rest ->
  Unmarshal_payload payload = Ok resp ->
  exists bytes,
    Marshal_RpcRequest (RpcRequest.mk (uint64 (nextID c)) "auth.challenge"
                          (Some (challengeParams agentName))) = Ok bytes /\
    call ctx "auth.challenge" (Encodable (JObject [("agent", JString agentName)])) c =
      (deliver resp, served ctx bytes rest c).
Proof.
  intros Hp Hw HU.
  exact (call_answered ctx "auth.challenge" (challengeParams agentName)
           c payload rest resp Hp Hw HU).
Qed.

(** The handshake when both calls are answered and the challenge
    decodes: two requests with consecutive ids, the second with the
    signature of the decoded challenge in hexadecimal. *)
Lemma Authenticate_answered ctx agentName privateKey c p1 p2 rest r1 r2
    challenge challengeBytes :
  prints_all JSON -> List.length privateKey = PrivateKeySize ->
  awaits ctx c p1 (frame_of p2 ++ rest) -> len p2 <= maxFrameSize ->
  Unmarshal_payload p1 = Ok r1 -> RpcResponse.Error r1 = None ->
  Unmarshal_authChallenge (RpcResponse.Result r1) = Ok challenge ->
  hex_DecodeString (authChallenge.Challenge challenge) = Ok challengeBytes ->
  Unmarshal_payload p2 = Ok r2 ->
  exists b1 b2,
    Marshal_RpcRequest (RpcRequest.mk (uint64 (nextID c)) "auth.challenge"
                          (Some (challengeParams agentName))) = Ok b1 /\
    Marshal_RpcRequest
      (RpcRequest.mk (uint64 (nextID c + 1)) "auth.verify"
         (Some (verifyParams agentName (signature_of privateKey challengeBytes)))) = Ok b2 /\
    Authenticate ctx agentName privateKey c =
      (Returns match deliver r2 with
               | Err e => Some (Wrap "auth verify" e)
               | Ok verifyResult =>
                   match Unmarshal_authResult verifyResult with
                   | Err e => Some (Wrap "parse auth result" e)
                   | Ok auth =>
                       if negb (authResult.Authenticated auth)
                       then Some (Errorf "authentication rejected by server")
                       else None
                   end
               end,
       mkClient
         (mkConn rest (outbound (conn c) ++ written b1 ++ written b2)%list
            (match Deadline ctx with Some _ => None | None => deadline (conn c) end)
            (now (conn c)) false)
         (uint64 (nextID c + 2))).
Proof.
  intros Hp Hkey Hw Hmax2 H1 HE1 Hch Hhex H2.
  destruct (challenge_answered ctx agentName c p1 (frame_of p2 ++ rest) r1 Hp Hw H1)
    as (b1 & Hb1 & Hc1).
  pose proof (awaits_served ctx c b1 p1 p2 rest Hw Hmax2) as Hw2.
  destruct (call_answered ctx "auth.verify"
              (verifyParams agentName (signature_of privateKey challengeBytes))
              _ p2 rest r2 Hp Hw2 H2) as (b2 & Hb2 & Hc2).
  assert (Hid : uint64 (nextID (served ctx b1 (frame_of p2 ++ rest) c)) = uint64 (nextID c + 1)).
  { unfold served, uint64. cbn [nextID]. apply Z.mod_mod. discriminate. }
  rewrite Hid in Hb2.
  exists b1, b2. split; [exact Hb1|]. split; [exact Hb2|].
  unfold Authenticate. rewrite Hc1, (deliver_result r1 HE1), Hch, Hhex.
  unfold ed25519_Sign. rewrite Hkey, Nat.eqb_refl.
  unfold verifyParams in Hc2. rewrite Hc2.
  assert (Hfinal : served ctx b2 rest (served ctx b1 (frame_of p2 ++ rest) c) =
                   mkClient
                     (mkConn rest (outbound (conn c) ++ written b1 ++ written b2)%list
                        (match Deadline ctx with Some _ => None | None => deadline (conn c) end)
                        (now (conn c)) false)
                     (uint64 (nextID c + 2))).
  { unfold served, written. cbn [conn outbound deadline now nextID].
    rewrite <- app_assoc. f_equal.
    - f_equal. destruct (Deadline ctx); reflexivity.
    - unfold uint64. rewrite Zplus_mod_idemp_l. f_equal. lia. }
  rewrite Hfinal.
  destruct (deliver r2) as [verifyResult|e]; [|reflexivity].
  destruct (Unmarshal_authResult verifyResult) as [auth|e]; [|reflexivity].
  destruct (negb (authResult.Authenticated auth)); reflexivity.
Qed.

(** An object that sends nothing for a field has no member of a wrong
    type for it. *)
Lemma sends_None_typed {A} (as_A : json -> option A) name ms :
  sends name ms = None -> typed as_A name ms.
Proof.
  unfold sends, named. intros H k v Hin Hk.
  assert (Hf : negb (is_null v) = false).
  { apply (find_none _ _ H). apply in_map_iff. exists (k, v). split; [reflexivity|].
    apply filter_In. split; [apply -> in_rev; exact Hin | exact Hk]. }
  destruct v; try discriminate Hf. left. reflexivity.
Qed.

End OperationFacts.

(** The two digits [hex.EncodeToString] writes for a byte are read back
    by [hex.DecodeString] as that byte. *)
Lemma hex_digits_of_byte x :
  fromHexChar (hexdigit (Z.shiftr (Z_of_byte x) 4)) = Some (Z.shiftr (Z_of_byte x) 4) /\
  fromHexChar (hexdigit (Z.land (Z_of_byte x) 15)) = Some (Z.land (Z_of_byte x) 15) /\
  byte_of_Z (Z.lor (Z.shiftl (Z.shiftr (Z_of_byte x) 4) 4) (Z.land (Z_of_byte x) 15)) = x.
Proof. destruct x; vm_compute; repeat split. Qed.

(* ================================================================== *)
(** ** Strings *)
(* ================================================================== *)

Lemma string_app_assoc (a b c : string) : ((a ++ b) ++ c = a ++ (b ++ c))%string.
Proof. induction a as [|x a IH]; [reflexivity|]. cbn. rewrite IH. reflexivity. Qed.

Lemma string_app_nil_r (a : string) : (a ++ "" = a)%string.
Proof. induction a as [|x a IH]; [reflexivity|]. cbn. rewrite IH. reflexivity. Qed.

(* ================================================================== *)
(** ** The bindings *)
(* ================================================================== *)

(** Only [OK] is no error. *)
Lemma resultToError_None (H : Bindings.Header) code :
  Bindings.resultToError code = None <-> code = Bindings.OK.
Proof.
  unfold Bindings.resultToError.
  destruct (Z.eqb_spec code Bindings.OK) as [E|E]; [split; auto|].
  repeat match goal with
  | |- context [(code =? ?c)%Z] => destruct (code =? c)%Z
  end; (split; [discriminate | intros E'; contradiction (E E')]).
Qed.

Lemma int_uint64_le x : Bindings.int (uint64 x) <= uint64 x.
Proof.
  unfold Bindings.int.
  assert (Hr : 0 <= uint64 x < uint64_max)
    by (unfold uint64; apply Z.mod_pos_bound; reflexivity).
  rewrite (uint64_small (uint64 x)) by exact Hr.
  destruct (Z.ltb_spec (uint64 x) (2 ^ 63)); lia.
Qed.

Lemma make_length (R : Bindings.Runtime) n buf :
  Bindings.make n = Returns buf -> len buf = n /\ 0 <= n.
Proof.
  unfold Bindings.make.
  destruct (Z.ltb_spec n 0); [discriminate|].
  destruct (Z.ltb_spec Bindings.maxAlloc n); [discriminate|].
  cbn [orb]. intros [= <-]. unfold len. rewrite repeat_length. lia.
Qed.

Lemma filled_length buf out : List.length (Bindings.filled buf out) = List.length buf.
Proof.
  unfold Bindings.filled. rewrite length_firstn, length_app, length_skipn. lia.
Qed.

Lemma slice_to_length buf h b :
  Bindings.slice_to buf h = Returns b -> len b = h /\ h <= len buf.
Proof.
  unfold Bindings.slice_to.
  destruct (Z.ltb_spec h 0); [discriminate|].
  destruct (Z.ltb_spec (len buf) h); [discriminate|].
  cbn [orb]. intros [= <-]. unfold len in *. rewrite length_firstn. lia.
Qed.

Lemma length_string_of_list_byte b :
  String.length (string_of_list_byte b) = List.length b.
Proof.
  induction b as [|x b IH]; [reflexivity|].
  change (string_of_list_byte (x :: b))
    with (String (ascii_of_byte x) (string_of_list_byte b)).
  cbn [String.length List.length]. rewrite IH. reflexivity.
Qed.

(** A code that is not [OK] is an error. *)
Lemma resultToError_Some (H : Bindings.Header) code :
  code <> Bindings.OK -> Bindings.resultToError code <> None.
Proof. intros Hc Hn. apply Hc. apply resultToError_None. exact Hn. Qed.

(** [int] keeps its argument up to a multiple of [2^64], within the
    range of a signed word. *)
Lemma int_spec x :
  exists k, Bindings.int x = x + k * 2 ^ 64 /\ - 2 ^ 63 <= Bindings.int x < 2 ^ 63.
Proof.
  unfold Bindings.int, uint64, uint64_max.
  pose proof (Z.mod_pos_bound x (2 ^ 64) eq_refl) as Hb.
  assert (He : x mod 2 ^ 64 = x - 2 ^ 64 * (x / 2 ^ 64))
    by (apply Z.mod_eq; discriminate).
  destruct (Z.ltb_spec (x mod 2 ^ 64) (2 ^ 63)).
  - exists (- (x / 2 ^ 64)). lia.
  - exists (- (x / 2 ^ 64) - 1). lia.
Qed.

(** The buffer of [AuditLog] is at most one byte longer than the size
    needed. *)
Lemma make_succ_length (R : Bindings.Runtime) needed buf :
  Bindings.make (Bindings.int (Bindings.int (uint64 needed) + 1)) = Returns buf ->
  len buf <= uint64 needed + 1.
Proof.
  intros Hmake. destruct (make_length R _ _ Hmake) as [Hlen Hpos].
  rewrite Hlen.
  assert (Hu : 0 <= uint64 needed < 2 ^ 64)
    by (unfold uint64; apply Z.mod_pos_bound; reflexivity).
  destruct (int_spec (uint64 needed)) as (k1 & E1 & B1).
  destruct (int_spec (Bindings.int (uint64 needed) + 1)) as (k2 & E2 & B2).
  assert (k1 + k2 <= 0) by nia.
  nia.
Qed.

(* ================================================================== *)
(** ** The errors of the steps *)
(* ================================================================== *)

Lemma Write_error p k e k' :
  Write p k = (Err e, k') -> exists io, e = EIO io.
Proof.
  unfold Write. destruct (closed k); [intros [= <- _]; eexists; reflexivity|].
  destruct (expired k); [intros [= <- _]; eexists; reflexivity | discriminate].
Qed.

Lemma ReadFull_error n k e k' :
  ReadFull n k = (Err e, k') -> exists io, e = EIO io.
Proof.
  unfold ReadFull. destruct n; [discriminate|].
  destruct (closed k); [intros [= <- _]; eexists; reflexivity|].
  destruct (expired k); [intros [= <- _]; eexists; reflexivity|].
  destruct (S n <=? List.length (inbound k))%nat; [discriminate|].
  intros [= <- _]. eexists. reflexivity.
Qed.

(** Decoding into a struct fails with an error of encoding/json. *)
Lemma store_members_error {T} (set : string -> json -> T -> result T) :
  (forall k v acc e, set k v acc = Err e -> exists j, e = EJSON j) ->
  forall ms acc e, store_members set ms acc = Err e -> exists j, e = EJSON j.
Proof.
  intros Hset. induction ms as [|[k v] ms IH]; intros acc e; cbn [store_members].
  - discriminate.
  - destruct (set k v acc) as [acc'|e'] eqn:E.
    + apply IH.
    + intros [= <-]. exact (Hset k v acc e' E).
Qed.

Lemma Unmarshal_struct_error {T} type (set : string -> json -> T -> result T) zero :
  (forall k v acc e, set k v acc = Err e -> exists j, e = EJSON j) ->
  forall data e, Unmarshal_struct type set zero data = Err e -> exists j, e = EJSON j.
Proof.
  intros Hset data e. unfold Unmarshal_struct, mismatch.
  destruct data as [v|]; [|intros [= <-]; eexists; reflexivity].
  destruct v; try (intros [= <-]; eexists; reflexivity); try discriminate.
  apply store_members_error. exact Hset.
Qed.

Ltac setter_errors :=
  repeat match goal with
  | |- context [names ?k ?b] => destruct (names k b)
  end;
  repeat match goal with
  | |- context [into_string ?f ?v ?old] =>
      unfold into_string, mismatch; destruct v
  | |- context [into_bool ?f ?v ?old] =>
      unfold into_bool, mismatch; destruct v
  | |- context [into_uint64 ?f ?v ?old] =>
      unfold into_uint64, mismatch; destruct v
  end;
  repeat match goal with
  | |- context [if ?b then _ else _] => destruct b
  end;
  intros H; try discriminate H; injection H as <-; eexists; reflexivity.

Lemma set_Credential_error k v acc e :
  set_Credential k v acc = Err e -> exists j, e = EJSON j.
Proof. destruct acc. cbn [set_Credential]. setter_errors. Qed.

Lemma set_CredentialInfo_error k v acc e :
  set_CredentialInfo k v acc = Err e -> exists j, e = EJSON j.
Proof. destruct acc. cbn [set_CredentialInfo]. setter_errors. Qed.

Lemma set_UseResult_error k v acc e :
  set_UseResult k v acc = Err e -> exists j, e = EJSON j.
Proof. destruct acc. unfold set_UseResult. setter_errors. Qed.

Lemma set_authChallenge_error k v acc e :
  set_authChallenge k v acc = Err e -> exists j, e = EJSON j.
Proof. destruct acc. unfold set_authChallenge. setter_errors. Qed.

Lemma set_authResult_error k v acc e :
  set_authResult k v acc = Err e -> exists j, e = EJSON j.
Proof. destruct acc. unfold set_authResult. setter_errors. Qed.

Lemma Unmarshal_CredentialInfos_error data e :
  Unmarshal_CredentialInfos data = Err e -> exists j, e = EJSON j.
Proof.
  unfold Unmarshal_CredentialInfos, mismatch.
  destruct data as [v|]; [|intros [= <-]; eexists; reflexivity].
  destruct v; try (intros [= <-]; eexists; reflexivity); try discriminate.
  induction items as [|x items IH]; cbn [store_items]; [discriminate|].
  destruct (Unmarshal_struct _ _ _ (Some x)) as [y|e'] eqn:E.
  - destruct (store_items _ _ _ items) as [ys|e''];
      [discriminate | intros [= <-]; apply IH; reflexivity].
  - intros [= <-].
    exact (Unmarshal_struct_error _ _ _ set_CredentialInfo_error _ _ E).
Qed.

Section FailureFacts.
Context {JSON : EncodingJSON}.

Lemma writeFrame_error req k e k' :
  writeFrame req k = (Err e, k') ->
  (exists cause, e = Wrap "marshal request" cause) \/
  (exists io, e = Wrap "write length" (EIO io)) \/
  (exists io, e = Wrap "write payload" (EIO io)).
Proof.
  unfold writeFrame. destruct (Marshal_RpcRequest req) as [payload|e0].
  2: { intros [= <- _]. left. eexists. reflexivity. }
  unfold binary_Write.
  destruct (Write (PutUint32 (uint32 (len payload))) k) as [[u|e1] k1] eqn:E1.
  2: { intros [= <- _]. destruct (Write_error _ _ _ _ E1) as [io ->].
       right. left. eexists. reflexivity. }
  destruct (Write payload k1) as [[u'|e2] k2] eqn:E2; [discriminate|].
  intros [= <- _]. destruct (Write_error _ _ _ _ E2) as [io ->].
  right. right. eexists. reflexivity.
Qed.

Lemma readFrame_error k e k' :
  readFrame k = (Err e, k') ->
  (exists io, e = Wrap "read length" (EIO io)) \/
  (exists n, maxFrameSize < n /\
             e = EProtocol (ProtocolError.mk ("frame too large: " ++ decimal n ++ " bytes")%string)) \/
  (exists io, e = Wrap "read payload" (EIO io)) \/
  (exists cause, e = Wrap "unmarshal response" cause).
Proof.
  unfold readFrame, binary_Read.
  destruct (ReadFull 4 k) as [[b|e0] k1] eqn:E0.
  2: { intros [= <- _]. destruct (ReadFull_error _ _ _ _ E0) as [io ->].
       left. eexists. reflexivity. }
  destruct (Z.gtb_spec (Uint32 b) maxFrameSize) as [Hbig|Hfit].
  { intros [= <- _]. right. left. exists (Uint32 b). split; [exact Hbig | reflexivity]. }
  destruct (ReadFull (Z.to_nat (Uint32 b)) k1) as [[p|e1] k2] eqn:E1.
  2: { intros [= <- _]. destruct (ReadFull_error _ _ _ _ E1) as [io ->].
       right. right. left. eexists. reflexivity. }
  destruct (Unmarshal_payload p) as [resp|e2]; [discriminate|].
  intros [= <- _]. right. right. right. eexists. reflexivity.
Qed.

Lemma deliver_error_forms resp e :
  deliver resp = Err e ->
  (exists vaultErr, e = EVault vaultErr) \/
  e = EProtocol (ProtocolError.mk "failed to parse error response").
Proof.
  unfold deliver. destruct (RpcResponse.Error resp) as [v|]; [|discriminate].
  destruct (Unmarshal_VaultError (Some v)) as [vaultErr|e'].
  - intros [= <-]. left. eexists. reflexivity.
  - intros [= <-]. right. reflexivity.
Qed.

Lemma exchange_failure req k e :
  fst (exchange req k) = Err e -> call_failure e.
Proof.
  unfold exchange, call_failure.
  destruct (writeFrame req k) as [[u|e0] k1] eqn:EW.
  2: { cbn [fst]. intros [= <-].
       destruct (writeFrame_error _ _ _ _ EW) as [[c ->]|[[io ->]|[io ->]]].
       - do 2 right. left. eexists. reflexivity.
       - do 3 right. left. eexists. reflexivity.
       - do 4 right. left. eexists. reflexivity. }
  destruct (readFrame k1) as [[resp|e1] k2] eqn:ER; cbn [fst].
  - intros Hd. destruct (deliver_error_forms resp e Hd) as [[v ->]| ->].
    + do 9 right. left. eexists. reflexivity.
    + do 10 right. reflexivity.
  - intros [= <-].
    destruct (readFrame_error _ _ _ ER) as [[io ->]|[(n & Hn & ->)|[[io ->]|[c ->]]]].
    + do 5 right. left. eexists. reflexivity.
    + do 6 right. left. exists n. split; [exact Hn | reflexivity].
    + do 7 right. left. eexists. reflexivity.
    + do 8 right. left. eexists. reflexivity.
Qed.

(** The exchange returns no I/O error bare. *)
Lemma exchange_not_bare req k io : fst (exchange req k) <> Err (EIO io).
Proof.
  unfold exchange.
  destruct (writeFrame req k) as [[u|e0] k1] eqn:EW.
  2: { cbn [fst]. intros [= ->].
       destruct (writeFrame_error _ _ _ _ EW) as [[x H]|[[x H]|[x H]]]; discriminate H. }
  destruct (readFrame k1) as [[resp|e1] k2] eqn:ER; cbn [fst].
  - intros Hd. destruct (deliver_error_forms resp _ Hd) as [[v H]|H]; discriminate H.
  - intros [= ->].
    destruct (readFrame_error _ _ _ ER) as [[x H]|[(n & _ & H)|[[x H]|[x H]]]];
      discriminate H.
Qed.

Lemma call_failure_forms ctx method params c e :
  fst (call ctx method params c) = Err e -> call_failure e.
Proof.
  unfold call. destruct params as [j|t]; cbn [Marshal_any].
  2: { cbn [fst]. intros [= <-]. left. eexists. reflexivity. }
  rewrite newRequest_value. cbn [conn nextID].
  destruct (Deadline ctx) as [d|].
  - unfold SetDeadline at 1. destruct (closed (conn c)).
    + cbn [fst]. intros [= <-]. right. left. reflexivity.
    + match goal with |- context [exchange ?req ?k] =>
        pose proof (exchange_failure req k e) as Hx;
        destruct (exchange req k) as [r k']
      end.
      cbn [fst] in Hx |- *. exact Hx.
  - match goal with |- context [exchange ?req ?k] =>
      pose proof (exchange_failure req k e) as Hx;
      destruct (exchange req k) as [r k']
    end.
    cbn [fst] in Hx |- *. exact Hx.
Qed.

End FailureFacts.

(* ================================================================== *)
(** ** Further properties of the frame codec *)
(* ================================================================== *)

(** X1.  [readFrame] on a stream that ends early.  When fewer than four
    bytes come, it fails with "read length", wrapping [io.EOF] if none
    came and [io.ErrUnexpectedEOF] otherwise.  When a header within the
    ceiling comes and fewer bytes than it declares, it fails with "read
    payload", wrapping [io.EOF] if no byte of the payload came and
    [io.ErrUnexpectedEOF] otherwise.  In both cases the stream is read
    to its end and nothing is parsed: the outcome is the same for every
    JSON package. *)
Theorem readFrame_truncated_stream (JSON : EncodingJSON) r :
  usable r ->
  ((List.length (inbound r) < 4)%nat ->
     @readFrame JSON r =
       (Err (Wrap "read length"
               (EIO match inbound r with [] => EOF | _ :: _ => ErrUnexpectedEOF end)),
        left [] r))
  /\ (forall hdr body,
        inbound r = hdr ++ body -> List.length hdr = 4%nat ->
        Uint32 hdr <= maxFrameSize -> len body < Uint32 hdr ->
        @readFrame JSON r =
          (Err (Wrap "read payload"
                  (EIO match body with [] => EOF | _ :: _ => ErrUnexpectedEOF end)),
           left [] r))
  /\ ((List.length (inbound r) < 4)%nat \/
      (exists hdr body,
         inbound r = hdr ++ body /\ List.length hdr = 4%nat /\
         Uint32 hdr <= maxFrameSize /\ len body < Uint32 hdr) ->
      forall JSON' : EncodingJSON, @readFrame JSON' r = @readFrame JSON r).
Proof.
  intros Hu. split; [|split].
  - intros Hlen. apply readFrame_no_header; assumption.
  - intros hdr body Hin Hlen Hfit Hshort.
    apply (readFrame_short_payload hdr body r); assumption.
  - intros [Hlen|(hdr & body & Hin & Hlen & Hfit & Hshort)] JSON'.
    + rewrite (@readFrame_no_header JSON' r Hu Hlen).
      rewrite (@readFrame_no_header JSON r Hu Hlen). reflexivity.
    + rewrite (@readFrame_short_payload JSON' hdr body r Hu Hlen Hin Hfit Hshort).
      rewrite (@readFrame_short_payload JSON hdr body r Hu Hlen Hin Hfit Hshort).
      reflexivity.
Qed.

(** A peer that closes after two bytes, and one that closes after the
    header of a five-byte frame and two bytes of its payload. *)
Lemma readFrame_truncated_stream_witness :
  usable (Reference.connected [x00; x00]) /\
  readFrame (Reference.connected [x00; x00]) =
    (Err (Wrap "read length" (EIO ErrUnexpectedEOF)), Reference.connected []) /\
  readFrame (Reference.connected (PutUint32 5 ++ [x7b; x7d])) =
    (Err (Wrap "read payload" (EIO ErrUnexpectedEOF)), Reference.connected []).
Proof.
  assert (Hu : forall b, usable (Reference.connected b)) by (split; reflexivity).
  split; [apply Hu|]. split.
  - apply (proj1 (readFrame_truncated_stream Reference.package
                    (Reference.connected [x00; x00]) (Hu _))).
    simpl. lia.
  - apply (proj1 (proj2 (readFrame_truncated_stream Reference.package
                           (Reference.connected (PutUint32 5 ++ [x7b; x7d])) (Hu _)))
             (PutUint32 5) [x7b; x7d]).
    + reflexivity.
    + reflexivity.
    + vm_compute. discriminate.
    + vm_compute. reflexivity.
Defined.

(** X2.  Decoding the payload of a frame into an [RpcResponse].  A
    payload decodes only if it is [null] or an object; [null] gives the
    zero response.  An object decodes exactly when every member named
    [id] is [null] or an unsigned 64-bit integer.  The response then
    holds the last such [id] that is not [null] (0 when there is none),
    the last member named [result] and the last member named [error],
    each kept as sent, [null] included ([nil] when there is none).
    Names are matched without regard to case, and a member with any
    other name has no effect. *)
Theorem response_decoding (v : json) :
  (forall r, Unmarshal_RpcResponse (Some v) = Ok r ->
     (v = JNull \/ exists ms, v = JObject ms) /\
     r = RpcResponse.mk (uint_sent "id" 0 (members (Some v)))
                        (raw_sent "result" None (members (Some v)))
                        (raw_sent "error" None (members (Some v))))
  /\ (v = JNull -> Unmarshal_RpcResponse (Some v) = Ok RpcResponse.zero)
  /\ (forall ms, v = JObject ms ->
        (response_shaped ms <-> exists r, Unmarshal_RpcResponse (Some v) = Ok r))
  /\ (forall ms k x,
        names k "id" = false -> names k "result" = false -> names k "error" = false ->
        Unmarshal_RpcResponse (Some (JObject ((k, x) :: ms))) =
          Unmarshal_RpcResponse (Some (JObject ms)))
  /\ (forall ms x,
        Unmarshal_RpcResponse (Some (JObject (ms ++ [("ERROR", x)]))) =
          match Unmarshal_RpcResponse (Some (JObject ms)) with
          | Ok r => Ok (RpcResponse.mk (RpcResponse.ID r) (RpcResponse.Result r) (Some x))
          | Err e => Err e
          end).
Proof.
  split; [|split; [|split; [|split]]].
  - intros r H. unfold Unmarshal_RpcResponse, Unmarshal_struct in H.
    destruct v; try discriminate.
    + injection H as <-. split; [left; reflexivity | reflexivity].
    + split; [right; eexists; reflexivity|].
      pose proof (store_RpcResponse_shaped _ _ _ H) as Hs.
      rewrite (store_RpcResponse members0 RpcResponse.zero Hs) in H.
      injection H as <-. reflexivity.
  - intros ->. reflexivity.
  - intros ms ->. unfold Unmarshal_RpcResponse, Unmarshal_struct. split.
    + intros Hs. rewrite (store_RpcResponse ms RpcResponse.zero Hs).
      eexists. reflexivity.
    + intros [r H]. exact (store_RpcResponse_shaped _ _ _ H).
  - intros ms k x H1 H2 H3. unfold Unmarshal_RpcResponse, Unmarshal_struct.
    cbn [store_members]. unfold set_RpcResponse at 1. rewrite H1, H2, H3.
    reflexivity.
  - intros ms x. unfold Unmarshal_RpcResponse, Unmarshal_struct.
    generalize RpcResponse.zero.
    induction ms as [|[k y] ms IH]; intros acc.
    + destruct acc. reflexivity.
    + cbn [app store_members].
      destruct (set_RpcResponse k y acc) as [acc'|e]; [apply IH | reflexivity].
Qed.

(* ================================================================== *)
(** ** Further properties of the dispatcher *)
(* ================================================================== *)

(** X3.  A client that has been closed.  Every call on it whose request
    marshals fails with [net.ErrClosed]: as the error of [SetDeadline],
    unwrapped, when the context carries a deadline, and wrapped as
    "write length" otherwise.  The call leaves the connection as it
    was, so nothing is written and nothing read, but it has used up a
    request id.  Closing the client again also reports
    [net.ErrClosed]. *)
Theorem call_after_Close (JSON : EncodingJSON) ctx method params pb c bytes :
  Marshal_any params = Ok pb ->
  Marshal_RpcRequest (RpcRequest.mk (uint64 (nextID c)) method pb) = Ok bytes ->
  closed (conn (snd (Close c))) = true
  /\ fst (call ctx method params (snd (Close c))) =
       Err match Deadline ctx with
           | Some _ => EIO ErrClosed
           | None => Wrap "write length" (EIO ErrClosed)
           end
  /\ conn (snd (call ctx method params (snd (Close c)))) = conn (snd (Close c))
  /\ inbound (conn (snd (Close c))) = inbound (conn c)
  /\ outbound (conn (snd (Close c))) = outbound (conn c)
  /\ nextID (snd (call ctx method params (snd (Close c)))) = uint64 (nextID c + 1)
  /\ fst (Close (snd (Close c))) = Err (EIO ErrClosed).
Proof.
  intros HA HM.
  assert (Hclosed : exists k, snd (Close c) = mkClient k (nextID c) /\ closed k = true
                              /\ inbound k = inbound (conn c)
                              /\ outbound k = outbound (conn c)).
  { unfold Close, Close_conn. destruct (closed (conn c)) eqn:Hc.
    - exists (conn c). repeat split. exact Hc.
    - eexists. repeat split. }
  destruct Hclosed as (k & -> & Hk & Hin & Hout). cbn [conn nextID].
  assert (Hcall : call ctx method params (mkClient k (nextID c)) =
                  (Err match Deadline ctx with
                       | Some _ => EIO ErrClosed
                       | None => Wrap "write length" (EIO ErrClosed)
                       end, mkClient k (uint64 (nextID c + 1)))).
  { unfold call. rewrite HA, newRequest_value. cbn [conn nextID].
    destruct (Deadline ctx) as [d|].
    - unfold SetDeadline. rewrite Hk. reflexivity.
    - unfold exchange, writeFrame. rewrite HM.
      unfold binary_Write, Write. rewrite Hk. reflexivity. }
  rewrite Hcall. cbn [fst snd conn nextID].
  repeat (split; [assumption || reflexivity|]).
  unfold Close, Close_conn. cbn [conn]. rewrite Hk. reflexivity.
Qed.

(** The client of the quick start, closed and then asked for the list
    of credentials. *)
Lemma call_after_Close_witness :
  let c := mkClient (Reference.connected (Reference.frame "{'id':1,'result':[]}")) 1 in
  let late := call Background "credential.list" (Encodable (JObject [])) (snd (Close c)) in
  fst (Close c) = Ok tt /\
  fst late = Err (Wrap "write length" (EIO ErrClosed)) /\
  outbound (conn (snd late)) = [] /\
  nextID (snd late) = 2.
Proof.
  intros c late.
  pose proof (call_after_Close Reference.package Background "credential.list"
                (Encodable (JObject [])) (Some (JObject [])) c _ eq_refl eq_refl)
    as (_ & Hcall & Hconn & _ & _ & Hid & _).
  split; [reflexivity|]. split; [exact Hcall|].
  split; [unfold late; rewrite Hconn; reflexivity | exact Hid].
Defined.

(** X4.  What a call never does to the connection: it never closes it,
    whatever error it ends in, and it never leaves a deadline on it.  A
    connection without deadline is without deadline after the call; and
    a call under a context with a deadline, on an open connection,
    clears whatever deadline there was once its request is built. *)
Theorem call_never_closes (JSON : EncodingJSON) ctx method params c :
  closed (conn (snd (call ctx method params c))) = closed (conn c)
  /\ (deadline (conn c) = None ->
      deadline (conn (snd (call ctx method params c))) = None)
  /\ (forall d pb,
        Deadline ctx = Some d -> Marshal_any params = Ok pb ->
        closed (conn c) = false ->
        deadline (conn (snd (call ctx method params c))) = None).
Proof.
  unfold call. destruct (Marshal_any params) as [pb|e].
  2: { split; [reflexivity|]. split; [intros H; exact H|]. intros d pb _ H. discriminate H. }
  rewrite newRequest_value. cbn [conn nextID].
  destruct (Deadline ctx) as [d|].
  - unfold SetDeadline. destruct (closed (conn c)) eqn:Hc.
    + cbn [snd conn]. split; [exact Hc|]. split; [intros H; exact H|].
      intros d' pb' _ _ H. discriminate H.
    + match goal with |- context [exchange ?req ?k] =>
        pose proof (exchange_settings req k) as (Hcl & _ & _);
        destruct (exchange req k) as [r k']
      end.
      cbn [snd conn closed] in Hcl |- *.
      rewrite Hcl. cbn [snd closed deadline].
      split; [reflexivity|]. split; [reflexivity|]. reflexivity.
  - match goal with |- context [exchange ?req ?k] =>
      pose proof (exchange_settings req k) as (Hcl & Hdl & _);
      destruct (exchange req k) as [r k']
    end.
    cbn [snd conn] in Hcl, Hdl |- *.
    split; [exact Hcl|]. split; [intros H; rewrite Hdl; exact H|].
    intros d pb' H. discriminate H.
Qed.

(** X5.  A call that gets no complete answer.  On a ready client whose
    request marshals, the request frame is on the wire in full whatever
    the peer has sent.  When the peer closes before four bytes of
    answer the call fails with "read length", and when it closes inside
    the payload that the header declares, with "read payload": the
    caller gets an error for a request that was sent. *)
Theorem call_unanswered (JSON : EncodingJSON) ctx method params pb c bytes :
  Marshal_any params = Ok pb ->
  Marshal_RpcRequest (RpcRequest.mk (uint64 (nextID c)) method pb) = Ok bytes ->
  ready ctx (conn c) ->
  outbound (conn (snd (call ctx method params c))) = outbound (conn c) ++ written bytes
  /\ ((List.length (inbound (conn c)) < 4)%nat ->
      fst (call ctx method params c) =
        Err (Wrap "read length"
               (EIO match inbound (conn c) with [] => EOF | _ :: _ => ErrUnexpectedEOF end)))
  /\ (forall hdr body,
        inbound (conn c) = hdr ++ body -> List.length hdr = 4%nat ->
        Uint32 hdr <= maxFrameSize -> len body < Uint32 hdr ->
        fst (call ctx method params c) =
          Err (Wrap "read payload"
                 (EIO match body with [] => EOF | _ :: _ => ErrUnexpectedEOF end))).
Proof.
  intros HA HM Hready.
  rewrite (call_exchange ctx method params pb c bytes HA HM Hready).
  pose proof (ready_armed ctx (conn c) Hready) as Hu.
  assert (Hu' : usable (sent (written bytes) (armed ctx (conn c))))
    by (apply usable_sent; exact Hu).
  assert (Hin : inbound (sent (written bytes) (armed ctx (conn c))) = inbound (conn c)).
  { unfold armed. destruct (Deadline ctx); reflexivity. }
  cbn [fst snd conn]. split; [|split].
  - assert (Hout : forall k, outbound (disarmed ctx k) = outbound k).
    { intros k. unfold disarmed. destruct (Deadline ctx); reflexivity. }
    rewrite Hout, readFrame_outbound. unfold armed.
    destruct (Deadline ctx); reflexivity.
  - intros Hlen. rewrite readFrame_no_header; [| exact Hu' | rewrite Hin; exact Hlen].
    rewrite Hin. reflexivity.
  - intros hdr body Hb Hlen Hfit Hshort.
    rewrite (readFrame_short_payload hdr body); try assumption.
    + reflexivity.
    + rewrite Hin. exact Hb.
Qed.

(** The vault goes away without a word: [List] fails with "read length:
    EOF", and its request is on the wire. *)
Lemma call_unanswered_witness :
  let c := mkClient (Reference.connected []) 1 in
  ready Background (conn c) /\
  fst (call Background "credential.list" (Encodable (JObject [])) c) =
    Err (Wrap "read length" (EIO EOF)) /\
  outbound (conn (snd (call Background "credential.list" (Encodable (JObject [])) c))) =
    Reference.frame "{'id':1,'method':'credential.list','params':{}}".
Proof.
  intros c.
  assert (Hready : ready Background (conn c)) by (split; reflexivity).
  pose proof (call_unanswered Reference.package Background "credential.list"
                (Encodable (JObject [])) (Some (JObject [])) c _ eq_refl eq_refl Hready)
    as (Hout & Hshort & _).
  split; [exact Hready|]. split.
  - apply Hshort. simpl. lia.
  - rewrite Hout. vm_compute. reflexivity.
Defined.

(** X6.  Calls and answers are paired by position.  When two frames are
    waiting, the first of two calls on the client is given the first
    and the second call the second, whatever ids the frames carry; the
    two requests go out with consecutive ids, one frame each, and what
    the peer sent after the second frame is left unread. *)
Theorem calls_take_frames_in_order (JSON : EncodingJSON)
    ctx m1 j1 m2 j2 c p1 p2 rest r1 r2 :
  prints_all JSON ->
  awaits ctx c p1 (frame_of p2 ++ rest) -> len p2 <= maxFrameSize ->
  Unmarshal_payload p1 = Ok r1 -> Unmarshal_payload p2 = Ok r2 ->
  fst (call ctx m1 (Encodable j1) c) = deliver r1
  /\ fst (call ctx m2 (Encodable j2) (snd (call ctx m1 (Encodable j1) c))) = deliver r2
  /\ inbound (conn (snd (call ctx m2 (Encodable j2)
                           (snd (call ctx m1 (Encodable j1) c))))) = rest
  /\ exists b1 b2,
       Marshal_RpcRequest (RpcRequest.mk (uint64 (nextID c)) m1 (Some j1)) = Ok b1 /\
       Marshal_RpcRequest (RpcRequest.mk (uint64 (nextID c + 1)) m2 (Some j2)) = Ok b2 /\
       outbound (conn (snd (call ctx m2 (Encodable j2)
                              (snd (call ctx m1 (Encodable j1) c))))) =
         outbound (conn c) ++ written b1 ++ written b2.
Proof.
  intros Hp Hw Hmax2 H1 H2.
  destruct (call_answered ctx m1 j1 c p1 (frame_of p2 ++ rest) r1 Hp Hw H1)
    as (b1 & Hb1 & Hc1).
  pose proof (awaits_served ctx c b1 p1 p2 rest Hw Hmax2) as Hw2.
  destruct (call_answered ctx m2 j2 _ p2 rest r2 Hp Hw2 H2) as (b2 & Hb2 & Hc2).
  rewrite Hc1. cbn [fst snd]. rewrite Hc2. cbn [fst snd].
  split; [reflexivity|]. split; [reflexivity|]. split; [reflexivity|].
  exists b1, b2. split; [exact Hb1|].
  assert (Hid : uint64 (nextID (served ctx b1 (frame_of p2 ++ rest) c)) = uint64 (nextID c + 1)).
  { unfold served, uint64. cbn [nextID]. apply Z.mod_mod. discriminate. }
  rewrite Hid in Hb2. split; [exact Hb2|].
  unfold served, written. cbn [conn outbound]. rewrite <- app_assoc. reflexivity.
Qed.

(** Two answers are waiting, with ids that belong to neither request. *)
Lemma calls_take_frames_in_order_witness :
  let first := "{'id':7,'result':[]}" in
  let second := "{'id':7,'result':{'success':true}}" in
  let c := mkClient (Reference.connected (Reference.frame first ++ Reference.frame second)) 1 in
  let c1 := snd (call Background "credential.list" (Encodable (JObject [])) c) in
  prints_all Reference.package /\
  fst (call Background "credential.list" (Encodable (JObject [])) c) = Ok (Some (JArray [])) /\
  fst (call Background "lease.release" (Encodable (releaseParams "L1")) c1) =
    Ok (Some (JObject [("success", JBool true)])).
Proof.
  intros first second c c1.
  assert (Hp : prints_all Reference.package) by (intros j; eexists; reflexivity).
  assert (Hw : awaits Background c (list_byte_of_string (Reference.text_of first))
                 (frame_of (list_byte_of_string (Reference.text_of second)) ++ [])).
  { split; [split; reflexivity|]. split; [rewrite app_nil_r; reflexivity|].
    vm_compute. discriminate. }
  assert (Hmax : len (list_byte_of_string (Reference.text_of second)) <= maxFrameSize)
    by (vm_compute; discriminate).
  pose proof (calls_take_frames_in_order Reference.package Background
                "credential.list" (JObject []) "lease.release" (releaseParams "L1")
                c _ _ [] (RpcResponse.mk 7 (Some (JArray [])) None)
                (RpcResponse.mk 7 (Some (JObject [("success", JBool true)])) None)
                Hp Hw Hmax eq_refl eq_refl) as (H1 & H2 & _).
  split; [exact Hp|]. split; [exact H1 | exact H2].
Defined.

(** X7.  An answer with [error] set to [null].  When the payload of the
    response is an object whose last member named [error] is [null],
    the call fails, with a [VaultError] of which every field is empty,
    whatever the object sends as [result]: a [null] error is an error
    payload. *)
Theorem null_error_member (JSON : EncodingJSON)
    ctx method params pb c bytes payload rest ms :
  Marshal_any params = Ok pb ->
  Marshal_RpcRequest (RpcRequest.mk (uint64 (nextID c)) method pb) = Ok bytes ->
  ready ctx (conn c) ->
  inbound (conn c) = frame_of payload ++ rest ->
  len payload <= maxFrameSize ->
  json_parse payload = Ok (JObject ms) ->
  response_shaped ms ->
  raw_sent "error" None ms = Some JNull ->
  fst (call ctx method params c) = Err (EVault VaultError.zero)
  /\ VaultError.Error VaultError.zero = "[] ".
Proof.
  intros HA HM Hready Hin Hmax HP Hs Hnull.
  split; [|reflexivity].
  rewrite (call_ready ctx method params pb c bytes payload rest HA HM Hready Hin Hmax).
  unfold Unmarshal_payload. rewrite HP.
  unfold Unmarshal_RpcResponse, Unmarshal_struct.
  rewrite (store_RpcResponse ms RpcResponse.zero Hs).
  cbn [fst RpcResponse.zero RpcResponse.Error]. unfold deliver.
  cbn [RpcResponse.Error]. rewrite Hnull. reflexivity.
Qed.

(** A vault that fills in both members of every answer. *)
Lemma null_error_member_witness :
  let text := "{'id':1,'result':{'path':'db/primary','ttl':60},'error':null}" in
  let c := mkClient (Reference.connected (Reference.frame text)) 1 in
  let ms := [("id", JInt 1);
             ("result", JObject [("path", JString "db/primary"); ("ttl", JInt 60)]);
             ("error", JNull)] in
  json_parse (list_byte_of_string (Reference.text_of text)) = Ok (JObject ms) /\
  response_shaped ms /\
  fst (Retrieve Background "db/primary" 300 c) = Err (EVault VaultError.zero).
Proof.
  intros text c ms.
  assert (HP : json_parse (list_byte_of_string (Reference.text_of text)) = Ok (JObject ms))
    by (vm_compute; reflexivity).
  assert (Hs : response_shaped ms).
  { intros k v [[= <- <-]|[[= <- <-]|[[= <- <-]|[]]]] Hn;
      solve [discriminate Hn | right; eexists; reflexivity | left; reflexivity]. }
  assert (Hready : ready Background (conn c)) by (split; reflexivity).
  assert (Hin : inbound (conn c) =
                frame_of (list_byte_of_string (Reference.text_of text)) ++ [])
    by (rewrite app_nil_r; reflexivity).
  assert (Hmax : len (list_byte_of_string (Reference.text_of text)) <= maxFrameSize)
    by (vm_compute; discriminate).
  split; [exact HP|]. split; [exact Hs|].
  pose proof (proj1 (null_error_member Reference.package Background "credential.retrieve"
                (Encodable (retrieveParams "db/primary" 300)) _ c _ _ [] ms
                eq_refl eq_refl Hready Hin Hmax HP Hs eq_refl)) as Hcall.
  unfold Retrieve. unfold retrieveParams in Hcall.
  destruct (call Background "credential.retrieve" _ c) as [[result|e] c1];
    cbn [fst] in Hcall |- *; [discriminate Hcall | injection Hcall as ->; reflexivity].
Defined.

(* ================================================================== *)
(** ** Further properties of the credential calls *)
(* ================================================================== *)

(** X8.  An answer with neither result nor error.  [Retrieve], [List]
    and [Use] then fail with the "unexpected end of JSON input" of
    decoding a nil result, wrapped as "parse credential", "parse
    credential list" and "parse use result"; [Authenticate] fails the
    same way with "parse challenge"; [ReleaseLease], which does not
    look at the result, returns [nil]. *)
Theorem operations_on_missing_result (JSON : EncodingJSON) (ED : Ed25519)
    ctx c payload rest resp :
  prints_all JSON -> awaits ctx c payload rest ->
  Unmarshal_payload payload = Ok resp ->
  RpcResponse.Error resp = None -> RpcResponse.Result resp = None ->
  (forall path ttl,
     fst (Retrieve ctx path ttl c) = Err (Wrap "parse credential" end_of_input))
  /\ fst (List ctx c) = Err (Wrap "parse credential list" end_of_input)
  /\ (forall path operation p,
        fst (Use ctx path operation (Encodable p) c) =
          Err (Wrap "parse use result" end_of_input))
  /\ (forall leaseID, fst (ReleaseLease ctx leaseID c) = None)
  /\ (forall agentName privateKey,
        fst (Authenticate ctx agentName privateKey c) =
          Returns (Some (Wrap "parse challenge" end_of_input))).
Proof.
  intros Hp Hw HU HE HR.
  assert (Hd : deliver resp = Ok None).
  { rewrite (deliver_result resp HE), HR. reflexivity. }
  split; [|split; [|split; [|split]]].
  - intros path ttl.
    destruct (Retrieve_answered ctx path ttl c payload rest resp Hp Hw HU) as (b & _ & ->).
    rewrite Hd. reflexivity.
  - destruct (List_answered ctx c payload rest resp Hp Hw HU) as (b & _ & ->).
    rewrite Hd. reflexivity.
  - intros path operation p.
    destruct (Use_answered ctx path operation p c payload rest resp Hp Hw HU) as (b & _ & ->).
    rewrite Hd. reflexivity.
  - intros leaseID.
    destruct (ReleaseLease_answered ctx leaseID c payload rest resp Hp Hw HU) as (b & _ & ->).
    rewrite Hd. reflexivity.
  - intros agentName privateKey.
    destruct (challenge_answered ctx agentName c payload rest resp Hp Hw HU) as (b & _ & Hc).
    unfold Authenticate. rewrite Hc, Hd. reflexivity.
Qed.

(** The vault answers with an id and nothing else. *)
Lemma operations_on_missing_result_witness :
  let text := "{'id':1}" in
  let c := mkClient (Reference.connected (Reference.frame text)) 1 in
  prints_all Reference.package /\
  awaits Background c (list_byte_of_string (Reference.text_of text)) [] /\
  fst (Retrieve Background "db/primary" 300 c) =
    Err (Wrap "parse credential" end_of_input) /\
  fst (ReleaseLease Background "L1" c) = None.
Proof.
  intros text c.
  assert (Hp : prints_all Reference.package) by (intros j; eexists; reflexivity).
  assert (Hw : awaits Background c (list_byte_of_string (Reference.text_of text)) []).
  { split; [split; reflexivity|]. split; [reflexivity|]. vm_compute. discriminate. }
  pose proof (operations_on_missing_result Reference.package Reference.signer
                Background c _ [] (RpcResponse.mk 1 None None)
                Hp Hw eq_refl eq_refl eq_refl) as (HR & _ & _ & HL & _).
  split; [exact Hp|]. split; [exact Hw|].
  split; [apply HR | apply HL].
Defined.

(** X9.  An answer whose result is [null].  No operation reports it:
    [Retrieve] returns the empty credential (no path, no value, no
    lease, ttl 0), [List] no entries, [Use] a result with [Success]
    false and no output, [ReleaseLease] [nil]; and the raw result of
    the call is the text [null], not [nil]. *)
Theorem operations_on_null_result (JSON : EncodingJSON)
    ctx c payload rest resp :
  prints_all JSON -> awaits ctx c payload rest ->
  Unmarshal_payload payload = Ok resp ->
  RpcResponse.Error resp = None -> RpcResponse.Result resp = Some JNull ->
  (forall method j, fst (call ctx method (Encodable j) c) = Ok (Some JNull))
  /\ (forall path ttl, fst (Retrieve ctx path ttl c) = Ok (Credential.mk "" None "" 0))
  /\ fst (List ctx c) = Ok []
  /\ (forall path operation p,
        fst (Use ctx path operation (Encodable p) c) = Ok (UseResult.mk false None))
  /\ (forall leaseID, fst (ReleaseLease ctx leaseID c) = None).
Proof.
  intros Hp Hw HU HE HR.
  assert (Hd : deliver resp = Ok (Some JNull)).
  { rewrite (deliver_result resp HE), HR. reflexivity. }
  split; [|split; [|split; [|split]]].
  - intros method j.
    destruct (call_answered ctx method j c payload rest resp Hp Hw HU) as (b & _ & ->).
    exact Hd.
  - intros path ttl.
    destruct (Retrieve_answered ctx path ttl c payload rest resp Hp Hw HU) as (b & _ & ->).
    rewrite Hd. reflexivity.
  - destruct (List_answered ctx c payload rest resp Hp Hw HU) as (b & _ & ->).
    rewrite Hd. reflexivity.
  - intros path operation p.
    destruct (Use_answered ctx path operation p c payload rest resp Hp Hw HU) as (b & _ & ->).
    rewrite Hd. reflexivity.
  - intros leaseID.
    destruct (ReleaseLease_answered ctx leaseID c payload rest resp Hp Hw HU) as (b & _ & ->).
    rewrite Hd. reflexivity.
Qed.

Lemma operations_on_null_result_witness :
  let text := "{'id':1,'result':null}" in
  let c := mkClient (Reference.connected (Reference.frame text)) 1 in
  Unmarshal_payload (list_byte_of_string (Reference.text_of text)) =
    Ok (RpcResponse.mk 1 (Some JNull) None) /\
  fst (Retrieve Background "db/primary" 300 c) = Ok (Credential.mk "" None "" 0) /\
  fst (Use Background "db/primary" "sign" (Encodable JNull) c) = Ok (UseResult.mk false None).
Proof.
  intros text c.
  assert (Hp : prints_all Reference.package) by (intros j; eexists; reflexivity).
  assert (Hw : awaits Background c (list_byte_of_string (Reference.text_of text)) []).
  { split; [split; reflexivity|]. split; [reflexivity|]. vm_compute. discriminate. }
  pose proof (operations_on_null_result Reference.package
                Background c _ [] (RpcResponse.mk 1 (Some JNull) None)
                Hp Hw eq_refl eq_refl eq_refl) as (_ & HR & _ & HUse & _).
  split; [reflexivity|]. split; [apply HR | apply HUse].
Defined.

(** X10.  How an error of the vault reaches the caller.  When the answer
    carries an error payload in the shape of the wire protocol,
    [Retrieve], [List], [Use] and [ReleaseLease] return the decoded
    [VaultError] itself, with no context around it, so that it can be
    told by its type; [Authenticate] returns it wrapped as "auth
    challenge", so that what it returns is not a [VaultError]. *)
Theorem vault_error_reaches_caller (JSON : EncodingJSON) (ED : Ed25519)
    ctx c payload rest resp ms :
  prints_all JSON -> awaits ctx c payload rest ->
  Unmarshal_payload payload = Ok resp ->
  RpcResponse.Error resp = Some (JObject ms) -> error_shaped ms ->
  exists vaultErr,
    vaultErr = VaultError.mk
                 (string_sent "code" "" ms) (string_sent "message" "" ms)
                 (string_sent "detail" "" ms) (string_sent "suggestion" "" ms)
                 (string_sent "docs_url" "" ms) (raw_sent "context" None ms)
    /\ (forall path ttl, fst (Retrieve ctx path ttl c) = Err (EVault vaultErr))
    /\ fst (List ctx c) = Err (EVault vaultErr)
    /\ (forall path operation p,
          fst (Use ctx path operation (Encodable p) c) = Err (EVault vaultErr))
    /\ (forall leaseID, fst (ReleaseLease ctx leaseID c) = Some (EVault vaultErr))
    /\ (forall agentName privateKey,
          fst (Authenticate ctx agentName privateKey c) =
            Returns (Some (Wrap "auth challenge" (EVault vaultErr)))
          /\ is_VaultError (Wrap "auth challenge" (EVault vaultErr)) = false).
Proof.
  intros Hp Hw HU HE Hs. eexists. split; [reflexivity|].
  assert (Hd : deliver resp =
               Err (EVault (VaultError.mk
                 (string_sent "code" "" ms) (string_sent "message" "" ms)
                 (string_sent "detail" "" ms) (string_sent "suggestion" "" ms)
                 (string_sent "docs_url" "" ms) (raw_sent "context" None ms)))).
  { rewrite (deliver_error resp (JObject ms) HE).
    unfold Unmarshal_VaultError, Unmarshal_struct.
    rewrite (store_VaultError ms VaultError.zero Hs). reflexivity. }
  split; [|split; [|split; [|split]]].
  - intros path ttl.
    destruct (Retrieve_answered ctx path ttl c payload rest resp Hp Hw HU) as (b & _ & ->).
    rewrite Hd. reflexivity.
  - destruct (List_answered ctx c payload rest resp Hp Hw HU) as (b & _ & ->).
    rewrite Hd. reflexivity.
  - intros path operation p.
    destruct (Use_answered ctx path operation p c payload rest resp Hp Hw HU) as (b & _ & ->).
    rewrite Hd. reflexivity.
  - intros leaseID.
    destruct (ReleaseLease_answered ctx leaseID c payload rest resp Hp Hw HU) as (b & _ & ->).
    rewrite Hd. reflexivity.
  - intros agentName privateKey. split; [|reflexivity].
    destruct (challenge_answered ctx agentName c payload rest resp Hp Hw HU) as (b & _ & Hc).
    unfold Authenticate. rewrite Hc, Hd. reflexivity.
Qed.

(** The vault is sealed. *)
Lemma vault_error_reaches_caller_witness :
  let text := "{'id':1,'error':{'code':'VAULT_LOCKED','message':'Vault is sealed'}}" in
  let c := mkClient (Reference.connected (Reference.frame text)) 1 in
  let vaultErr := VaultError.mk ErrVaultLocked "Vault is sealed" "" "" "" None in
  fst (List Background c) = Err (EVault vaultErr) /\
  fst (Authenticate Background "agent-1" Reference.key c) =
    Returns (Some (Wrap "auth challenge" (EVault vaultErr))).
Proof.
  intros text c vaultErr.
  assert (Hp : prints_all Reference.package) by (intros j; eexists; reflexivity).
  assert (Hw : awaits Background c (list_byte_of_string (Reference.text_of text)) []).
  { split; [split; reflexivity|]. split; [reflexivity|]. vm_compute. discriminate. }
  assert (Hs : error_shaped [("code", JString "VAULT_LOCKED");
                             ("message", JString "Vault is sealed")]).
  { repeat split; intros k v [[= <- <-]|[[= <- <-]|[]]] Hn;
      solve [discriminate Hn | right; eexists; reflexivity]. }
  destruct (vault_error_reaches_caller Reference.package Reference.signer
              Background c _ [] _ _ Hp Hw eq_refl eq_refl Hs)
    as (e & -> & _ & HL & _ & _ & HA).
  split; [exact HL | exact (proj1 (HA "agent-1" Reference.key))].
Defined.

(** X11.  What [Use] returns.  When the answer carries a result object
    and no error, [Use] succeeds exactly when every member named
    [success] is [null] or a boolean, and returns as [Success] the last
    boolean sent ([false] when none is sent) and as [Output] the last
    member named [output], as sent.  [Use] does not act on the flag: a
    result with [success] false, or without it, is returned without
    error.  Path, operation and parameters go out as the three members
    of the parameters of one [credential.use] request. *)
Theorem Use_returns_flag (JSON : EncodingJSON)
    ctx path operation p c payload rest resp ms :
  prints_all JSON -> awaits ctx c payload rest ->
  Unmarshal_payload payload = Ok resp ->
  RpcResponse.Error resp = None -> RpcResponse.Result resp = Some (JObject ms) ->
  (use_shaped ms ->
     fst (Use ctx path operation (Encodable p) c) =
       Ok (UseResult.mk (bool_sent "success" false ms) (raw_sent "output" None ms)))
  /\ (forall ur, fst (Use ctx path operation (Encodable p) c) = Ok ur -> use_shaped ms)
  /\ (exists bytes,
        Marshal_RpcRequest
          (RpcRequest.mk (uint64 (nextID c)) "credential.use"
             (Some (JObject [("operation", JString operation); ("params", p);
                             ("path", JString path)]))) = Ok bytes /\
        outbound (conn (snd (Use ctx path operation (Encodable p) c))) =
          outbound (conn c) ++ written bytes).
Proof.
  intros Hp Hw HU HE HR.
  destruct (Use_answered ctx path operation p c payload rest resp Hp Hw HU)
    as (bytes & Hb & HUse).
  rewrite HUse, (deliver_result resp HE), HR. cbn [fst snd].
  unfold Unmarshal_UseResult, Unmarshal_struct.
  split; [|split].
  - intros Hs. rewrite (store_UseResult ms UseResult.zero Hs). reflexivity.
  - intros ur H.
    destruct (store_members set_UseResult ms UseResult.zero) as [ur'|e] eqn:E;
      [|discriminate].
    exact (store_UseResult_shaped _ _ _ E).
  - exists bytes. split; [exact Hb | reflexivity].
Qed.

(** The vault reports that the operation did not succeed. *)
Lemma Use_returns_flag_witness :
  let text := "{'id':1,'result':{'success':false,'output':{'reason':'denied'}}}" in
  let c := mkClient (Reference.connected (Reference.frame text)) 1 in
  fst (Use Background "api/openai" "chat.completions" (Encodable (JObject [])) c) =
    Ok (UseResult.mk false (Some (JObject [("reason", JString "denied")]))).
Proof.
  intros text c.
  assert (Hp : prints_all Reference.package) by (intros j; eexists; reflexivity).
  assert (Hw : awaits Background c (list_byte_of_string (Reference.text_of text)) []).
  { split; [split; reflexivity|]. split; [reflexivity|]. vm_compute. discriminate. }
  assert (Hs : use_shaped [("success", JBool false);
                           ("output", JObject [("reason", JString "denied")])]).
  { intros k v [[= <- <-]|[[= <- <-]|[]]] Hn;
      solve [discriminate Hn | right; eexists; reflexivity]. }
  exact (proj1 (Use_returns_flag Reference.package Background "api/openai"
                  "chat.completions" (JObject []) c _ [] _ _
                  Hp Hw eq_refl eq_refl eq_refl) Hs).
Defined.

(** X12.  What [List] returns.  When the answer carries an array as its
    result and no error, [List] succeeds exactly when every element is
    [null] or an object whose members named [path], [type] and
    [description] are [null] or strings; it then returns one entry per
    element, in the order of the array, each with the strings its
    element sends (empty where none is sent).  One element that does
    not decode fails the whole list. *)
Theorem List_returns_entries (JSON : EncodingJSON)
    ctx c payload rest resp items :
  prints_all JSON -> awaits ctx c payload rest ->
  Unmarshal_payload payload = Ok resp ->
  RpcResponse.Error resp = None -> RpcResponse.Result resp = Some (JArray items) ->
  (Forall listed items -> fst (List ctx c) = Ok (map info_of items))
  /\ (forall creds,
        fst (List ctx c) = Ok creds ->
        Forall listed items /\ creds = map info_of items /\
        List.length creds = List.length items)
  /\ (~ Forall listed items ->
      exists e, fst (List ctx c) = Err (Wrap "parse credential list" e)).
Proof.
  intros Hp Hw HU HE HR.
  destruct (List_answered ctx c payload rest resp Hp Hw HU) as (bytes & _ & ->).
  rewrite (deliver_result resp HE), HR. cbn [fst Unmarshal_CredentialInfos].
  split; [|split].
  - intros Hl. rewrite (store_items_listed items Hl). reflexivity.
  - intros creds H.
    destruct (store_items _ _ _ items) as [creds'|e] eqn:E; [|discriminate].
    pose proof (store_items_Ok items creds' E) as Hl.
    rewrite (store_items_listed items Hl) in E.
    injection E as <-. injection H as <-.
    split; [exact Hl|]. split; [reflexivity | apply length_map].
  - intros Hn.
    destruct (store_items _ _ _ items) as [creds'|e] eqn:E.
    + exfalso. apply Hn. exact (store_items_Ok items creds' E).
    + exists e. reflexivity.
Qed.

(** Two entries, the second without description. *)
Lemma List_returns_entries_witness :
  let text := "{'id':1,'result':[{'path':'db/primary','type':'password','description':'main'},{'path':'api/openai','type':'token'}]}" in
  let c := mkClient (Reference.connected (Reference.frame text)) 1 in
  fst (List Background c) =
    Ok [CredentialInfo.mk "db/primary" "password" "main";
        CredentialInfo.mk "api/openai" "token" ""].
Proof.
  intros text c.
  assert (Hp : prints_all Reference.package) by (intros j; eexists; reflexivity).
  assert (Hw : awaits Background c (list_byte_of_string (Reference.text_of text)) []).
  { split; [split; reflexivity|]. split; [reflexivity|]. vm_compute. discriminate. }
  assert (Hl : Forall listed
                 [JObject [("path", JString "db/primary"); ("type", JString "password");
                           ("description", JString "main")];
                  JObject [("path", JString "api/openai"); ("type", JString "token")]]).
  { apply Forall_cons; [|apply Forall_cons; [|apply Forall_nil]];
      right; eexists; (split; [reflexivity|]); repeat split;
      intros k v Hin Hn; simpl in Hin;
      repeat (destruct Hin as [[= <- <-]|Hin];
              [solve [discriminate Hn | right; eexists; reflexivity]|]);
      destruct Hin. }
  exact (proj1 (List_returns_entries Reference.package Background c _ [] _ _
                  Hp Hw eq_refl eq_refl eq_refl) Hl).
Defined.

(** X13.  Retrieving a credential and releasing its lease, as the
    quick start does.  When the vault answers the first call with a
    credential in the shape of the wire protocol and the second with
    any answer without error payload, [Retrieve] returns the
    credential, and [ReleaseLease] on its [LeaseID] returns [nil]
    after sending, as the request after that of [Retrieve], a
    [lease.release] for exactly the [lease_id] the vault sent. *)
Theorem Retrieve_then_ReleaseLease (JSON : EncodingJSON)
    ctx path ttl c p1 p2 rest r1 r2 ms :
  prints_all JSON ->
  awaits ctx c p1 (frame_of p2 ++ rest) -> len p2 <= maxFrameSize ->
  Unmarshal_payload p1 = Ok r1 -> Unmarshal_payload p2 = Ok r2 ->
  RpcResponse.Error r1 = None -> RpcResponse.Result r1 = Some (JObject ms) ->
  credential_shaped ms ->
  RpcResponse.Error r2 = None ->
  exists cred b1 b2,
    Retrieve ctx path ttl c = (Ok cred, served ctx b1 (frame_of p2 ++ rest) c)
    /\ Credential.LeaseID cred = string_sent "lease_id" "" ms
    /\ fst (ReleaseLease ctx (Credential.LeaseID cred) (snd (Retrieve ctx path ttl c))) = None
    /\ Marshal_RpcRequest
         (RpcRequest.mk (uint64 (nextID c)) "credential.retrieve"
            (Some (JObject [("path", JString path); ("ttl", JInt ttl)]))) = Ok b1
    /\ Marshal_RpcRequest
         (RpcRequest.mk (uint64 (nextID c + 1)) "lease.release"
            (Some (JObject [("lease_id", JString (string_sent "lease_id" "" ms))]))) = Ok b2
    /\ outbound (conn (snd (ReleaseLease ctx (Credential.LeaseID cred)
                              (snd (Retrieve ctx path ttl c))))) =
         outbound (conn c) ++ written b1 ++ written b2.
Proof.
  intros Hp Hw Hmax2 H1 H2 HE1 HR1 Hs HE2.
  destruct (Retrieve_answered ctx path ttl c p1 (frame_of p2 ++ rest) r1 Hp Hw H1)
    as (b1 & Hb1 & HRet).
  rewrite (deliver_result r1 HE1), HR1 in HRet.
  unfold Unmarshal_Credential, Unmarshal_struct in HRet.
  rewrite (store_Credential ms Credential.zero Hs) in HRet.
  cbn [Credential.zero Credential.Path Credential.Value Credential.LeaseID Credential.TTL]
    in HRet.
  pose proof (awaits_served ctx c b1 p1 p2 rest Hw Hmax2) as Hw2.
  destruct (ReleaseLease_answered ctx (string_sent "lease_id" "" ms) _ p2 rest r2 Hp Hw2 H2)
    as (b2 & Hb2 & HRel).
  rewrite (deliver_result r2 HE2) in HRel.
  exists (Credential.mk (string_sent "path" "" ms) (raw_sent "value" None ms)
            (string_sent "lease_id" "" ms) (uint_sent "ttl" 0 ms)).
  exists b1, b2. rewrite HRet. cbn [fst snd Credential.LeaseID].
  rewrite HRel. cbn [fst snd].
  split; [reflexivity|]. split; [reflexivity|]. split; [reflexivity|].
  split; [exact Hb1|].
  assert (Hid : uint64 (nextID (served ctx b1 (frame_of p2 ++ rest) c)) = uint64 (nextID c + 1)).
  { unfold served, uint64. cbn [nextID]. apply Z.mod_mod. discriminate. }
  rewrite Hid in Hb2. split; [exact Hb2|].
  unfold served, written. cbn [conn outbound]. rewrite <- app_assoc. reflexivity.
Qed.

Lemma Retrieve_then_ReleaseLease_witness :
  let granted := "{'id':1,'result':{'path':'database/primary','value':'s3cr3t','lease_id':'L-17','ttl':300}}" in
  let released := "{'id':2,'result':{}}" in
  let c := mkClient (Reference.connected (Reference.frame granted ++ Reference.frame released)) 1 in
  exists cred c1,
    Retrieve Background "database/primary" 300 c = (Ok cred, c1) /\
    Credential.LeaseID cred = "L-17" /\
    fst (ReleaseLease Background (Credential.LeaseID cred) c1) = None /\
    outbound (conn (snd (ReleaseLease Background (Credential.LeaseID cred) c1))) =
      Reference.frame "{'id':1,'method':'credential.retrieve','params':{'path':'database/primary','ttl':300}}"
      ++ Reference.frame "{'id':2,'method':'lease.release','params':{'lease_id':'L-17'}}".
Proof.
  intros granted released c.
  assert (Hp : prints_all Reference.package) by (intros j; eexists; reflexivity).
  assert (Hw : awaits Background c (list_byte_of_string (Reference.text_of granted))
                 (frame_of (list_byte_of_string (Reference.text_of released)) ++ [])).
  { split; [split; reflexivity|]. split; [rewrite app_nil_r; reflexivity|].
    vm_compute. discriminate. }
  assert (Hmax : len (list_byte_of_string (Reference.text_of released)) <= maxFrameSize)
    by (vm_compute; discriminate).
  assert (Hs : credential_shaped
                 [("path", JString "database/primary"); ("value", JString "s3cr3t");
                  ("lease_id", JString "L-17"); ("ttl", JInt 300)]).
  { repeat split; intros k v [[= <- <-]|[[= <- <-]|[[= <- <-]|[[= <- <-]|[]]]]] Hn;
      solve [discriminate Hn | right; eexists; reflexivity]. }
  destruct (Retrieve_then_ReleaseLease Reference.package Background
              "database/primary" 300 c _ _ [] _ (RpcResponse.mk 2 (Some (JObject [])) None) _
              Hp Hw Hmax eq_refl eq_refl eq_refl eq_refl Hs eq_refl)
    as (cred & b1 & b2 & HRet & HL & HRel & Hb1 & Hb2 & Hout).
  exists cred. eexists. split; [exact HRet|].
  rewrite HRet in HRel, Hout. cbn [snd] in HRel, Hout.
  split; [exact HL|]. split; [exact HRel|].
  rewrite Hout. injection Hb1 as <-. injection Hb2 as <-. vm_compute. reflexivity.
Defined.

(* ================================================================== *)
(** ** Further properties of the handshake *)
(* ================================================================== *)

(** X14.  What the handshake puts on the wire.  With a private key of
    the size ed25519 takes, when the vault answers [auth.challenge] with
    a result whose [challenge] is valid hexadecimal text and then
    answers [auth.verify], [Authenticate] sends exactly two requests,
    with consecutive ids and the agent name in both: [auth.challenge],
    and [auth.verify] with, as [signature], the hexadecimal text of the
    signature of the decoded challenge bytes under the key.  It reads
    the two answers and nothing more, and it returns [nil] when the
    second answer says [authenticated] true. *)
Theorem Authenticate_sends_signature (JSON : EncodingJSON) (ED : Ed25519)
    ctx agentName privateKey c p1 p2 rest r1 r2 ms challengeBytes :
  prints_all JSON -> List.length privateKey = PrivateKeySize ->
  awaits ctx c p1 (frame_of p2 ++ rest) -> len p2 <= maxFrameSize ->
  Unmarshal_payload p1 = Ok r1 -> RpcResponse.Error r1 = None ->
  RpcResponse.Result r1 = Some (JObject ms) -> challenge_shaped ms ->
  hex_DecodeString (string_sent "challenge" "" ms) = Ok challengeBytes ->
  Unmarshal_payload p2 = Ok r2 ->
  exists b1 b2,
    Marshal_RpcRequest
      (RpcRequest.mk (uint64 (nextID c)) "auth.challenge"
         (Some (JObject [("agent", JString agentName)]))) = Ok b1
    /\ Marshal_RpcRequest
         (RpcRequest.mk (uint64 (nextID c + 1)) "auth.verify"
            (Some (JObject
               [("agent", JString agentName);
                ("signature",
                 JString (hex_EncodeToString (signature_of privateKey challengeBytes)))])))
       = Ok b2
    /\ outbound (conn (snd (Authenticate ctx agentName privateKey c))) =
         outbound (conn c) ++ written b1 ++ written b2
    /\ inbound (conn (snd (Authenticate ctx agentName privateKey c))) = rest
    /\ nextID (snd (Authenticate ctx agentName privateKey c)) = uint64 (nextID c + 2)
    /\ (forall vs,
          RpcResponse.Error r2 = None -> RpcResponse.Result r2 = Some (JObject vs) ->
          verdict_shaped vs -> bool_sent "authenticated" false vs = true ->
          fst (Authenticate ctx agentName privateKey c) = Returns None).
Proof.
  intros Hp Hkey Hw Hmax2 H1 HE1 HR1 Hs Hhex H2.
  assert (Hch : Unmarshal_authChallenge (RpcResponse.Result r1) =
                Ok (authChallenge.mk (string_sent "challenge" "" ms))).
  { rewrite HR1. unfold Unmarshal_authChallenge, Unmarshal_struct.
    rewrite (store_authChallenge ms authChallenge.zero Hs). reflexivity. }
  destruct (Authenticate_answered ctx agentName privateKey c p1 p2 rest r1 r2
              _ challengeBytes Hp Hkey Hw Hmax2 H1 HE1 Hch Hhex H2)
    as (b1 & b2 & Hb1 & Hb2 & HA).
  exists b1, b2. rewrite HA. cbn [fst snd conn nextID inbound outbound].
  split; [exact Hb1|]. split; [exact Hb2|].
  split; [reflexivity|]. split; [reflexivity|]. split; [reflexivity|].
  intros vs HE2 HR2 Hvs Hauth.
  rewrite (deliver_result r2 HE2), HR2.
  unfold Unmarshal_authResult, Unmarshal_struct.
  rewrite (store_authResult vs authResult.zero Hvs).
  cbn [authResult.Authenticated authResult.zero]. rewrite Hauth. reflexivity.
Qed.

(** The challenge is the two bytes 00 ff. *)
Lemma Authenticate_sends_signature_witness :
  let challenge := "{'id':1,'result':{'challenge':'00ff'}}" in
  let verdict := "{'id':2,'result':{'authenticated':true,'session_id':'S-1'}}" in
  let c := mkClient (Reference.connected
                       (Reference.frame challenge ++ Reference.frame verdict)) 1 in
  exists b2,
    Marshal_RpcRequest
      (RpcRequest.mk 2 "auth.verify"
         (Some (JObject
            [("agent", JString "agent-1");
             ("signature",
              JString (hex_EncodeToString (signature_of Reference.key [x00; xff])))])))
      = Ok b2 /\
    outbound (conn (snd (Authenticate Background "agent-1" Reference.key c))) =
      Reference.frame "{'id':1,'method':'auth.challenge','params':{'agent':'agent-1'}}"
      ++ written b2 /\
    fst (Authenticate Background "agent-1" Reference.key c) = Returns None.
Proof.
  intros challenge verdict c.
  assert (Hp : prints_all Reference.package) by (intros j; eexists; reflexivity).
  assert (Hw : awaits Background c (list_byte_of_string (Reference.text_of challenge))
                 (frame_of (list_byte_of_string (Reference.text_of verdict)) ++ [])).
  { split; [split; reflexivity|]. split; [rewrite app_nil_r; reflexivity|].
    vm_compute. discriminate. }
  assert (Hmax : len (list_byte_of_string (Reference.text_of verdict)) <= maxFrameSize)
    by (vm_compute; discriminate).
  assert (Hs : challenge_shaped [("challenge", JString "00ff")]).
  { intros k v [[= <- <-]|[]] Hn. right. eexists. reflexivity. }
  assert (Hvs : verdict_shaped [("authenticated", JBool true); ("session_id", JString "S-1")]).
  { repeat split; intros k v [[= <- <-]|[[= <- <-]|[]]] Hn;
      solve [discriminate Hn | right; eexists; reflexivity]. }
  destruct (Authenticate_sends_signature Reference.package Reference.signer
              Background "agent-1" Reference.key c _ _ [] _
              (RpcResponse.mk 2 (Some (JObject [("authenticated", JBool true);
                                                ("session_id", JString "S-1")])) None)
              _ [x00; xff]
              Hp eq_refl Hw Hmax eq_refl eq_refl eq_refl Hs eq_refl eq_refl)
    as (b1 & b2 & Hb1 & Hb2 & Hout & _ & _ & Hnil).
  exists b2. split; [exact Hb2|]. split.
  - rewrite Hout. injection Hb1 as <-. reflexivity.
  - exact (Hnil _ eq_refl eq_refl Hvs eq_refl).
Defined.

(** X15.  A challenge that is not there.  When the result of
    [auth.challenge] is [null], or an object that sends no [challenge],
    [Authenticate] does not stop: the challenge is the empty string,
    which decodes to no bytes, and the [auth.verify] request goes out
    with the signature of the empty message. *)
Theorem Authenticate_signs_empty_challenge (JSON : EncodingJSON) (ED : Ed25519)
    ctx agentName privateKey c p1 p2 rest r1 r2 :
  prints_all JSON -> List.length privateKey = PrivateKeySize ->
  awaits ctx c p1 (frame_of p2 ++ rest) -> len p2 <= maxFrameSize ->
  Unmarshal_payload p1 = Ok r1 -> RpcResponse.Error r1 = None ->
  (RpcResponse.Result r1 = Some JNull \/
   exists ms, RpcResponse.Result r1 = Some (JObject ms) /\ sends "challenge" ms = None) ->
  Unmarshal_payload p2 = Ok r2 ->
  exists b1 b2,
    Marshal_RpcRequest
      (RpcRequest.mk (uint64 (nextID c)) "auth.challenge"
         (Some (JObject [("agent", JString agentName)]))) = Ok b1
    /\ Marshal_RpcRequest
         (RpcRequest.mk (uint64 (nextID c + 1)) "auth.verify"
            (Some (JObject
               [("agent", JString agentName);
                ("signature",
                 JString (hex_EncodeToString (signature_of privateKey [])))])))
       = Ok b2
    /\ outbound (conn (snd (Authenticate ctx agentName privateKey c))) =
         outbound (conn c) ++ written b1 ++ written b2.
Proof.
  intros Hp Hkey Hw Hmax2 H1 HE1 HR1 H2.
  assert (Hch : Unmarshal_authChallenge (RpcResponse.Result r1) = Ok (authChallenge.mk "")).
  { destruct HR1 as [->|(ms & -> & Hnone)]; [reflexivity|].
    unfold Unmarshal_authChallenge, Unmarshal_struct.
    rewrite (store_authChallenge ms authChallenge.zero
               (sends_None_typed as_string "challenge" ms Hnone)).
    unfold string_sent, value_sent. rewrite Hnone. reflexivity. }
  destruct (Authenticate_answered ctx agentName privateKey c p1 p2 rest r1 r2
              _ [] Hp Hkey Hw Hmax2 H1 HE1 Hch eq_refl H2)
    as (b1 & b2 & Hb1 & Hb2 & HA).
  exists b1, b2. rewrite HA. cbn [fst snd conn outbound].
  split; [exact Hb1|]. split; [exact Hb2|]. reflexivity.
Qed.

Lemma Authenticate_signs_empty_challenge_witness :
  let challenge := "{'id':1,'result':{}}" in
  let verdict := "{'id':2,'result':{'authenticated':true}}" in
  let c := mkClient (Reference.connected
                       (Reference.frame challenge ++ Reference.frame verdict)) 1 in
  exists b1 b2,
    Marshal_RpcRequest
      (RpcRequest.mk 2 "auth.verify"
         (Some (JObject
            [("agent", JString "agent-1");
             ("signature", JString (hex_EncodeToString (signature_of Reference.key [])))])))
      = Ok b2 /\
    outbound (conn (snd (Authenticate Background "agent-1" Reference.key c))) =
      written b1 ++ written b2 /\
    fst (Authenticate Background "agent-1" Reference.key c) = Returns None.
Proof.
  intros challenge verdict c.
  assert (Hp : prints_all Reference.package) by (intros j; eexists; reflexivity).
  assert (Hw : awaits Background c (list_byte_of_string (Reference.text_of challenge))
                 (frame_of (list_byte_of_string (Reference.text_of verdict)) ++ [])).
  { split; [split; reflexivity|]. split; [rewrite app_nil_r; reflexivity|].
    vm_compute. discriminate. }
  assert (Hmax : len (list_byte_of_string (Reference.text_of verdict)) <= maxFrameSize)
    by (vm_compute; discriminate).
  destruct (Authenticate_signs_empty_challenge Reference.package Reference.signer
              Background "agent-1" Reference.key c _ _ [] (RpcResponse.mk 1 (Some (JObject [])) None)
              (RpcResponse.mk 2 (Some (JObject [("authenticated", JBool true)])) None)
              Hp eq_refl Hw Hmax eq_refl eq_refl
              (or_intror (ex_intro _ [] (conj eq_refl eq_refl))) eq_refl)
    as (b1 & b2 & Hb1 & Hb2 & Hout).
  exists b1, b2. split; [exact Hb2|]. split; [exact Hout|].
  vm_compute. reflexivity.
Defined.

(** X16.  A private key of the wrong size.  [Authenticate] does not
    check the length of the key.  With a key that is not of the 64
    bytes ed25519 takes, it panics in [ed25519.Sign] exactly when the
    [auth.challenge] call succeeds and its challenge decodes, that is
    after one request was sent and answered; in every other case it
    returns an error.  It never returns [nil], and no [auth.verify]
    request is made: the client is left as the [auth.challenge] call
    left it. *)
Theorem Authenticate_key_size (JSON : EncodingJSON) (ED : Ed25519)
    ctx agentName privateKey c :
  List.length privateKey <> PrivateKeySize ->
  snd (Authenticate ctx agentName privateKey c) = snd (challengeCall ctx agentName c)
  /\ fst (Authenticate ctx agentName privateKey c) <> Returns None
  /\ ((exists result challenge challengeBytes,
         fst (challengeCall ctx agentName c) = Ok result /\
         Unmarshal_authChallenge result = Ok challenge /\
         hex_DecodeString (authChallenge.Challenge challenge) = Ok challengeBytes)
      <-> fst (Authenticate ctx agentName privateKey c) =
            Panics ("ed25519: bad private key length: " ++ decimal (len privateKey)))
  /\ ((exists msg, fst (Authenticate ctx agentName privateKey c) = Panics msg) \/
      (exists e, fst (Authenticate ctx agentName privateKey c) = Returns (Some e))).
Proof.
  intros Hkey. apply Nat.eqb_neq in Hkey.
  unfold challengeCall, Authenticate, ed25519_Sign. rewrite Hkey.
  destruct (call ctx "auth.challenge" _ c) as [[result|e1] c1]; cbn [fst snd].
  2: { split; [reflexivity|]. split; [discriminate|]. split.
       - split; [intros (r & ch & b & E & _); discriminate | discriminate].
       - right. eexists. reflexivity. }
  destruct (Unmarshal_authChallenge result) as [challenge|e2] eqn:H2; cbn [fst snd].
  2: { split; [reflexivity|]. split; [discriminate|]. split.
       - split; [intros (r & ch & b & E & E' & _); congruence | discriminate].
       - right. eexists. reflexivity. }
  destruct (hex_DecodeString (authChallenge.Challenge challenge))
    as [challengeBytes|e3] eqn:H3; cbn [fst snd].
  2: { split; [reflexivity|]. split; [discriminate|]. split.
       - split; [|discriminate].
         intros (r & ch & b & E & E' & E'').
         assert (r = result) by congruence. subst r.
         assert (ch = challenge) by congruence. subst ch. congruence.
       - right. eexists. reflexivity. }
  split; [reflexivity|]. split; [discriminate|]. split.
  - split; [reflexivity|]. intros _. exists result, challenge, challengeBytes.
    repeat split; assumption.
  - left. eexists. reflexivity.
Qed.

(** A key of 32 bytes, the seed of a key instead of the key. *)
Lemma Authenticate_key_size_witness :
  let challenge := "{'id':1,'result':{'challenge':'00ff'}}" in
  let c := mkClient (Reference.connected (Reference.frame challenge)) 1 in
  let seed := repeat x2a 32 in
  List.length seed <> PrivateKeySize /\
  fst (Authenticate Background "agent-1" seed c) =
    Panics "ed25519: bad private key length: 32" /\
  outbound (conn (snd (Authenticate Background "agent-1" seed c))) =
    Reference.frame "{'id':1,'method':'auth.challenge','params':{'agent':'agent-1'}}".
Proof.
  intros challenge c seed.
  assert (Hkey : List.length seed <> PrivateKeySize) by (vm_compute; discriminate).
  destruct (Authenticate_key_size Reference.package Reference.signer
              Background "agent-1" seed c Hkey) as (Hsnd & _ & Hpanic & _).
  split; [exact Hkey|]. split.
  - apply (proj1 Hpanic).
    exists (Some (JObject [("challenge", JString "00ff")])), (authChallenge.mk "00ff"),
           [x00; xff].
    split; [vm_compute; reflexivity|]. split; reflexivity.
  - rewrite Hsnd. vm_compute. reflexivity.
Defined.

(** X17.  The hexadecimal text of the signature.  What
    [hex.EncodeToString] writes is two digits per byte, is valid
    hexadecimal text, and is decoded by [hex.DecodeString] to the bytes
    it was written from: the vault can read back the signature that
    [Authenticate] sends. *)
Theorem hex_round_trip (b : bytes) :
  hex_DecodeString (hex_EncodeToString b) = Ok b
  /\ valid_hex (hex_EncodeToString b) = true
  /\ String.length (hex_EncodeToString b) = (2 * List.length b)%nat.
Proof.
  assert (Hround : hex_DecodeString (hex_EncodeToString b) = Ok b).
  { induction b as [|x b IH]; [reflexivity|].
    cbn [hex_EncodeToString hex_DecodeString].
    destruct (hex_digits_of_byte x) as (Hhi & Hlo & Hx).
    rewrite Hhi, Hlo, IH, Hx. reflexivity. }
  split; [exact Hround|]. split.
  - rewrite hex_DecodeString_valid, Hround. reflexivity.
  - induction b as [|x b IH]; [reflexivity|].
    cbn [hex_EncodeToString String.length List.length]. rewrite IH; [lia|].
    clear IH. revert Hround. cbn [hex_EncodeToString hex_DecodeString].
    destruct (hex_digits_of_byte x) as (Hhi & Hlo & Hx).
    rewrite Hhi, Hlo.
    destruct (hex_DecodeString (hex_EncodeToString b)) as [bs|e]; [|discriminate].
    intros [= _ ->]. reflexivity.
Qed.

(* ================================================================== *)
(** ** The text of the errors *)
(* ================================================================== *)

(** X18.  The text of a [VaultError].  It is the code in brackets, a
    space and the message, followed, only when the detail is not empty,
    by the separator and the detail.  The suggestion, the docs URL and
    the context are not in it: two errors that differ only there have
    the same text.  The text does not determine the fields: an error
    with a detail reads the same as the error without detail whose
    message ends in the separator and that detail. *)
Theorem VaultError_Error_text (e : VaultError.t) :
  (exists tail,
     VaultError.Error e =
       ("[" ++ VaultError.Code e ++ "] " ++ VaultError.Message e ++ tail)%string
     /\ (tail = "" <-> VaultError.Detail e = "")
     /\ (VaultError.Detail e <> "" ->
         tail = (VaultError.separator ++ VaultError.Detail e)%string))
  /\ (forall suggestion docs context,
        VaultError.Error
          (VaultError.mk (VaultError.Code e) (VaultError.Message e) (VaultError.Detail e)
             suggestion docs context) = VaultError.Error e)
  /\ (VaultError.Detail e <> "" ->
      VaultError.Error
        (VaultError.mk (VaultError.Code e)
           (VaultError.Message e ++ VaultError.separator ++ VaultError.Detail e)%string ""
           (VaultError.Suggestion e) (VaultError.DocsURL e) (VaultError.Context e))
      = VaultError.Error e).
Proof.
  destruct e as [code message detail suggestion docs context].
  unfold VaultError.Error.
  cbn [VaultError.Code VaultError.Message VaultError.Detail VaultError.Suggestion
       VaultError.DocsURL VaultError.Context].
  split; [|split].
  - destruct (String.eqb_spec detail "") as [->|Hd].
    + exists "". rewrite string_app_nil_r.
      split; [reflexivity|]. split; [split; reflexivity|].
      intros H. contradiction H. reflexivity.
    + exists (VaultError.separator ++ detail)%string.
      rewrite !string_app_assoc.
      split; [reflexivity|]. split; [|reflexivity].
      split; [discriminate | intros H; contradiction (Hd H)].
  - reflexivity.
  - intros Hd. destruct (String.eqb_spec detail "") as [->|_];
      [contradiction Hd; reflexivity|].
    cbn [String.eqb]. rewrite !string_app_assoc. reflexivity.
Qed.

(* ================================================================== *)
(** ** Properties of the bindings *)
(* ================================================================== *)

(** The examples run on the library in memory. *)
#[local] Existing Instance ReferenceVault.header.
#[local] Existing Instance ReferenceVault.runtime.
#[local] Existing Instance ReferenceVault.library.

(** X19.  [resultToError].  It returns [nil] for the code [OK] and for
    no other.  It never returns [ErrUnknown], which the package
    declares.  An error value of the package is returned only for the
    code it stands for, and a code that is none of the ten the switch
    names gives a fresh error whose text is "sanctum: error code "
    and the code in decimal.  When the ten codes are pairwise distinct,
    each of the nine failure codes gives its own error value. *)
Theorem resultToError_codes (H : Bindings.Header) (code : Z) :
  (Bindings.resultToError code = None <-> code = Bindings.OK)
  /\ Bindings.resultToError code <> Some (Bindings.Sentinel Bindings.ErrUnknown)
  /\ (forall s,
        Bindings.resultToError code = Some (Bindings.Sentinel s) ->
        Bindings.code_of s = Some code)
  /\ (~ In code Bindings.codes ->
      Bindings.resultToError code =
        Some (Bindings.New ("sanctum: error code " ++ Bindings.fmt_d code)))
  /\ (NoDup Bindings.codes ->
      forall s, Bindings.code_of s = Some code ->
        Bindings.resultToError code = Some (Bindings.Sentinel s)).
Proof.
  split; [apply resultToError_None|]. split; [|split; [|split]].
  - unfold Bindings.resultToError.
    repeat match goal with
    | |- context [(code =? ?c)%Z] => destruct (code =? c)%Z
    end; discriminate.
  - intros s. unfold Bindings.resultToError.
    repeat match goal with
    | |- context [(code =? ?c)%Z] => destruct (Z.eqb_spec code c)
    end; intros [= <-]; cbn [Bindings.code_of]; congruence.
  - intros Hnot. unfold Bindings.resultToError.
    repeat match goal with
    | |- context [(code =? ?c)%Z] =>
        destruct (Z.eqb_spec code c);
        [exfalso; apply Hnot; unfold Bindings.codes; simpl;
         repeat (first [left; congruence | right])|]
    end.
    reflexivity.
  - intros Hnd s Hs. unfold Bindings.codes in Hnd.
    repeat match type of Hnd with
    | NoDup (_ :: _) =>
        let Hn := fresh "Hn" in
        apply NoDup_cons_iff in Hnd; destruct Hnd as [Hn Hnd]; simpl in Hn
    end.
    repeat match goal with
    | Hx : ~ (_ \/ _) |- _ =>
        apply Decidable.not_or in Hx; let Hy := fresh "Hd" in destruct Hx as [Hy Hx]
    end.
    destruct s; cbn [Bindings.code_of] in Hs; try discriminate Hs;
      injection Hs as <-; unfold Bindings.resultToError;
      repeat match goal with
      | |- context [(?a =? ?c)%Z] =>
          let E := fresh "E" in
          destruct (Z.eqb_spec a c) as [E|E];
          [first [reflexivity | congruence]|]
      end;
      congruence.
Qed.

Lemma resultToError_codes_witness :
  NoDup (@Bindings.codes ReferenceVault.header) /\
  @Bindings.resultToError ReferenceVault.header 5 =
    Some (Bindings.Sentinel Bindings.ErrNotFound) /\
  @Bindings.resultToError ReferenceVault.header 42 =
    Some (Bindings.New "sanctum: error code 42").
Proof.
  assert (Hnd : NoDup (@Bindings.codes ReferenceVault.header)).
  { unfold Bindings.codes. cbn.
    repeat (apply NoDup_cons; [simpl; intros Hin; repeat destruct Hin as [Hin|Hin];
                               try discriminate Hin; exact Hin|]).
    apply NoDup_nil. }
  split; [exact Hnd|]. split.
  - exact (proj2 (proj2 (proj2 (proj2
      (resultToError_codes ReferenceVault.header 5)))) Hnd Bindings.ErrNotFound eq_refl).
  - apply (proj1 (proj2 (proj2 (proj2
      (resultToError_codes ReferenceVault.header 42))))).
    unfold Bindings.codes. cbn. intros Hin.
    repeat destruct Hin as [Hin|Hin]; try discriminate Hin. exact Hin.
Defined.

(** X20.  A vault that has been closed.  [Close] frees the handle once
    and forgets it: closing again does nothing, and [Store],
    [Retrieve], [CheckPolicy] and [AuditLog] on the closed vault fail
    with "sanctum: vault is closed" without calling the library, also
    where an empty secret would otherwise make [Store] panic. *)
Theorem closed_vault_refuses (H : Bindings.Header) (R : Bindings.Runtime)
    (W : Type) (L : Bindings.Library W) (v : Bindings.Vault) (w : W) :
  Bindings.ptr (fst (Bindings.Close v w)) = None
  /\ snd (Bindings.Close v w) =
       match Bindings.ptr v with
       | Some p => Bindings.sanctum_vault_free p w
       | None => w
       end
  /\ forall w',
       Bindings.Close (fst (Bindings.Close v w)) w' = (fst (Bindings.Close v w), w')
       /\ (forall name secret agentID policyJSON,
             Bindings.Store name secret agentID policyJSON (fst (Bindings.Close v w)) w' =
               (Returns (Some Bindings.closed_error), w'))
       /\ (forall name agentID,
             Bindings.Retrieve name agentID (fst (Bindings.Close v w)) w' =
               (Returns (None, Some Bindings.closed_error), w'))
       /\ (forall name agentID,
             Bindings.CheckPolicy name agentID (fst (Bindings.Close v w)) w' =
               (Some Bindings.closed_error, w'))
       /\ (forall agentIDFilter,
             Bindings.AuditLog agentIDFilter (fst (Bindings.Close v w)) w' =
               (Returns ("", Some Bindings.closed_error), w')).
Proof.
  destruct v as [[p|]]; unfold Bindings.Close; cbn [Bindings.ptr fst snd];
    (split; [reflexivity|]); (split; [reflexivity|]);
    intros w'; repeat split.
Qed.


(** X22.  [Store] on an open vault.  It panics exactly when the secret
    is empty, before the library is called.  Otherwise it calls
    [sanctum_vault_store] once, with the policy as a nil pointer
    exactly when [policyJSON] is empty, and returns the error of the
    result code: [nil] exactly when the library answers [OK]. *)
Theorem Store_outcomes (H : Bindings.Header) (R : Bindings.Runtime)
    (W : Type) (L : Bindings.Library W)
    name secret agentID policyJSON (v : Bindings.Vault) (w : W) p :
  Bindings.ptr v = Some p ->
  (secret = [] ->
     Bindings.Store name secret agentID policyJSON v w = (Panics Bindings.index_panic, w))
  /\ (secret <> [] ->
      Bindings.Store name secret agentID policyJSON v w =
        (Returns (Bindings.resultToError
                    (fst (Bindings.sanctum_vault_store p name secret agentID
                            (if String.eqb policyJSON "" then None else Some policyJSON) w))),
         snd (Bindings.sanctum_vault_store p name secret agentID
                (if String.eqb policyJSON "" then None else Some policyJSON) w)))
  /\ (fst (Bindings.Store name secret agentID policyJSON v w) = Returns None <->
      secret <> [] /\
      fst (Bindings.sanctum_vault_store p name secret agentID
             (if String.eqb policyJSON "" then None else Some policyJSON) w) = Bindings.OK).
Proof.
  intros Hp. unfold Bindings.Store. rewrite Hp.
  destruct secret as [|x rest].
  - split; [reflexivity|]. split; [intros E; contradiction E; reflexivity|].
    split; [discriminate | intros [E _]; contradiction E; reflexivity].
  - split; [discriminate|].
    assert (Hpol : (if negb (String.eqb policyJSON "") then Some policyJSON else None) =
                   (if String.eqb policyJSON "" then None else Some policyJSON))
      by (destruct (String.eqb policyJSON ""); reflexivity).
    rewrite Hpol.
    destruct (Bindings.sanctum_vault_store p name (x :: rest) agentID _ w) as [rc w1].
    cbn [fst snd]. split; [reflexivity|]. split.
    + intros [= E]. split; [discriminate|]. apply resultToError_None. exact E.
    + intros [_ E]. f_equal. apply resultToError_None. exact E.
Qed.

(** The credential of the repository's example is stored; an empty
    secret is not. *)
Lemma Store_outcomes_witness :
  let v := Bindings.mkVault (Some 1%positive) in
  let secret := list_byte_of_string "sk-secret-123" in
  Bindings.ptr v = Some 1%positive /\
  fst (Bindings.Store "api-key" secret "my-agent" "" v ReferenceVault.empty) = Returns None /\
  ReferenceVault.lookup "api-key"
    (snd (Bindings.Store "api-key" secret "my-agent" "" v ReferenceVault.empty)) = Some secret /\
  Bindings.Store "api-key" [] "my-agent" "" v ReferenceVault.empty =
    (Panics Bindings.index_panic, ReferenceVault.empty).
Proof.
  intros v secret.
  destruct (Store_outcomes ReferenceVault.header ReferenceVault.runtime
              ReferenceVault.World ReferenceVault.library
              "api-key" secret "my-agent" "" v ReferenceVault.empty 1%positive eq_refl)
    as (_ & Hcall & Hnil).
  destruct (Store_outcomes ReferenceVault.header ReferenceVault.runtime
              ReferenceVault.World ReferenceVault.library
              "api-key" [] "my-agent" "" v ReferenceVault.empty 1%positive eq_refl)
    as (Hpanic & _ & _).
  split; [reflexivity|]. split.
  - apply (proj2 Hnil). split; [discriminate | reflexivity].
  - split; [rewrite Hcall by discriminate; reflexivity | exact (Hpanic eq_refl)].
Defined.

(** X23.  [Retrieve] on an open vault, with [rc] and [needed] what the
    library answers to the first call, made without a buffer.  When
    [rc] is neither [BUFFER_TOO_SMALL] nor [OK], [Retrieve] returns the
    error of [rc], which is not [nil], and does not call the library
    again.  Otherwise, when the size needed is 0, it returns an empty
    slice that is not [nil], and no error, also without a second call.
    Whenever it returns, exactly one of the slice and the error is not
    [nil]; and a slice it returns is never longer than the size the
    library announced. *)
Theorem Vault_Retrieve_outcomes (H : Bindings.Header) (R : Bindings.Runtime)
    (W : Type) (L : Bindings.Library W)
    name agentID (v : Bindings.Vault) (w : W) p rc out needed w1 :
  Bindings.ptr v = Some p ->
  Bindings.sanctum_vault_retrieve p name agentID None 0 w = (rc, out, needed, w1) ->
  (rc <> Bindings.BUFFER_TOO_SMALL -> rc <> Bindings.OK ->
     Bindings.Retrieve name agentID v w = (Returns (None, Bindings.resultToError rc), w1)
     /\ Bindings.resultToError rc <> None)
  /\ (rc = Bindings.BUFFER_TOO_SMALL \/ rc = Bindings.OK -> uint64 needed = 0 ->
      Bindings.Retrieve name agentID v w = (Returns (Some [], None), w1))
  /\ (forall b e,
        fst (Bindings.Retrieve name agentID v w) = Returns (b, e) ->
        (b = None <-> e <> None))
  /\ (forall b,
        fst (Bindings.Retrieve name agentID v w) = Returns (Some b, None) ->
        len b <= uint64 needed).
Proof.
  intros Hp Hfirst. unfold Bindings.Retrieve. rewrite Hp, Hfirst.
  destruct (Z.eqb_spec rc Bindings.BUFFER_TOO_SMALL) as [Hb|Hb];
    destruct (Z.eqb_spec rc Bindings.OK) as [Ho|Ho]; cbn [negb andb].
  4: { split; [intros _ _; split; [reflexivity | apply resultToError_Some; exact Ho]|].
       split; [intros [E|E]; contradiction|].
       split.
       - intros b e [= <- <-]. split; [intros _; apply resultToError_Some; exact Ho | reflexivity].
       - intros b [=]. }
  all: (split; [intros E1 E2; contradiction|]).
  all: destruct (Z.eqb_spec (uint64 needed) 0) as [Hz|Hz].
  all: try (split; [intros _ _; reflexivity|];
            split; [intros b e [= <- <-]; split; [discriminate | intros E; contradiction E; reflexivity]|];
            intros b [= <-]; rewrite Hz; cbn; lia).
  all: (split; [intros _ E; contradiction|]).
  all: destruct (Bindings.make (Bindings.int (uint64 needed))) as [buf|msg] eqn:Hmake;
    [|split; [intros b e [=] | intros b [=]]].
  all: destruct (Bindings.sanctum_vault_retrieve p name agentID (Some (len buf))
                   (uint64 needed) w1) as [[[rc2 out2] outLen] w2].
  all: destruct (Bindings.resultToError rc2) as [err|] eqn:Herr;
    [split; [intros b e [= <- <-]; split; [discriminate | reflexivity] | intros b [=]]|].
  all: destruct (Bindings.slice_to (Bindings.filled buf out2) (Bindings.int outLen))
         as [b'|msg] eqn:Hslice;
    [|split; [intros b e [=] | intros b [=]]].
  all: split;
    [intros b e [= <- <-]; split; [discriminate | intros E; contradiction E; reflexivity]|].
  all: intros b [= <-].
  all: destruct (make_length R _ _ Hmake) as [Hlen _].
  all: destruct (slice_to_length _ _ _ Hslice) as [Hb' Hle].
  all: unfold len in Hle; rewrite filled_length in Hle; fold (len buf) in Hle.
  all: pose proof (int_uint64_le needed); lia.
Qed.

(** The credential of the repository's example, stored and retrieved;
    and a name that is not in the vault. *)
Lemma Vault_Retrieve_outcomes_witness :
  let v := Bindings.mkVault (Some 1%positive) in
  let secret := list_byte_of_string "sk-secret-123" in
  let w := snd (Bindings.Store "api-key" secret "my-agent" "" v ReferenceVault.empty) in
  fst (Bindings.Retrieve "api-key" "my-agent" v w) = Returns (Some secret, None) /\
  len secret <= 13 /\
  fst (Bindings.Retrieve "nonexistent" "agent-1" v w) =
    Returns (None, Some (Bindings.Sentinel Bindings.ErrNotFound)).
Proof.
  intros v secret w.
  assert (Hgot : fst (Bindings.Retrieve "api-key" "my-agent" v w) = Returns (Some secret, None))
    by (vm_compute; reflexivity).
  split; [exact Hgot|]. split.
  - exact (proj2 (proj2 (proj2
      (Vault_Retrieve_outcomes ReferenceVault.header ReferenceVault.runtime
         ReferenceVault.World ReferenceVault.library
         "api-key" "my-agent" v w 1%positive _ _ _ _ eq_refl eq_refl))) secret Hgot).
  - destruct (proj1
      (Vault_Retrieve_outcomes ReferenceVault.header ReferenceVault.runtime
         ReferenceVault.World ReferenceVault.library
         "nonexistent" "agent-1" v w 1%positive _ _ _ _ eq_refl eq_refl))
      as [Hret _]; [discriminate | discriminate |].
    rewrite Hret. reflexivity.
Defined.

(** X24.  [AuditLog] on an open vault, with [rc] and [needed] what the
    library answers to the first call, made without a buffer.  When
    [rc] is neither [BUFFER_TOO_SMALL] nor [OK], it returns the error
    of [rc] and the empty string, without a second call; otherwise,
    when the size needed is 0, it returns the text of the empty array.
    The filter goes to the library as a nil pointer exactly when it is
    empty.  Whenever an error is returned the text is empty, and a text
    returned without error is that of the empty array or is at most one
    byte longer than the size the library announced.  When the size
    announced is the largest a [uintptr] holds, the buffer of one byte
    more has no byte, and [AuditLog] panics before the second call: on
    the address of the first byte of the buffer, if not already in
    [make]. *)
Theorem AuditLog_outcomes (H : Bindings.Header) (R : Bindings.Runtime)
    (W : Type) (L : Bindings.Library W)
    agentIDFilter (v : Bindings.Vault) (w : W) p rc out needed w1 :
  Bindings.ptr v = Some p ->
  Bindings.sanctum_vault_audit_log p
    (if String.eqb agentIDFilter "" then None else Some agentIDFilter) None 0 w
    = (rc, out, needed, w1) ->
  (rc <> Bindings.BUFFER_TOO_SMALL -> rc <> Bindings.OK ->
     Bindings.AuditLog agentIDFilter v w = (Returns ("", Bindings.resultToError rc), w1)
     /\ Bindings.resultToError rc <> None)
  /\ (rc = Bindings.BUFFER_TOO_SMALL \/ rc = Bindings.OK -> uint64 needed = 0 ->
      Bindings.AuditLog agentIDFilter v w = (Returns ("[]", None), w1))
  /\ (forall log err,
        fst (Bindings.AuditLog agentIDFilter v w) = Returns (log, Some err) -> log = "")
  /\ (forall log,
        fst (Bindings.AuditLog agentIDFilter v w) = Returns (log, None) ->
        log = "[]" \/ Z.of_nat (String.length log) <= uint64 needed + 1)
  /\ (rc = Bindings.BUFFER_TOO_SMALL \/ rc = Bindings.OK ->
      uint64 needed = uint64_max - 1 ->
      Bindings.AuditLog agentIDFilter v w =
        (Panics (if (Bindings.maxAlloc <? 0)%Z
                 then "runtime error: makeslice: len out of range"
                 else Bindings.index_panic), w1)).
Proof.
  intros Hp Hfirst. unfold Bindings.AuditLog. rewrite Hp.
  assert (Hfil : (if negb (String.eqb agentIDFilter "") then Some agentIDFilter else None) =
                 (if String.eqb agentIDFilter "" then None else Some agentIDFilter))
    by (destruct (String.eqb agentIDFilter ""); reflexivity).
  rewrite Hfil, Hfirst.
  assert (Hneeded : 0 <= uint64 needed)
    by (unfold uint64; apply Z.mod_pos_bound; reflexivity).
  destruct (negb (rc =? Bindings.BUFFER_TOO_SMALL)%Z && negb (rc =? Bindings.OK)%Z)%bool eqn:Hrc.
  { apply andb_prop in Hrc. destruct Hrc as [Hb Ho].
    apply negb_true_iff in Hb, Ho. apply Z.eqb_neq in Hb, Ho.
    split; [intros _ _; split; [reflexivity | apply resultToError_Some; exact Ho]|].
    split; [intros [E|E]; contradiction|].
    split; [intros log err [= <- _]; reflexivity|].
    split; [intros log [= _ E]; exfalso; exact (resultToError_Some H rc Ho E)|].
    intros [E|E]; contradiction. }
  assert (Hin : rc = Bindings.BUFFER_TOO_SMALL \/ rc = Bindings.OK).
  { destruct (Z.eqb_spec rc Bindings.BUFFER_TOO_SMALL) as [E|E]; [left; exact E|].
    destruct (Z.eqb_spec rc Bindings.OK) as [E'|E']; [right; exact E' | discriminate Hrc]. }
  split; [intros E1 E2; destruct Hin; contradiction|].
  destruct (Z.eqb_spec (uint64 needed) 0) as [Hz|Hz].
  { split; [intros _ _; reflexivity|].
    split; [intros log err [=]|].
    split; [intros log [= <-]; left; reflexivity|].
    intros _ Hmax. rewrite Hz in Hmax. discriminate Hmax. }
  split; [intros _ E; contradiction|].
  destruct (Bindings.make (Bindings.int (Bindings.int (uint64 needed) + 1)))
    as [buf|msg] eqn:Hmake.
  2: { split; [intros log err [=]|]. split; [intros log [=]|].
       intros _ Hmax. rewrite Hmax in Hmake.
       change (Bindings.int (Bindings.int (uint64_max - 1) + 1)) with 0 in Hmake.
       unfold Bindings.make in Hmake. cbn [Z.ltb Z.compare orb] in Hmake.
       destruct (Bindings.maxAlloc <? 0)%Z; [|discriminate Hmake].
       injection Hmake as <-. reflexivity. }
  destruct buf as [|x buf].
  { split; [intros log err [=]|]. split; [intros log [=]|].
       intros _ Hmax. rewrite Hmax in Hmake.
       change (Bindings.int (Bindings.int (uint64_max - 1) + 1)) with 0 in Hmake.
       unfold Bindings.make in Hmake. cbn [Z.ltb Z.compare orb] in Hmake.
       destruct (Bindings.maxAlloc <? 0)%Z; [discriminate Hmake | reflexivity]. }
  pose proof (make_succ_length R needed _ Hmake) as Hsize.
  assert (Hnot : uint64 needed <> uint64_max - 1).
  { intros Hmax. rewrite Hmax in Hmake.
    change (Bindings.int (Bindings.int (uint64_max - 1) + 1)) with 0 in Hmake.
    unfold Bindings.make in Hmake. cbn [Z.ltb Z.compare orb] in Hmake.
    destruct (Bindings.maxAlloc <? 0)%Z; discriminate Hmake. }
  destruct (Bindings.sanctum_vault_audit_log p _ (Some (len (x :: buf))) (len (x :: buf)) w1)
    as [[[rc2 out2] outLen] w2].
  destruct (Bindings.resultToError rc2) as [err|] eqn:Herr.
  { split; [intros log err' [= <- _]; reflexivity|].
    split; [intros log [= _ E]; discriminate E|].
    intros _ Hmax. contradiction. }
  destruct (Bindings.slice_to (Bindings.filled (x :: buf) out2) (Bindings.int outLen))
    as [b'|msg] eqn:Hslice.
  2: { split; [intros log err [=]|]. split; [intros log [=]|].
       intros _ Hmax. contradiction. }
  split; [intros log err [= _ E]; discriminate E|].
  split; [|intros _ Hmax; contradiction].
  intros log [= <-]. right.
  rewrite length_string_of_list_byte.
  destruct (slice_to_length _ _ _ Hslice) as [Hb' Hle].
  unfold len in Hle. rewrite filled_length in Hle. fold (len (x :: buf)) in Hle.
  fold (len b'). lia.
Qed.

(** The audit log of the library in memory after the credential of the
    repository's example was stored: nine bytes are announced, a buffer
    of ten is handed over, and the nine bytes come back. *)
Lemma AuditLog_outcomes_witness :
  let v := Bindings.mkVault (Some 1%positive) in
  let secret := list_byte_of_string "sk-secret-123" in
  let w := snd (Bindings.Store "api-key" secret "my-agent" "" v ReferenceVault.empty) in
  Bindings.sanctum_vault_audit_log 1%positive None None 0 w =
    (Bindings.BUFFER_TOO_SMALL, [], 9, w) /\
  fst (Bindings.AuditLog "" v w) = Returns ("[api-key]", None) /\
  ("[api-key]" = "[]" \/ Z.of_nat (String.length "[api-key]") <= uint64 9 + 1).
Proof.
  intros v secret w.
  assert (Hlog : fst (Bindings.AuditLog "" v w) = Returns ("[api-key]", None))
    by (vm_compute; reflexivity).
  split; [reflexivity|]. split; [exact Hlog|].
  exact (proj1 (proj2 (proj2 (proj2
    (AuditLog_outcomes ReferenceVault.header ReferenceVault.runtime
       ReferenceVault.World ReferenceVault.library
       "" v w 1%positive _ _ _ _ eq_refl eq_refl)))) "[api-key]" Hlog).
Defined.

(* ================================================================== *)
(** ** The failures of a call and of the operations *)
(* ================================================================== *)

(** X25.  The errors of a call.  Whatever the connection does, an error
    that [call] returns is one of these: "marshal params" around an
    error of encoding/json; the error of [SetDeadline], bare; "marshal
    request"; "write length" or "write payload" around an I/O error;
    "read length" or "read payload" around an I/O error; the
    [ProtocolError] "frame too large" with a length above the ceiling;
    "unmarshal response"; a [VaultError]; or the [ProtocolError] "failed
    to parse error response".  An I/O error of reading or writing is
    never returned bare, and a [ProtocolError] has one of two texts. *)
Theorem call_failure_modes (JSON : EncodingJSON) ctx method params c e :
  fst (call ctx method params c) = Err e ->
  call_failure e
  /\ (forall io, e = EIO io -> io = ErrClosed /\ Deadline ctx <> None)
  /\ (forall p, e = EProtocol p ->
        ProtocolError.Message p = "failed to parse error response" \/
        exists n, maxFrameSize < n /\
                  ProtocolError.Message p = ("frame too large: " ++ decimal n ++ " bytes")%string).
Proof.
  intros He. pose proof (call_failure_forms ctx method params c e He) as Hf.
  split; [exact Hf|]. split.
  - intros io ->. revert He. unfold call.
    destruct (Marshal_any params) as [pb|e']; [|discriminate].
    rewrite newRequest_value. cbn [conn nextID].
    destruct (Deadline ctx) as [d|].
    + unfold SetDeadline at 1. destruct (closed (conn c)).
      * cbn [fst]. intros [= <-]. split; [reflexivity | discriminate].
      * match goal with |- context [exchange ?req ?k] =>
          pose proof (exchange_not_bare req k io) as Hx;
          destruct (exchange req k) as [r k']
        end.
        cbn [fst] in Hx |- *. intros Hr. contradiction (Hx Hr).
    + match goal with |- context [exchange ?req ?k] =>
        pose proof (exchange_not_bare req k io) as Hx;
        destruct (exchange req k) as [r k']
      end.
      cbn [fst] in Hx |- *. intros Hr. contradiction (Hx Hr).
  - intros p ->.
    destruct Hf as [[j H]|[H|[[x H]|[[x H]|[[x H]|[[x H]|[(n & Hn & H)|[[x H]|[[x H]|[[x H]|H]]]]]]]]]];
      try discriminate H.
    + injection H as ->. right. exists n. split; [exact Hn | reflexivity].
    + injection H as ->. left. reflexivity.
Qed.

(** The vault goes away without a word. *)
Lemma call_failure_modes_witness :
  let c := mkClient (Reference.connected []) 1 in
  fst (call Background "credential.list" (Encodable (JObject [])) c) =
    Err (Wrap "read length" (EIO EOF)) /\
  call_failure (Wrap "read length" (EIO EOF)).
Proof.
  intros c.
  assert (He : fst (call Background "credential.list" (Encodable (JObject [])) c) =
               Err (Wrap "read length" (EIO EOF))) by (vm_compute; reflexivity).
  split; [exact He|].
  exact (proj1 (call_failure_modes Reference.package Background "credential.list"
                  (Encodable (JObject [])) c _ He)).
Defined.

(** X26.  The errors of the credential calls.  [Retrieve], [List] and
    [Use] return either the error of their call, as it is, or an error
    of encoding/json wrapped as "parse credential", "parse credential
    list" and "parse use result"; the second only when the call itself
    succeeded.  This holds for [Use] whatever its parameters are: with
    parameters that do not marshal it returns the "marshal params"
    error of its call, as it is, and leaves the client as it was.
    [ReleaseLease] returns the error of its call and no other. *)
Theorem operation_failure_modes (JSON : EncodingJSON) ctx c :
  (forall path ttl e,
     fst (Retrieve ctx path ttl c) = Err e ->
     (fst (call ctx "credential.retrieve"
             (Encodable (JObject [("path", JString path); ("ttl", JInt ttl)])) c) = Err e
      /\ call_failure e) \/
     (exists j result,
        e = Wrap "parse credential" (EJSON j) /\
        fst (call ctx "credential.retrieve"
               (Encodable (JObject [("path", JString path); ("ttl", JInt ttl)])) c)
          = Ok result))
  /\ (forall e,
        fst (List ctx c) = Err e ->
        (fst (call ctx "credential.list" (Encodable (JObject [])) c) = Err e
         /\ call_failure e) \/
        (exists j result,
           e = Wrap "parse credential list" (EJSON j) /\
           fst (call ctx "credential.list" (Encodable (JObject [])) c) = Ok result))
  /\ (forall path operation p e,
        fst (Use ctx path operation (Encodable p) c) = Err e ->
        (fst (call ctx "credential.use"
                (Encodable (JObject [("operation", JString operation); ("params", p);
                                     ("path", JString path)])) c) = Err e
         /\ call_failure e) \/
        (exists j result,
           e = Wrap "parse use result" (EJSON j) /\
           fst (call ctx "credential.use"
                  (Encodable (JObject [("operation", JString operation); ("params", p);
                                       ("path", JString path)])) c) = Ok result))
  /\ (forall path operation params e,
        fst (Use ctx path operation params c) = Err e ->
        call_failure e \/ exists j, e = Wrap "parse use result" (EJSON j))
  /\ (forall path operation t,
        Use ctx path operation (Unsupported t) c =
          (Err (Wrap "marshal params" (EJSON (UnsupportedTypeError t))), c)
        /\ call ctx "credential.use" (Unsupported t) c =
             (Err (Wrap "marshal params" (EJSON (UnsupportedTypeError t))), c))
  /\ (forall leaseID e,
        fst (ReleaseLease ctx leaseID c) = Some e ->
        fst (call ctx "lease.release"
               (Encodable (JObject [("lease_id", JString leaseID)])) c) = Err e
        /\ call_failure e)
  /\ (forall leaseID,
        fst (ReleaseLease ctx leaseID c) = None <->
        exists result,
          fst (call ctx "lease.release"
                 (Encodable (JObject [("lease_id", JString leaseID)])) c) = Ok result).
Proof.
  split; [|split; [|split; [|split; [|split; [|split]]]]].
  - intros path ttl e. unfold Retrieve.
    match goal with |- context [call ?x ?m ?p c] =>
      pose proof (call_failure_forms x m p c) as Hf;
      destruct (call x m p c) as [[result|e0] c1]
    end; cbn [fst] in Hf |- *.
    + destruct (Unmarshal_Credential result) as [cred|e1] eqn:E; [discriminate|].
      intros [= <-]. right.
      destruct (Unmarshal_struct_error _ _ _ set_Credential_error _ _ E) as [j ->].
      exists j, result. split; reflexivity.
    + intros [= <-]. left. split; [reflexivity | apply Hf; reflexivity].
  - intros e. unfold List.
    match goal with |- context [call ?x ?m ?p c] =>
      pose proof (call_failure_forms x m p c) as Hf;
      destruct (call x m p c) as [[result|e0] c1]
    end; cbn [fst] in Hf |- *.
    + destruct (Unmarshal_CredentialInfos result) as [creds|e1] eqn:E; [discriminate|].
      intros [= <-]. right.
      destruct (Unmarshal_CredentialInfos_error _ _ E) as [j ->].
      exists j, result. split; reflexivity.
    + intros [= <-]. left. split; [reflexivity | apply Hf; reflexivity].
  - intros path operation p e. unfold Use.
    match goal with |- context [call ?x ?m ?q c] =>
      pose proof (call_failure_forms x m q c) as Hf;
      destruct (call x m q c) as [[result|e0] c1]
    end; cbn [fst] in Hf |- *.
    + destruct (Unmarshal_UseResult result) as [ur|e1] eqn:E; [discriminate|].
      intros [= <-]. right.
      destruct (Unmarshal_struct_error _ _ _ set_UseResult_error _ _ E) as [j ->].
      exists j, result. split; reflexivity.
    + intros [= <-]. left. split; [reflexivity | apply Hf; reflexivity].
  - intros path operation params e. unfold Use.
    match goal with |- context [call ?x ?m ?q c] =>
      pose proof (call_failure_forms x m q c) as Hf;
      destruct (call x m q c) as [[result|e0] c1]
    end; cbn [fst] in Hf |- *.
    + destruct (Unmarshal_UseResult result) as [ur|e1] eqn:E; [discriminate|].
      intros [= <-]. right.
      destruct (Unmarshal_struct_error _ _ _ set_UseResult_error _ _ E) as [j ->].
      exists j. reflexivity.
    + intros [= <-]. left. apply Hf. reflexivity.
  - intros path operation t. split; reflexivity.
  - intros leaseID e. unfold ReleaseLease.
    match goal with |- context [call ?x ?m ?q c] =>
      pose proof (call_failure_forms x m q c) as Hf;
      destruct (call x m q c) as [[result|e0] c1]
    end; cbn [fst] in Hf |- *; [discriminate|].
    intros [= <-]. split; [reflexivity | apply Hf; reflexivity].
  - intros leaseID. unfold ReleaseLease.
    match goal with |- context [call ?x ?m ?q c] =>
      destruct (call x m q c) as [[result|e0] c1]
    end; cbn [fst].
    + split; [intros _; eexists; reflexivity | reflexivity].
    + split; [discriminate | intros [r H]; discriminate H].
Qed.

(** X27.  The errors of [Authenticate].  An error it returns is built
    in one of six ways, which tell the step that failed: "auth
    challenge" around the error of the first call; "parse challenge"
    around an error of encoding/json; "decode challenge hex" around an
    error of encoding/hex; "auth verify" around the error of the second
    call; "parse auth result" around an error of encoding/json; or
    "authentication rejected by server".  So the error of
    [Authenticate] is never itself a [VaultError] or a
    [ProtocolError]: where the vault sent one, it is inside. *)
Theorem Authenticate_failure_modes (JSON : EncodingJSON) (ED : Ed25519)
    ctx agentName privateKey c e :
  fst (Authenticate ctx agentName privateKey c) = Returns (Some e) ->
  handshake_failure e
  /\ is_VaultError e = false
  /\ is_ProtocolError e = false.
Proof.
  intros He.
  assert (Hf : handshake_failure e).
  { revert He. unfold Authenticate, handshake_failure.
    match goal with |- context [call ?x ?m ?q c] =>
      pose proof (call_failure_forms x m q c) as Hf1;
      destruct (call x m q c) as [[result|e1] c1]
    end; cbn [fst] in Hf1 |- *.
    2: { intros [= <-]. left. eexists. split; [reflexivity | apply Hf1; reflexivity]. }
    destruct (Unmarshal_authChallenge result) as [challenge|e2] eqn:E2.
    2: { cbn [fst]. intros [= <-]. right. left.
         destruct (Unmarshal_struct_error _ _ _ set_authChallenge_error _ _ E2) as [j ->].
         eexists. reflexivity. }
    destruct (hex_DecodeString (authChallenge.Challenge challenge)) as [cb|e3] eqn:E3.
    2: { cbn [fst]. intros [= <-]. do 2 right. left.
         destruct (hex_DecodeString_error _ _ E3) as [h ->]. eexists. reflexivity. }
    destruct (ed25519_Sign privateKey cb) as [signature|msg]; [|discriminate].
    match goal with |- context [call ?x ?m ?q c1] =>
      pose proof (call_failure_forms x m q c1) as Hf2;
      destruct (call x m q c1) as [[verifyResult|e4] c2]
    end; cbn [fst] in Hf2 |- *.
    2: { intros [= <-]. do 3 right. left. eexists.
         split; [reflexivity | apply Hf2; reflexivity]. }
    destruct (Unmarshal_authResult verifyResult) as [auth|e5] eqn:E5.
    2: { cbn [fst]. intros [= <-]. do 4 right. left.
         destruct (Unmarshal_struct_error _ _ _ set_authResult_error _ _ E5) as [j ->].
         eexists. reflexivity. }
    destruct (negb (authResult.Authenticated auth)); cbn [fst]; [|discriminate].
    intros [= <-]. do 5 right. reflexivity. }
  split; [exact Hf|].
  destruct Hf as [(x & -> & _)|[[x ->]|[[x ->]|[(x & -> & _)|[[x ->]| ->]]]]];
    split; reflexivity.
Qed.

(** The vault is sealed: what [Authenticate] returns has the
    [VaultError] inside. *)
Lemma Authenticate_failure_modes_witness :
  let text := "{'id':1,'error':{'code':'VAULT_LOCKED','message':'Vault is sealed'}}" in
  let c := mkClient (Reference.connected (Reference.frame text)) 1 in
  let e := Wrap "auth challenge"
             (EVault (VaultError.mk ErrVaultLocked "Vault is sealed" "" "" "" None)) in
  fst (Authenticate Background "agent-1" Reference.key c) = Returns (Some e) /\
  handshake_failure e /\ is_VaultError e = false.
Proof.
  intros text c e.
  assert (He : fst (Authenticate Background "agent-1" Reference.key c) = Returns (Some e))
    by (vm_compute; reflexivity).
  split; [exact He|].
  destruct (Authenticate_failure_modes Reference.package Reference.signer
              Background "agent-1" Reference.key c e He) as (Hf & Hv & _).
  split; [exact Hf | exact Hv].
Defined.



(* ================================================================== *)
(** ** The ids on the wire *)
(* ================================================================== *)

Section WireFacts.
Context {JSON : EncodingJSON}.





End WireFacts.


